(** * Articoon: the voice turn-taking loop of [static/js/main.js]

    A shallow embedding of the browser script that drives the spoken
    dialogue: the script-level variables, the handlers installed on the
    speech-recognition object, the synthesis utterances, the timers and the
    three calls to the conversation service.

    The script is single threaded and event driven.  Every function of the
    script is a computation in a small state-and-exception monad over
    [State]; the platform (recognition engine, synthesis queue, timer queue,
    network) is part of [State], and the environment drives the script by
    delivering [Event]s to [dispatch].  Time is the clock of the timer
    queue: [advance_to] lets it run and fires what comes due.

    Conventions.
    - A JavaScript string is the list of its UTF-16 code units.
    - The elements looked up by id at the top of the script are present in
      the page ([voiceIndicator] is dereferenced unguarded by the script).
    - Voice selection is modelled on its own ([loadVoices]); the
      utterances of the state carry no voice.  [loadVoices()] runs when the
      script is loaded (line 165) and sets [voicesReady], so the wait loop
      at the head of [startConversation] falls through without suspending.
    - The text of the countdown display is modelled on its own
      ([timerDisplay_text]); the state keeps the number it is computed
      from.
    - An [await] parks the rest of an [async] function until the platform
      settles the promise; the two awaits on a [fetch] and on its [json()]
      settle in one event, nothing of the script's state being touched in
      between.
    - The platform reports an utterance over at most once, by its [end] or
      by its [error] event, and reports nothing for an utterance
      [speechSynthesis.cancel()] removed. *)

From Stdlib Require Import List Bool Arith NArith ZArith Lia String Ascii
  DecimalString.
Import ListNotations.

(* ================================================================== *)
(** ** JavaScript strings and values *)

Module JS.

(** UTF-16 code units. *)
Definition JSString := list N.

Definition lit (s : string) : JSString :=
  map N_of_ascii (list_ascii_of_string s).

(** ECMAScript [WhiteSpace] and [LineTerminator] code points, the set
    removed by [String.prototype.trim]. *)
Definition is_space (c : N) : bool :=
  ((9 <=? c) && (c <=? 13) ||
   (c =? 32) || (c =? 160) || (c =? 5760) ||
   (8192 <=? c) && (c <=? 8202) ||
   (c =? 8232) || (c =? 8233) || (c =? 8239) || (c =? 8287) ||
   (c =? 12288) || (c =? 65279))%N.

Fixpoint trim_start (s : JSString) : JSString :=
  match s with
  | [] => []
  | c :: rest => if is_space c then trim_start rest else s
  end.

Definition trim (s : JSString) : JSString :=
  rev (trim_start (rev (trim_start s))).

Definition is_empty (s : JSString) : bool :=
  match s with [] => true | _ => false end.

(** The values a field of a JSON reply can hold, as far as the script
    looks at them. *)
Inductive Value :=
| VUndefined
| VNull
| VBool (b : bool)
| VNum (z : Z)
| VStr (s : JSString).

(** [ToBoolean]. *)
Definition truthy (v : Value) : bool :=
  match v with
  | VUndefined | VNull => false
  | VBool b => b
  | VNum z => negb (z =? 0)%Z
  | VStr s => negb (is_empty s)
  end.

(** The result of [res.json()]: a parse failure, [null], or an object
    (a primitive reply behaves as an object without fields). *)
Inductive Json :=
| JInvalid
| JNull
| JObject (fields : list (string * Value)).

Fixpoint lookup (k : string) (fields : list (string * Value)) : Value :=
  match fields with
  | [] => VUndefined
  | (k', v) :: rest => if String.eqb k k' then v else lookup k rest
  end.

End JS.
Import JS.

(* ================================================================== *)
(** ** Data model *)

(** [event.error] of a recognition error event. *)
Inductive RecErrorCode :=
| NoSpeech | Aborted | AudioCapture | Network | NotAllowed
| ServiceNotAllowed | BadGrammar | LanguageNotSupported.

(** One entry of [event.results]: [results[i][0].transcript] and
    [results[i].isFinal]. *)
Record RecResult := { transcript : JSString; isFinal : bool }.

Record ResultEvent := { resultIndex : nat; results : list RecResult }.

(** The one closure the script passes to [speak] (line 322). *)
Inductive SpeakCallback := ReadyAfterGreeting.

(** The closures the script hands to [setTimeout] / [setInterval], one
    constructor per closure in the source. *)
Inductive TimerCallback :=
| CbSilence                                   (* line 95:  stopListeningAndSend() *)
| CbErrorRestart                              (* line 113: if (isListening) startListening() *)
| CbEndRestart                                (* line 127: if (isListening) startListening() *)
| CbSpeakEnd (callback : option SpeakCallback)   (* line 190 *)
| CbSpeakError (callback : option SpeakCallback) (* line 198 *)
| CbResumeNoMessage                           (* line 250: startListening() *)
| CbCountdown                                 (* line 256: the session countdown *)
| CbResumeSendError.                          (* line 356: startListening() *)

Record Timer := {
  tid : nat;
  due : N;                    (* ms since page load *)
  cb : TimerCallback;
  period : option N           (* [Some p] for setInterval *)
}.

Record Utterance := {
  uid : nat;
  utext : Value;
  ucallback : option SpeakCallback
}.

(** State of the platform's recognition object.  [start()] throws
    [InvalidStateError] unless the object is idle; a started object is idle
    again once its [end] event has fired. *)
Inductive RecState := RecIdle | RecStarting | RecRunning | RecStopping.

Inductive RecCall := CallStart | CallStop.

(** Calls to the conversation service. *)
Inductive Request :=
| ReqStart                                          (* POST /start_conversation *)
| ReqSend (conversation_id : Value) (message : JSString)  (* POST /send_message *)
| ReqEnd (conversation_id : Value).                 (* POST /end_conversation *)

(** What resumes when a [fetch] settles. *)
Inductive Continuation := KStart | KSend | KEnd.

Inductive FetchResult :=
| NetworkFailure
| Response (ok : bool) (body : Json).

Inductive Exn :=
| InvalidStateError
| TypeError
| FetchRejected
| SyntaxError
| ErrorFailedToStart.

Inductive LogMsg :=
| LogCleaningUp
| LogRecognitionStarted
| LogInterim (s : JSString)
| LogFinalSoFar (s : JSString)
| LogSilenceDetected
| LogRecognitionError (c : RecErrorCode)
| LogNoSpeech
| LogAttemptingRestart
| LogRecognitionEnded
| LogRestarting
| LogFinishedSpeaking
| LogSynthesisError
| LogErrorStarting (e : Exn)
| LogErrorStopping (e : Exn)
| LogSending (m : JSString)
| LogNoMessage
| LogReadyAfterGreeting
| LogErrorStartConversation (e : Exn)
| LogErrorSendMessage (e : Exn)
| LogErrorEndConversation (e : Exn)
| LogPageUnloading
| LogPageHiding
| LogPageHidden
| LogPageVisible.

Inductive Screen := WelcomeScreen | ConversationScreen | FeedbackScreen.

(** The script's [let] variables (lines 22-33). *)
Record Vars := {
  conversationId : Value;
  recognition : bool;            (* a SpeechRecognition object was created *)
  isListening : bool;
  timerInterval : option nat;
  timeRemaining : Z;
  silenceTimer : option nat;
  finalTranscript : JSString;
  interimTranscript : JSString
}.

Record Recognizer := {
  recState : RecState;
  recCalls : list RecCall        (* every start()/stop() issued, oldest first *)
}.

Record Synth := {
  queue : list Utterance;        (* head is being spoken *)
  paused : bool;
  nextUid : nat
}.

Record Clock := {
  now : N;
  timers : list Timer;
  nextTid : nat
}.

Record Net := {
  pending : list (nat * Continuation);
  nextReq : nat;
  requests : list Request        (* every fetch issued, oldest first *)
}.

Record Page := {
  alerts : list JSString;
  chat : list (Value * bool);    (* (text, isUser) *)
  loadingText : JSString;
  loadingActive : bool;
  indicatorActive : bool;
  textInputValue : JSString;
  turnCountText : Value;
  activeScreen : Screen;
  location : option Value;       (* last assignment to window.location.href *)
  unloaded : bool
}.

Record State := {
  vars : Vars;
  recog : Recognizer;
  synth : Synth;
  clock : Clock;
  net : Net;
  page : Page;
  console : list (N * LogMsg)    (* console output with the time it was written *)
}.

(* ------------------------------------------------------------------ *)
(** *** Field updates *)

Definition set_conversationId (x : Value) (v : Vars) : Vars :=
  {| conversationId := x; recognition := recognition v;
     isListening := isListening v; timerInterval := timerInterval v;
     timeRemaining := timeRemaining v; silenceTimer := silenceTimer v;
     finalTranscript := finalTranscript v;
     interimTranscript := interimTranscript v |}.

Definition set_isListening (x : bool) (v : Vars) : Vars :=
  {| conversationId := conversationId v; recognition := recognition v;
     isListening := x; timerInterval := timerInterval v;
     timeRemaining := timeRemaining v; silenceTimer := silenceTimer v;
     finalTranscript := finalTranscript v;
     interimTranscript := interimTranscript v |}.

Definition set_timerInterval (x : option nat) (v : Vars) : Vars :=
  {| conversationId := conversationId v; recognition := recognition v;
     isListening := isListening v; timerInterval := x;
     timeRemaining := timeRemaining v; silenceTimer := silenceTimer v;
     finalTranscript := finalTranscript v;
     interimTranscript := interimTranscript v |}.

Definition set_timeRemaining (x : Z) (v : Vars) : Vars :=
  {| conversationId := conversationId v; recognition := recognition v;
     isListening := isListening v; timerInterval := timerInterval v;
     timeRemaining := x; silenceTimer := silenceTimer v;
     finalTranscript := finalTranscript v;
     interimTranscript := interimTranscript v |}.

Definition set_silenceTimer (x : option nat) (v : Vars) : Vars :=
  {| conversationId := conversationId v; recognition := recognition v;
     isListening := isListening v; timerInterval := timerInterval v;
     timeRemaining := timeRemaining v; silenceTimer := x;
     finalTranscript := finalTranscript v;
     interimTranscript := interimTranscript v |}.

Definition set_finalTranscript (x : JSString) (v : Vars) : Vars :=
  {| conversationId := conversationId v; recognition := recognition v;
     isListening := isListening v; timerInterval := timerInterval v;
     timeRemaining := timeRemaining v; silenceTimer := silenceTimer v;
     finalTranscript := x;
     interimTranscript := interimTranscript v |}.

Definition set_interimTranscript (x : JSString) (v : Vars) : Vars :=
  {| conversationId := conversationId v; recognition := recognition v;
     isListening := isListening v; timerInterval := timerInterval v;
     timeRemaining := timeRemaining v; silenceTimer := silenceTimer v;
     finalTranscript := finalTranscript v;
     interimTranscript := x |}.

Definition set_timers (x : list Timer) (c : Clock) : Clock :=
  {| now := now c; timers := x; nextTid := nextTid c |}.

Definition set_now (x : N) (c : Clock) : Clock :=
  {| now := x; timers := timers c; nextTid := nextTid c |}.

Definition set_queue (x : list Utterance) (y : Synth) : Synth :=
  {| queue := x; paused := paused y; nextUid := nextUid y |}.

Definition set_paused (x : bool) (y : Synth) : Synth :=
  {| queue := queue y; paused := x; nextUid := nextUid y |}.

Definition set_pending (x : list (nat * Continuation)) (n : Net) : Net :=
  {| pending := x; nextReq := nextReq n; requests := requests n |}.

Definition set_alerts (x : list JSString) (p : Page) : Page :=
  {| alerts := x; chat := chat p; loadingText := loadingText p;
     loadingActive := loadingActive p; indicatorActive := indicatorActive p;
     textInputValue := textInputValue p; turnCountText := turnCountText p;
     activeScreen := activeScreen p; location := location p;
     unloaded := unloaded p |}.

Definition set_chat (x : list (Value * bool)) (p : Page) : Page :=
  {| alerts := alerts p; chat := x; loadingText := loadingText p;
     loadingActive := loadingActive p; indicatorActive := indicatorActive p;
     textInputValue := textInputValue p; turnCountText := turnCountText p;
     activeScreen := activeScreen p; location := location p;
     unloaded := unloaded p |}.

Definition set_loading (t : JSString) (a : bool) (p : Page) : Page :=
  {| alerts := alerts p; chat := chat p; loadingText := t;
     loadingActive := a; indicatorActive := indicatorActive p;
     textInputValue := textInputValue p; turnCountText := turnCountText p;
     activeScreen := activeScreen p; location := location p;
     unloaded := unloaded p |}.

Definition set_indicatorActive (x : bool) (p : Page) : Page :=
  {| alerts := alerts p; chat := chat p; loadingText := loadingText p;
     loadingActive := loadingActive p; indicatorActive := x;
     textInputValue := textInputValue p; turnCountText := turnCountText p;
     activeScreen := activeScreen p; location := location p;
     unloaded := unloaded p |}.

Definition set_textInputValue (x : JSString) (p : Page) : Page :=
  {| alerts := alerts p; chat := chat p; loadingText := loadingText p;
     loadingActive := loadingActive p; indicatorActive := indicatorActive p;
     textInputValue := x; turnCountText := turnCountText p;
     activeScreen := activeScreen p; location := location p;
     unloaded := unloaded p |}.

Definition set_turnCountText (x : Value) (p : Page) : Page :=
  {| alerts := alerts p; chat := chat p; loadingText := loadingText p;
     loadingActive := loadingActive p; indicatorActive := indicatorActive p;
     textInputValue := textInputValue p; turnCountText := x;
     activeScreen := activeScreen p; location := location p;
     unloaded := unloaded p |}.

Definition set_activeScreen (x : Screen) (p : Page) : Page :=
  {| alerts := alerts p; chat := chat p; loadingText := loadingText p;
     loadingActive := loadingActive p; indicatorActive := indicatorActive p;
     textInputValue := textInputValue p; turnCountText := turnCountText p;
     activeScreen := x; location := location p;
     unloaded := unloaded p |}.

Definition set_location (x : option Value) (p : Page) : Page :=
  {| alerts := alerts p; chat := chat p; loadingText := loadingText p;
     loadingActive := loadingActive p; indicatorActive := indicatorActive p;
     textInputValue := textInputValue p; turnCountText := turnCountText p;
     activeScreen := activeScreen p; location := x;
     unloaded := unloaded p |}.

Definition set_unloaded (x : bool) (p : Page) : Page :=
  {| alerts := alerts p; chat := chat p; loadingText := loadingText p;
     loadingActive := loadingActive p; indicatorActive := indicatorActive p;
     textInputValue := textInputValue p; turnCountText := turnCountText p;
     activeScreen := activeScreen p; location := location p;
     unloaded := x |}.

Definition upd_vars (f : Vars -> Vars) (s : State) : State :=
  {| vars := f (vars s); recog := recog s; synth := synth s;
     clock := clock s; net := net s; page := page s; console := console s |}.

Definition upd_recog (f : Recognizer -> Recognizer) (s : State) : State :=
  {| vars := vars s; recog := f (recog s); synth := synth s;
     clock := clock s; net := net s; page := page s; console := console s |}.

Definition upd_synth (f : Synth -> Synth) (s : State) : State :=
  {| vars := vars s; recog := recog s; synth := f (synth s);
     clock := clock s; net := net s; page := page s; console := console s |}.

Definition upd_clock (f : Clock -> Clock) (s : State) : State :=
  {| vars := vars s; recog := recog s; synth := synth s;
     clock := f (clock s); net := net s; page := page s; console := console s |}.

Definition upd_net (f : Net -> Net) (s : State) : State :=
  {| vars := vars s; recog := recog s; synth := synth s;
     clock := clock s; net := f (net s); page := page s; console := console s |}.

Definition upd_page (f : Page -> Page) (s : State) : State :=
  {| vars := vars s; recog := recog s; synth := synth s;
     clock := clock s; net := net s; page := f (page s); console := console s |}.

Definition upd_console (f : list (N * LogMsg) -> list (N * LogMsg))
    (s : State) : State :=
  {| vars := vars s; recog := recog s; synth := synth s;
     clock := clock s; net := net s; page := page s; console := f (console s) |}.

(* ================================================================== *)
(** ** The monad of script computations *)

Inductive Res (A : Type) :=
| Ok (a : A) (s : State)
| Throw (e : Exn) (s : State).
Arguments Ok {A} a s.
Arguments Throw {A} e s.

Definition M (A : Type) := State -> Res A.

Definition ret {A} (a : A) : M A := fun s => Ok a s.

Definition bind {A B} (m : M A) (k : A -> M B) : M B :=
  fun s => match m s with
           | Ok a s' => k a s'
           | Throw e s' => Throw e s'
           end.

Definition throw {A} (e : Exn) : M A := fun s => Throw e s.

(** [try { body } catch (e) { handler e }]. *)
Definition try_catch (body : M unit) (handler : Exn -> M unit) : M unit :=
  fun s => match body s with
           | Ok a s' => Ok a s'
           | Throw e s' => handler e s'
           end.

Definition gets {A} (f : State -> A) : M A := fun s => Ok (f s) s.

Definition modify (f : State -> State) : M unit := fun s => Ok tt (f s).

Declare Scope js_scope.
Delimit Scope js_scope with js.
Notation "x <- m ;; k" := (bind m (fun x => k))
  (at level 61, m at next level, right associativity) : js_scope.
Notation "m ;; k" := (bind m (fun _ => k))
  (at level 61, right associativity) : js_scope.
Local Open Scope js_scope.

Definition when (b : bool) (m : M unit) : M unit :=
  if b then m else ret tt.

(** The state a computation leaves behind, whether it returned or threw.
    Used where the script discards the outcome: the top level of an event
    handler, and the promise of an [async] function nobody awaits. *)
Definition final_state {A} (r : Res A) : State :=
  match r with Ok _ s => s | Throw _ s => s end.

(** Calling an [async] function never throws into the caller: an exception
    escaping its body rejects the promise it returned. *)
Definition async (body : M unit) : M unit :=
  fun s => Ok tt (final_state (body s)).

(* ================================================================== *)
(** ** Platform operations *)

Definition console_log (m : LogMsg) : M unit :=
  fun s => Ok tt (upd_console (fun c => c ++ [(now (clock s), m)]) s).

(** [recognition.start()]: throws [InvalidStateError] on an object that is
    already started. *)
Definition rec_start : M unit :=
  fun s =>
    let calls := recCalls (recog s) ++ [CallStart] in
    match recState (recog s) with
    | RecIdle =>
        Ok tt (upd_recog (fun _ => {| recState := RecStarting; recCalls := calls |}) s)
    | st =>
        Throw InvalidStateError
              (upd_recog (fun _ => {| recState := st; recCalls := calls |}) s)
    end.

(** [recognition.stop()]: ignored on an object that is not capturing. *)
Definition rec_stop : M unit :=
  modify (upd_recog (fun r =>
    {| recState := match recState r with
                   | RecStarting | RecRunning => RecStopping
                   | st => st
                   end;
       recCalls := recCalls r ++ [CallStop] |})).

(** [speechSynthesis.speaking], [.cancel()], [.speak(u)], [.pause()],
    [.resume()]. *)
Definition synth_speaking : M bool :=
  gets (fun s => match queue (synth s) with [] => false | _ => true end).

Definition synth_cancel : M unit :=
  modify (upd_synth (set_queue [])).

Definition synth_speak (text : Value) (callback : option SpeakCallback) : M unit :=
  modify (upd_synth (fun y =>
    {| queue := queue y ++ [{| uid := nextUid y; utext := text;
                               ucallback := callback |}];
       paused := paused y;
       nextUid := S (nextUid y) |})).

Definition synth_pause : M unit := modify (upd_synth (set_paused true)).
Definition synth_resume : M unit := modify (upd_synth (set_paused false)).

(** [setTimeout(cb, delay)] / [setInterval(cb, delay)]: returns the handle. *)
Definition schedule (c : TimerCallback) (delay : N) (p : option N) : M nat :=
  fun s =>
    let id := nextTid (clock s) in
    Ok id (upd_clock (fun k =>
      {| now := now k;
         timers := timers k ++ [{| tid := id; due := now k + delay;
                                   cb := c; period := p |}];
         nextTid := S id |}) s).

Definition setTimeout (c : TimerCallback) (delay : N) : M nat :=
  schedule c delay None.

Definition setInterval (c : TimerCallback) (delay : N) : M nat :=
  schedule c delay (Some delay).

Definition cancel_timer (id : nat) (ts : list Timer) : list Timer :=
  filter (fun t => negb (tid t =? id)) ts.

(** [clearTimeout(h)] / [clearInterval(h)]: a no-op on [null] and on a
    handle that is no longer pending. *)
Definition clearTimeout (h : option nat) : M unit :=
  match h with
  | None => ret tt
  | Some id => modify (upd_clock (fun k => set_timers (cancel_timer id (timers k)) k))
  end.

Definition clearInterval := clearTimeout.

(** [fetch(...)]: the request is issued and its continuation parked. *)
Definition fetch (r : Request) (k : Continuation) : M unit :=
  modify (upd_net (fun n =>
    {| pending := pending n ++ [(nextReq n, k)];
       nextReq := S (nextReq n);
       requests := requests n ++ [r] |})).

Definition await_fetch (r : FetchResult) : M (bool * Json) :=
  match r with
  | NetworkFailure => throw FetchRejected
  | Response ok body => ret (ok, body)
  end.

Definition await_json (body : Json) : M Json :=
  match body with
  | JInvalid => throw SyntaxError
  | j => ret j
  end.

(** [data.k]. *)
Definition field (k : string) (data : Json) : M Value :=
  match data with
  | JObject fs => ret (lookup k fs)
  | JNull => throw TypeError
  | JInvalid => throw SyntaxError
  end.

Definition alert (m : JSString) : M unit :=
  modify (upd_page (fun p => set_alerts (alerts p ++ [m]) p)).

Definition navigate (v : Value) : M unit :=
  modify (upd_page (set_location (Some v))).

(* ================================================================== *)
(** ** The script *)

(** *** UI (lines 271-294) *)

Definition showScreen (sc : Screen) : M unit :=
  modify (upd_page (set_activeScreen sc)).

Definition showLoading (text : JSString) : M unit :=
  modify (upd_page (set_loading text true)).

Definition hideLoading : M unit :=
  modify (upd_page (fun p => set_loading (loadingText p) false p)).

Definition addMessage (text : Value) (isUser : bool) : M unit :=
  modify (upd_page (fun p => set_chat (chat p ++ [(text, isUser)]) p)).

(** *** Timer (lines 266-268) *)

Definition stopTimer : M unit :=
  h <- gets (fun s => timerInterval (vars s)) ;;
  clearInterval h.

(** *** Listening control (lines 208-237) *)

Definition startListening : M unit :=
  r <- gets (fun s => recognition (vars s)) ;;
  l <- gets (fun s => isListening (vars s)) ;;
  if negb r || l then ret tt
  else
    try_catch
      (modify (upd_vars (set_finalTranscript [])) ;;
       modify (upd_vars (set_interimTranscript [])) ;;
       rec_start)
      (fun e => console_log (LogErrorStarting e)).

Definition stopListening : M unit :=
  r <- gets (fun s => recognition (vars s)) ;;
  if negb r then ret tt
  else
    modify (upd_vars (set_isListening false)) ;;
    h <- gets (fun s => silenceTimer (vars s)) ;;
    clearTimeout h ;;
    try_catch rec_stop (fun e => console_log (LogErrorStopping e)) ;;
    modify (upd_page (set_indicatorActive false)).

(** *** Cleanup (lines 36-50) *)

Definition cleanupEverything : M unit :=
  console_log LogCleaningUp ;;
  sp <- synth_speaking ;;
  when sp synth_cancel ;;
  stopListening ;;
  h <- gets (fun s => silenceTimer (vars s)) ;;
  clearTimeout h ;;
  stopTimer.

(** *** Speech output (lines 167-205) *)

Definition speak (text : Value) (callback : option SpeakCallback) : M unit :=
  if negb (truthy text) then ret tt
  else
    stopListening ;;
    synth_cancel ;;
    synth_speak text callback.

(** [utterance.onend] and [utterance.onerror] of the utterance built by
    [speak]. *)
Definition utterance_onend (u : Utterance) : M unit :=
  console_log LogFinishedSpeaking ;;
  _ <- setTimeout (CbSpeakEnd (ucallback u)) 500 ;;
  ret tt.

Definition utterance_onerror (u : Utterance) : M unit :=
  console_log LogSynthesisError ;;
  _ <- setTimeout (CbSpeakError (ucallback u)) 500 ;;
  ret tt.

Definition invoke (callback : option SpeakCallback) : M unit :=
  match callback with
  | Some ReadyAfterGreeting => console_log LogReadyAfterGreeting
  | None => ret tt
  end.

(** *** Conversation service (lines 334-388) *)

Definition sendMessage (msg : JSString) : M unit :=
  async (
    cid <- gets (fun s => conversationId (vars s)) ;;
    if is_empty msg || negb (truthy cid) then ret tt
    else
      addMessage (VStr msg) true ;;
      modify (upd_page (set_textInputValue [])) ;;
      fetch (ReqSend cid msg) KSend).

Definition sendMessage_resume (r : FetchResult) : M unit :=
  async (
    try_catch
      (p <- await_fetch r ;;
       data <- await_json (snd p) ;;
       resp <- field "response" data ;;
       addMessage resp false ;;
       tc <- field "turn_count" data ;;
       modify (upd_page (set_turnCountText tc)) ;;
       speak resp None)
      (fun e =>
         console_log (LogErrorSendMessage e) ;;
         _ <- setTimeout CbResumeSendError 1000 ;;
         ret tt)).

Definition endConversation : M unit :=
  async (
    stopTimer ;;
    stopListening ;;
    synth_cancel ;;
    showLoading (lit "Analyzing your conversation...") ;;
    cid <- gets (fun s => conversationId (vars s)) ;;
    fetch (ReqEnd cid) KEnd).

Definition endConversation_resume (r : FetchResult) : M unit :=
  async (
    try_catch
      (p <- await_fetch r ;;
       data <- await_json (snd p) ;;
       cleanupEverything ;;
       target <- field "redirect" data ;;
       navigate target)
      (fun e =>
         console_log (LogErrorEndConversation e) ;;
         hideLoading ;;
         alert (lit "Failed to end conversation. Please try again."))).

(** *** Timer (lines 255-264) *)

Definition startTimer : M unit :=
  h <- setInterval CbCountdown 1000 ;;
  modify (upd_vars (set_timerInterval (Some h))).

Definition countdown_tick : M unit :=
  modify (upd_vars (fun v => set_timeRemaining (timeRemaining v - 1) v)) ;;
  t <- gets (fun s => timeRemaining (vars s)) ;;
  when (t <=? 0)%Z endConversation.

(** *** Starting a conversation (lines 297-332) *)

Definition startConversation : M unit :=
  async (
    showLoading (lit "Starting conversation...") ;;
    fetch ReqStart KStart).

Definition startConversation_resume (r : FetchResult) : M unit :=
  async (
    try_catch
      (p <- await_fetch r ;;
       (if negb (fst p) then throw ErrorFailedToStart else ret tt) ;;
       data <- await_json (snd p) ;;
       cid <- field "conversation_id" data ;;
       modify (upd_vars (set_conversationId cid)) ;;
       modify (upd_page (set_chat [])) ;;
       hideLoading ;;
       showScreen ConversationScreen ;;
       greeting <- field "greeting" data ;;
       addMessage greeting false ;;
       speak greeting (Some ReadyAfterGreeting) ;;
       startTimer)
      (fun e =>
         console_log (LogErrorStartConversation e) ;;
         hideLoading ;;
         alert (lit "Failed to start conversation. Please try again."))).

(** *** End of utterance (lines 239-252) *)

Definition stopListeningAndSend : M unit :=
  f <- gets (fun s => finalTranscript (vars s)) ;;
  let messageToSend := trim f in
  stopListening ;;
  if negb (is_empty messageToSend) then
    console_log (LogSending messageToSend) ;;
    sendMessage messageToSend
  else
    console_log LogNoMessage ;;
    _ <- setTimeout CbResumeNoMessage 500 ;;
    ret tt.

(** *** Recognition handlers (lines 53-138) *)

(** The loop of [onresult] over [results[resultIndex ..]]. *)
Fixpoint accumulate (rs : list RecResult) (fin interim : JSString)
  : JSString * JSString :=
  match rs with
  | [] => (fin, interim)
  | r :: rest =>
      if isFinal r
      then accumulate rest (fin ++ (transcript r ++ lit " ")) interim
      else accumulate rest fin (interim ++ transcript r)
  end.

Definition recognition_onstart : M unit :=
  console_log LogRecognitionStarted ;;
  modify (upd_vars (set_isListening true)) ;;
  modify (upd_page (set_indicatorActive true)).

Definition recognition_onresult (event : ResultEvent) : M unit :=
  h <- gets (fun s => silenceTimer (vars s)) ;;
  clearTimeout h ;;
  modify (upd_vars (set_interimTranscript [])) ;;
  modify (upd_vars (fun v =>
    let fi := accumulate (skipn (resultIndex event) (results event))
                         (finalTranscript v) (interimTranscript v) in
    set_interimTranscript (snd fi) (set_finalTranscript (fst fi) v))) ;;
  i <- gets (fun s => interimTranscript (vars s)) ;;
  console_log (LogInterim i) ;;
  f <- gets (fun s => finalTranscript (vars s)) ;;
  console_log (LogFinalSoFar f) ;;
  h' <- setTimeout CbSilence 5000 ;;
  modify (upd_vars (set_silenceTimer (Some h'))).

Definition recognition_onerror (code : RecErrorCode) : M unit :=
  console_log (LogRecognitionError code) ;;
  match code with
  | NoSpeech => console_log LogNoSpeech
  | Aborted => ret tt
  | _ =>
      console_log LogAttemptingRestart ;;
      _ <- setTimeout CbErrorRestart 1000 ;;
      ret tt
  end.

Definition recognition_onend : M unit :=
  console_log LogRecognitionEnded ;;
  l <- gets (fun s => isListening (vars s)) ;;
  when l (
    console_log LogRestarting ;;
    _ <- setTimeout CbEndRestart 100 ;;
    ret tt).

Definition setupSpeechRecognition (supported : bool) : M unit :=
  if supported then
    modify (upd_vars (fun v =>
      {| conversationId := conversationId v; recognition := true;
         isListening := isListening v; timerInterval := timerInterval v;
         timeRemaining := timeRemaining v; silenceTimer := silenceTimer v;
         finalTranscript := finalTranscript v;
         interimTranscript := interimTranscript v |}))
  else
    alert (lit "Speech recognition not supported in this browser. Please use Chrome, Edge, or Safari.").

(** *** Timer closures *)

Definition run_callback (c : TimerCallback) : M unit :=
  match c with
  | CbSilence =>
      console_log LogSilenceDetected ;;
      stopListeningAndSend
  | CbErrorRestart | CbEndRestart =>
      l <- gets (fun s => isListening (vars s)) ;;
      when l startListening
  | CbSpeakEnd callback | CbSpeakError callback =>
      startListening ;;
      invoke callback
  | CbResumeNoMessage | CbResumeSendError =>
      startListening
  | CbCountdown =>
      countdown_tick
  end.

(** *** Buttons, keys and page lifecycle (lines 391-455) *)

Inductive Key := KeyEnter | KeyOther.

Definition sendBtn_onclick : M unit :=
  v <- gets (fun s => textInputValue (page s)) ;;
  let msg := trim v in
  when (negb (is_empty msg)) (
    stopListeningAndSend ;;
    modify (upd_page (set_textInputValue msg)) ;;
    sendMessage msg).

Definition restartBtn_onclick : M unit :=
  cleanupEverything ;;
  navigate (VStr (lit "/")).

Definition textInput_onkeypress (k : Key) : M unit :=
  match k with
  | KeyEnter =>
      v <- gets (fun s => textInputValue (page s)) ;;
      let msg := trim v in
      when (negb (is_empty msg)) (sendMessage msg)
  | KeyOther => ret tt
  end.

Definition on_beforeunload : M unit :=
  console_log LogPageUnloading ;;
  cleanupEverything.

Definition on_pagehide : M unit :=
  console_log LogPageHiding ;;
  cleanupEverything.

Definition on_visibilitychange (hidden : bool) : M unit :=
  if hidden then console_log LogPageHidden ;; synth_pause
  else console_log LogPageVisible ;; synth_resume.

(** *** Voice selection (lines 141-160) *)

(** A [SpeechSynthesisVoice], as far as the script reads it. *)
Record Voice := { vname : JSString; vlang : JSString }.

(** [a === b] on strings. *)
Fixpoint str_eqb (a b : JSString) : bool :=
  match a, b with
  | [], [] => true
  | x :: a', y :: b' => (x =? y)%N && str_eqb a' b'
  | _, _ => false
  end.

Fixpoint starts_with (s p : JSString) : bool :=
  match p, s with
  | [], _ => true
  | x :: p', y :: s' => (x =? y)%N && starts_with s' p'
  | _ :: _, [] => false
  end.

(** [s.includes(p)]. *)
Fixpoint includes (s p : JSString) : bool :=
  starts_with s p ||
  match s with
  | [] => false
  | _ :: rest => includes rest p
  end.

(** [a || b] where each side is an object or [undefined]. *)
Definition or_else {A} (a b : option A) : option A :=
  match a with Some _ => a | None => b end.

Notation "a 'orelse' b" := (or_else a b)
  (at level 85, right associativity, only parsing).

(** The two variables [loadVoices] assigns. *)
Record VoiceVars := { selectedVoice : option Voice; voicesReady : bool }.

(** [loadVoices()] on the list [speechSynthesis.getVoices()] returns.
    [toLowerCase] is the platform's [String.prototype.toLowerCase], a
    parameter: nothing below depends on what it does.  The log line of
    line 159 is left out. *)
Definition loadVoices (toLowerCase : JSString -> JSString)
    (voices : list Voice) : VoiceVars :=
  {| selectedVoice :=
       find (fun v => includes (vname v) (lit "Samantha")) voices orelse
       find (fun v => includes (vname v) (lit "Karen")) voices orelse
       find (fun v => includes (vname v) (lit "Victoria")) voices orelse
       find (fun v => includes (vname v) (lit "Joanna")) voices orelse
       find (fun v => includes (vname v) (lit "Salli")) voices orelse
       find (fun v => includes (vname v) (lit "Google US English Female")) voices orelse
       find (fun v => includes (vname v) (lit "Zira")) voices orelse
       find (fun v => includes (vname v) (lit "Microsoft Zira")) voices orelse
       find (fun v => includes (toLowerCase (vname v)) (lit "female")) voices orelse
       find (fun v => str_eqb (vlang v) (lit "en-US") &&
                      includes (toLowerCase (vname v)) (lit "woman")) voices orelse
       find (fun v => str_eqb (vlang v) (lit "en-US")) voices orelse
       hd_error voices;
     voicesReady := true |}.

(** *** The countdown display (lines 258-261) *)

(** [String(z)] for an integer [z]. *)
Definition number_to_string (z : Z) : JSString :=
  lit (NilZero.string_of_int (Z.to_int z)).

(** [s.padStart(targetLength, c)] for a filler of one character. *)
Definition padStart (targetLength : nat) (c : N) (s : JSString) : JSString :=
  repeat c (targetLength - List.length s) ++ s.

(** The text the countdown closure writes to [timerDisplay].  On integers
    [Math.floor(t / 60)] is the floor division of [Z] and [t % 60] its
    truncating remainder. *)
Definition timerDisplay_text (timeRemaining : Z) : JSString :=
  padStart 2 48 (number_to_string (timeRemaining / 60)) ++ lit ":" ++
  padStart 2 48 (number_to_string (Z.rem timeRemaining 60)).

(* ================================================================== *)
(** ** The event loop *)

Inductive Event :=
| RecOnStart
| RecOnResult (event : ResultEvent)
| RecOnError (code : RecErrorCode)
| RecOnEnd
| UtteranceEnd (u : nat)
| UtteranceError (u : nat)
| TimerFire (id : nat)
| FetchSettled (id : nat) (r : FetchResult)
| ClickStart
| ClickSend
| ClickEnd
| ClickRestart
| TextInput (value : JSString)       (* the user edits the text field *)
| KeyPress (k : Key)
| BeforeUnload
| PageHide
| VisibilityChange (hidden : bool).

Definition find_timer (id : nat) (s : State) : option Timer :=
  find (fun t => tid t =? id) (timers (clock s)).

Definition find_pending (id : nat) (s : State) : option Continuation :=
  option_map snd (find (fun p => fst p =? id) (pending (net s))).

Definition speaking_uid (s : State) : option nat :=
  option_map uid (hd_error (queue (synth s))).

Definition rec_is (st : RecState) (s : State) : bool :=
  match recState (recog s), st with
  | RecIdle, RecIdle | RecStarting, RecStarting
  | RecRunning, RecRunning | RecStopping, RecStopping => true
  | _, _ => false
  end.

(** What the platform can deliver in a state: recognition events only on a
    started recognition object, a completion only for the utterance being
    spoken, a timer or a fetch only while it is pending, and nothing once
    the page is gone. *)
Definition enabled (e : Event) (s : State) : bool :=
  negb (unloaded (page s)) &&
  match e with
  | RecOnStart => recognition (vars s) && rec_is RecStarting s
  | RecOnResult _ =>
      recognition (vars s) && (rec_is RecRunning s || rec_is RecStopping s)
  | RecOnError _ | RecOnEnd =>
      recognition (vars s) && negb (rec_is RecIdle s)
  | UtteranceEnd u | UtteranceError u =>
      match speaking_uid s with Some u' => u =? u' | None => false end
  | TimerFire id =>
      match find_timer id s with Some _ => true | None => false end
  | FetchSettled id _ =>
      match find_pending id s with Some _ => true | None => false end
  | _ => true
  end.

Definition set_recState (st : RecState) : State -> State :=
  upd_recog (fun r => {| recState := st; recCalls := recCalls r |}).

(** A timer comes due: a timeout leaves the queue, an interval is armed
    again, and the closure runs. *)
Definition fire (t : Timer) (s : State) : State :=
  let at_ := N.max (now (clock s)) (due t) in
  let rest :=
    match period t with
    | None => cancel_timer (tid t) (timers (clock s))
    | Some p =>
        map (fun x => if tid x =? tid t
                      then {| tid := tid x; due := at_ + p;
                              cb := cb x; period := period x |}
                      else x)
            (timers (clock s))
    end in
  final_state
    (run_callback (cb t)
       (upd_clock (fun k => {| now := at_; timers := rest;
                               nextTid := nextTid k |}) s)).

Definition resume (k : Continuation) (r : FetchResult) : M unit :=
  match k with
  | KStart => startConversation_resume r
  | KSend => sendMessage_resume r
  | KEnd => endConversation_resume r
  end.

Definition pop_utterance : State -> State :=
  upd_synth (fun y => set_queue (tl (queue y)) y).

(** The handler of an event, run after the platform's own transition: a
    start event means the engine is capturing; after an error event it
    captures no more and its end event is still to come; after the end
    event the object can be started again; a finished or failed utterance
    has left the synthesis queue; a settled fetch is no longer pending; and
    the document is gone after [pagehide]. *)
Definition handle (e : Event) (s : State) : State :=
  match e with
  | RecOnStart =>
      final_state (recognition_onstart (set_recState RecRunning s))
  | RecOnResult ev =>
      final_state (recognition_onresult ev s)
  | RecOnError code =>
      final_state (recognition_onerror code (set_recState RecStopping s))
  | RecOnEnd =>
      final_state (recognition_onend (set_recState RecIdle s))
  | UtteranceEnd _ =>
      match hd_error (queue (synth s)) with
      | Some u => final_state (utterance_onend u (pop_utterance s))
      | None => s
      end
  | UtteranceError _ =>
      match hd_error (queue (synth s)) with
      | Some u => final_state (utterance_onerror u (pop_utterance s))
      | None => s
      end
  | TimerFire id =>
      match find_timer id s with
      | Some t => fire t s
      | None => s
      end
  | FetchSettled id r =>
      match find_pending id s with
      | Some k =>
          final_state
            (resume k r
               (upd_net (fun n =>
                  set_pending (filter (fun p => negb (fst p =? id)) (pending n)) n) s))
      | None => s
      end
  | ClickStart => final_state (startConversation s)
  | ClickSend => final_state (sendBtn_onclick s)
  | ClickEnd => final_state (endConversation s)
  | ClickRestart => final_state (restartBtn_onclick s)
  | TextInput v => upd_page (set_textInputValue v) s
  | KeyPress k => final_state (textInput_onkeypress k s)
  | BeforeUnload => final_state (on_beforeunload s)
  | PageHide => upd_page (set_unloaded true) (final_state (on_pagehide s))
  | VisibilityChange h => final_state (on_visibilitychange h s)
  end.

(** Delivery of one event; an event the platform cannot deliver in [s]
    leaves [s] as it is. *)
Definition dispatch (e : Event) (s : State) : State :=
  if enabled e s then handle e s else s.

Definition run (es : list Event) (s : State) : State :=
  fold_left (fun acc e => dispatch e acc) es s.

(** *** Passing of time *)

Fixpoint earliest (ts : list Timer) : option Timer :=
  match ts with
  | [] => None
  | t :: rest =>
      match earliest rest with
      | Some u => if (due u <? due t)%N then Some u else Some t
      | None => Some t
      end
  end.

(** Let the clock run up to [target], firing the timers that come due in
    the order of their deadlines.  [fuel] bounds the number of firings. *)
Fixpoint advance_to (fuel : nat) (target : N) (s : State) : option State :=
  match earliest (timers (clock s)) with
  | None => Some (upd_clock (set_now (N.max (now (clock s)) target)) s)
  | Some t =>
      if (due t <=? target)%N then
        match fuel with
        | O => None
        | S fuel' => advance_to fuel' target (fire t s)
        end
      else Some (upd_clock (set_now (N.max (now (clock s)) target)) s)
  end.

Definition wait (fuel : nat) (dt : N) (s : State) : option State :=
  if unloaded (page s) then Some s
  else advance_to fuel (now (clock s) + dt) s.

(** *** The page after [DOMContentLoaded] *)

Definition fresh : State :=
  {| vars := {| conversationId := VNull; recognition := false;
                isListening := false; timerInterval := None;
                timeRemaining := 300; silenceTimer := None;
                finalTranscript := []; interimTranscript := [] |};
     recog := {| recState := RecIdle; recCalls := [] |};
     synth := {| queue := []; paused := false; nextUid := 0 |};
     clock := {| now := 0; timers := []; nextTid := 1 |};
     net := {| pending := []; nextReq := 0; requests := [] |};
     page := {| alerts := []; chat := []; loadingText := [];
                loadingActive := false; indicatorActive := false;
                textInputValue := []; turnCountText := VUndefined;
                activeScreen := WelcomeScreen; location := None;
                unloaded := false |};
     console := [] |}.

Definition loaded (supported : bool) : State :=
  final_state (setupSpeechRecognition supported fresh).

(** *** Timed traces *)

Inductive Step :=
| Deliver (e : Event)
| Elapse (dt : N).

(** Play a timed trace; [None] when an event of the trace is not
    deliverable where it stands, or [fuel] timer firings do not cover an
    [Elapse]. *)
Fixpoint play (fuel : nat) (steps : list Step) (s : State) : option State :=
  match steps with
  | [] => Some s
  | Deliver e :: rest =>
      if enabled e s then play fuel rest (handle e s) else None
  | Elapse dt :: rest =>
      match wait fuel dt s with
      | Some s' => play fuel rest s'
      | None => None
      end
  end.

(* ================================================================== *)
(** ** Specification vocabulary *)

(** A relation between the state before and the state after, kept by every
    step of a computation whether it returns or throws. *)
Definition keeps (R : State -> State -> Prop) {A} (m : M A) : Prop :=
  forall s, R s (final_state (m s)).

(** The outcome of a computation that cannot throw. *)
Definition returns {A} (m : M A) (s : State) : Prop :=
  exists a s', m s = Ok a s'.

(** *** The utterance buffer *)

Definition is_start (c : RecCall) : bool :=
  match c with CallStart => true | CallStop => false end.

(** Capture attempts so far: the calls of [recognition.start()]. *)
Definition attempts (s : State) : nat :=
  List.length (filter is_start (recCalls (recog s))).

(** Neither the buffer nor the number of capture attempts changes. *)
Definition same_buffer (s s' : State) : Prop :=
  finalTranscript (vars s') = finalTranscript (vars s) /\
  interimTranscript (vars s') = interimTranscript (vars s) /\
  attempts s' = attempts s.

(** Within an attempt the finalized text only grows; a new attempt starts
    from the empty buffer. *)
Definition buffer_step (s s' : State) : Prop :=
  (attempts s' = attempts s /\
   exists suffix,
     finalTranscript (vars s') = finalTranscript (vars s) ++ suffix) \/
  (attempts s' = S (attempts s) /\
   finalTranscript (vars s') = [] /\ interimTranscript (vars s') = []).

(** What one [onresult] event contributes: its final fragments, each
    followed by a space, and its interim fragments. *)
Definition finalized_delta (event : ResultEvent) : JSString :=
  List.concat (map (fun r => transcript r ++ lit " ")
              (filter isFinal (skipn (resultIndex event) (results event)))).

Definition pending_snapshot (event : ResultEvent) : JSString :=
  List.concat (map transcript
              (filter (fun r => negb (isFinal r))
                      (skipn (resultIndex event) (results event)))).

(** *** Scenario data *)

Definition start_reply (greeting : Value) : FetchResult :=
  Response true (JObject [("conversation_id"%string, VStr (lit "c1"));
                          ("greeting"%string, greeting)]).

Definition send_reply (response : Value) : FetchResult :=
  Response true (JObject [("response"%string, response);
                          ("turn_count"%string, VNum 1)]).

(** A session that has spoken its greeting and is capturing. *)
Definition session_listening : State :=
  run [ClickStart; FetchSettled 0 (start_reply (VStr (lit "Hi")));
       UtteranceEnd 0; TimerFire 2; RecOnStart]
      (loaded true).

(** *** End of utterance *)

(** The timer armed by [stopListeningAndSend] when the silence deadline [t]
    expires in [s] with nothing to send. *)
Definition resume_after_silence (t : Timer) (s : State) : Timer :=
  {| tid := nextTid (clock s);
     due := N.max (now (clock s)) (due t) + 500;
     cb := CbResumeNoMessage;
     period := None |}.

(** A progress event carrying one interim fragment and nothing final. *)
Definition interim_only : ResultEvent :=
  {| resultIndex := 0;
     results := [{| transcript := lit "uh"; isFinal := false |}] |}.

(** *** Speech output *)

(** The platform's report that utterance [u] is over: its [end] event, or
    its [error] event. *)
Definition completion (failed : bool) (u : nat) : Event :=
  if failed then UtteranceError u else UtteranceEnd u.

(** The closure the matching handler of [speak] arms 500 ms ahead. *)
Definition completion_timer (failed : bool) (callback : option SpeakCallback)
    (s : State) : Timer :=
  {| tid := nextTid (clock s);
     due := now (clock s) + 500;
     cb := if failed then CbSpeakError callback else CbSpeakEnd callback;
     period := None |}.

Definition is_ready_log (e : N * LogMsg) : bool :=
  match snd e with LogReadyAfterGreeting => true | _ => false end.

(** How often the completion callback of line 322 has run. *)
Definition notifications (s : State) : nat :=
  List.length (filter is_ready_log (console s)).

Definition expected_notifications (callback : option SpeakCallback) : nat :=
  match callback with Some _ => 1 | None => 0 end.

(** The service greets with the empty string. *)
Definition empty_greeting_session : State :=
  run [ClickStart; FetchSettled 0 (start_reply (VStr []))] (loaded true).

(** *** Conversation-service scenarios *)

(** A [fetch] that does not produce a reply object: the request is
    rejected, or the body is not JSON, or it is [null]. *)
Definition failed_result (r : FetchResult) : Prop :=
  r = NetworkFailure \/ (exists ok, r = Response ok JInvalid) \/
  (exists ok, r = Response ok JNull).

Definition failure_exn (r : FetchResult) : Exn :=
  match r with
  | NetworkFailure => FetchRejected
  | Response _ JNull => TypeError
  | Response _ _ => SyntaxError
  end.

(** One final fragment, "Hello". *)
Definition hello_final : ResultEvent :=
  {| resultIndex := 0;
     results := [{| transcript := lit "Hello"; isFinal := true |}] |}.

(** The user says "Hello", five seconds pass, the engine reports its end,
    and the request for the reply is rejected. *)
Definition send_rejected_trace : list Step :=
  [Deliver (RecOnResult hello_final); Elapse 5000; Deliver RecOnEnd;
   Deliver (FetchSettled 1 NetworkFailure)].

(** The user types "hi" and clicks send while nothing was spoken; the reply
    arrives 200 ms later and is being spoken when, 500 ms after the click,
    the resume timer of [stopListeningAndSend] starts capture again. *)
Definition overlap_trace : list Step :=
  [Deliver ClickStart; Elapse 100;
   Deliver (FetchSettled 0 (start_reply (VStr (lit "Hi")))); Elapse 1000;
   Deliver (UtteranceEnd 0); Elapse 500;
   Deliver RecOnStart; Elapse 2000;
   Deliver (TextInput (lit "hi")); Deliver ClickSend; Elapse 50;
   Deliver RecOnEnd; Elapse 150;
   Deliver (FetchSettled 1 (send_reply (VStr (lit "Hello")))); Elapse 300;
   Deliver RecOnStart].

(** A second session reply. *)
Definition second_start_reply : FetchResult :=
  Response true (JObject [("conversation_id"%string, VStr (lit "c2"));
                          ("greeting"%string, VStr (lit "Hi again"))]).

Definition is_end_request (r : Request) : bool :=
  match r with ReqEnd _ => true | _ => false end.

Definition is_start_request (r : Request) : bool :=
  match r with ReqStart => true | _ => false end.

(** Calls of [closeSession] and of [createSession] issued so far. *)
Definition close_calls (s : State) : nat :=
  List.length (filter is_end_request (requests (net s))).

Definition create_calls (s : State) : nat :=
  List.length (filter is_start_request (requests (net s))).

(** *** The silence deadline *)

Definition is_silence (t : Timer) : bool :=
  match cb t with CbSilence => true | _ => false end.

(** The silence deadlines that can still fire. *)
Definition silence_pending (s : State) : list Timer :=
  filter is_silence (timers (clock s)).

Definition is_silence_log (e : N * LogMsg) : bool :=
  match snd e with LogSilenceDetected => true | _ => false end.

(** The runs of the expiry closure so far, each with the time it ran at. *)
Definition expiries (s : State) : list (N * LogMsg) :=
  filter is_silence_log (console s).

(** The deadline a progress event arms in [s]. *)
Definition armed (s : State) : Timer :=
  {| tid := nextTid (clock s); due := now (clock s) + 5000;
     cb := CbSilence; period := None |}.

(** The timeout cleared by [clearTimeout(h)]. *)
Definition clear_handle (h : option nat) (ts : list Timer) : list Timer :=
  match h with Some id => cancel_timer id ts | None => ts end.

(** Shape of the timer queue: handles are unique and below the next one to
    be handed out, the only interval is the session countdown, and a
    pending silence deadline is the one [silenceTimer] holds. *)
Definition handle_ok (held : option nat) (next : nat) (t : Timer) : Prop :=
  tid t < next /\
  (period t = None \/ (period t = Some 1000%N /\ cb t = CbCountdown)) /\
  (is_silence t = true -> held = Some (tid t)).

Definition queue_ok (held : option nat) (next : nat) (ts : list Timer) : Prop :=
  NoDup (map tid ts) /\ Forall (handle_ok held next) ts.

Definition timer_ok (s : State) : Timer -> Prop :=
  handle_ok (silenceTimer (vars s)) (nextTid (clock s)).

Definition deadline_inv (s : State) : Prop :=
  queue_ok (silenceTimer (vars s)) (nextTid (clock s)) (timers (clock s)).

(** No silence deadline is due by [target]. *)
Definition none_due (target : N) (s : State) : Prop :=
  forall x, In x (silence_pending s) -> (target < due x)%N.

(** An upper bound on how often timer [t] fires up to time [target],
    counting for a silence deadline the resume timer it may arm. *)
Definition weight (target : N) (t : Timer) : nat :=
  match period t with
  | None => if is_silence t then 2 else 1
  | Some p =>
      if (due t <=? target)%N
      then S (N.to_nat ((target - due t) / p))
      else 0
  end.

Definition firings_bound (target : N) (s : State) : nat :=
  list_sum (map (weight target) (timers (clock s))).

(** Progress events, each delivered [gap] ms after the one before. *)
Fixpoint progress (fuel : nat) (events : list (N * ResultEvent)) (s : State)
  : option State :=
  match events with
  | [] => Some s
  | (gap, event) :: rest =>
      match advance_to fuel (now (clock s) + gap) s with
      | Some s' => progress fuel rest (handle (RecOnResult event) s')
      | None => None
      end
  end.

(** The timer queue right after [t] has come due, before its closure
    runs. *)
Definition after_due (t : Timer) (s : State) : list Timer :=
  match period t with
  | None => cancel_timer (tid t) (timers (clock s))
  | Some p =>
      map (fun x => if tid x =? tid t
                    then {| tid := tid x;
                            due := N.max (now (clock s)) (due t) + p;
                            cb := cb x; period := period x |}
                    else x)
          (timers (clock s))
  end.

(** [l'] is [l] with some timers cancelled. *)
Definition thins (l l' : list Timer) : Prop :=
  exists g, l' = filter g l.

(** Time covered by a sequence of progress events. *)
Definition elapsed (events : list (N * ResultEvent)) : N :=
  fold_right N.add 0%N (map fst events).

(** Two more progress events, 1000 ms and 2500 ms after the one before. *)
Definition two_progress_events : list (N * ResultEvent) :=
  [(1000%N, interim_only); (2500%N, hello_final)].

(** *** Voice preferences *)

(** The clauses of [loadVoices] in the order they are tried. *)
Definition preferences (toLowerCase : JSString -> JSString)
  : list (Voice -> bool) :=
  [ fun v => includes (vname v) (lit "Samantha");
    fun v => includes (vname v) (lit "Karen");
    fun v => includes (vname v) (lit "Victoria");
    fun v => includes (vname v) (lit "Joanna");
    fun v => includes (vname v) (lit "Salli");
    fun v => includes (vname v) (lit "Google US English Female");
    fun v => includes (vname v) (lit "Zira");
    fun v => includes (vname v) (lit "Microsoft Zira");
    fun v => includes (toLowerCase (vname v)) (lit "female");
    fun v => str_eqb (vlang v) (lit "en-US") &&
             includes (toLowerCase (vname v)) (lit "woman");
    fun v => str_eqb (vlang v) (lit "en-US") ].

(** The first clause a voice satisfies, counted from 0; the number of
    clauses when it satisfies none. *)
Fixpoint rank (ps : list (Voice -> bool)) (v : Voice) : nat :=
  match ps with
  | [] => 0
  | p :: rest => if p v then 0 else S (rank rest v)
  end.

Definition first_found (ps : list (Voice -> bool)) (voices : list Voice)
  : option Voice :=
  fold_right (fun p acc => or_else (find p voices) acc) None ps.

(** [loadVoices] with the clause of line 152 deleted. *)
Definition loadVoices_without_line_152 (toLowerCase : JSString -> JSString)
    (voices : list Voice) : VoiceVars :=
  {| selectedVoice :=
       find (fun v => includes (vname v) (lit "Samantha")) voices orelse
       find (fun v => includes (vname v) (lit "Karen")) voices orelse
       find (fun v => includes (vname v) (lit "Victoria")) voices orelse
       find (fun v => includes (vname v) (lit "Joanna")) voices orelse
       find (fun v => includes (vname v) (lit "Salli")) voices orelse
       find (fun v => includes (vname v) (lit "Google US English Female")) voices orelse
       find (fun v => includes (vname v) (lit "Zira")) voices orelse
       find (fun v => includes (toLowerCase (vname v)) (lit "female")) voices orelse
       find (fun v => str_eqb (vlang v) (lit "en-US") &&
                      includes (toLowerCase (vname v)) (lit "woman")) voices orelse
       find (fun v => str_eqb (vlang v) (lit "en-US")) voices orelse
       hd_error voices;
     voicesReady := true |}.

(** Lower-casing of the letters A-Z, enough for the voice names of the
    examples. *)
Definition ascii_lower (s : JSString) : JSString :=
  map (fun c => if (65 <=? c) && (c <=? 90) then c + 32 else c)%N s.

(** Three installed voices: a British one, then two US ones. *)
Definition installed_voices : list Voice :=
  [ {| vname := lit "Daniel"; vlang := lit "en-GB" |};
    {| vname := lit "Alex"; vlang := lit "en-US" |};
    {| vname := lit "Microsoft Zira Desktop"; vlang := lit "en-US" |} ].

(** *** The countdown display *)

Definition digit (d : Z) : N := Z.to_N (48 + d).

Definition digit_value (c : N) : option Z :=
  if ((48 <=? c) && (c <=? 57))%N then Some (Z.of_N c - 48)%Z else None.

(** Minutes and seconds as two digits each. *)
Definition clock_text (t : Z) : JSString :=
  [digit (t / 600); digit ((t / 60) mod 10); 58%N;
   digit ((t mod 60) / 10); digit (t mod 10)].

(** The seconds a text of the form MM:SS stands for. *)
Definition clock_seconds (s : JSString) : option Z :=
  match s with
  | [a; b; colon; c; d] =>
      match digit_value a, digit_value b, digit_value c, digit_value d with
      | Some a, Some b, Some c, Some d =>
          if (colon =? 58)%N then Some ((10 * a + b) * 60 + (10 * c + d))%Z
          else None
      | _, _, _, _ => None
      end
  | _ => None
  end.

(** *** Typed messages *)

Definition is_enter (k : Key) : bool :=
  match k with KeyEnter => true | KeyOther => false end.

(** The timer [stopListeningAndSend] arms in [s] when there is nothing to
    send. *)
Definition resume_timer (s : State) : Timer :=
  {| tid := nextTid (clock s); due := now (clock s) + 500;
     cb := CbResumeNoMessage; period := None |}.

(** *** Replies of the conversation service *)

(** The replies that take [startConversation] to its catch block: a
    rejected request, a status outside 200-299, a body that is not JSON or
    is [null]. *)
Definition start_fails (r : FetchResult) : bool :=
  match r with
  | NetworkFailure => true
  | Response ok body =>
      negb ok || match body with JObject _ => false | _ => true end
  end.

Definition start_exn (r : FetchResult) : Exn :=
  match r with
  | NetworkFailure => FetchRejected
  | Response false _ => ErrorFailedToStart
  | Response true JNull => TypeError
  | Response true _ => SyntaxError
  end.

Definition reply_field (k : string) (r : FetchResult) : Value :=
  match r with
  | Response _ (JObject fields) => lookup k fields
  | _ => VUndefined
  end.

(** The interval [startTimer] arms in [s]. *)
Definition countdown_timer (s : State) : Timer :=
  {| tid := nextTid (clock s); due := now (clock s) + 1000;
     cb := CbCountdown; period := Some 1000%N |}.

(** A start reply that names no conversation. *)
Definition anonymous_start_reply : FetchResult :=
  Response true (JObject [("greeting"%string, VStr (lit "Hi"))]).

(** A reply to a message that carries no text. *)
Definition empty_send_reply : list (string * Value) :=
  [("turn_count"%string, VNum 2)].

(** *** Leaving and ending *)

(** The events whose handler is [cleanupEverything] and nothing else that
    touches the session. *)
Definition tears_down (e : Event) : bool :=
  match e with
  | ClickRestart | BeforeUnload | PageHide => true
  | _ => false
  end.

(** The events that stop the session and leave the page in place. *)
Definition stops_session (e : Event) : bool :=
  match e with
  | ClickEnd | ClickRestart | BeforeUnload => true
  | _ => false
  end.

(** The closures that call [startListening] unconditionally. *)
Definition resumes_capture (c : TimerCallback) : bool :=
  match c with
  | CbSpeakEnd _ | CbSpeakError _ | CbResumeNoMessage | CbResumeSendError => true
  | _ => false
  end.

(** *** Reachable states *)

(** The states the page can be in: the loaded page, and from there any
    event the platform delivers and any stretch of time. *)
Inductive reachable (supported : bool) : State -> Prop :=
| reach_loaded : reachable supported (loaded supported)
| reach_event (e : Event) (s : State) :
    reachable supported s -> reachable supported (dispatch e s)
| reach_time (fuel : nat) (target : N) (s s' : State) :
    reachable supported s -> advance_to fuel target s = Some s' ->
    reachable supported s'.

(** At most one utterance is in the synthesis queue. *)
Definition one_voice (s : State) : Prop := List.length (queue (synth s)) <= 1.

(** The page of a browser without speech recognition. *)
Definition text_only (s : State) : Prop :=
  recognition (vars s) = false /\ recCalls (recog s) = [] /\
  recState (recog s) = RecIdle /\ isListening (vars s) = false /\
  indicatorActive (page s) = false /\ silenceTimer (vars s) = None.

(** The handles the script keeps: each is one the platform has handed
    out, and a pending timer it designates is of the kind the variable is
    for. *)
Definition below (next : nat) (h : option nat) : Prop :=
  match h with Some x => x < next | None => True end.

Definition held_ok (silence countdown : option nat) (t : Timer) : Prop :=
  (silence = Some (tid t) -> cb t = CbSilence) /\
  (countdown = Some (tid t) -> cb t = CbCountdown).

Definition handles_ok (silence countdown : option nat) (next : nat)
    (ts : list Timer) : Prop :=
  below next silence /\ below next countdown /\
  Forall (fun t => tid t < next /\ held_ok silence countdown t) ts.

Definition handles_inv (s : State) : Prop :=
  handles_ok (silenceTimer (vars s)) (timerInterval (vars s))
             (nextTid (clock s)) (timers (clock s)).

(** What a send request carries. *)
Definition well_formed_request (r : Request) : Prop :=
  match r with
  | ReqSend id message =>
      truthy id = true /\ message <> [] /\ trim message = message
  | _ => True
  end.

Definition requests_inv (s : State) : Prop :=
  Forall well_formed_request (requests (net s)).

(** The reply to [startConversation]'s request arrives. *)
Definition is_start_reply (e : Event) (s : State) : bool :=
  match e with
  | FetchSettled id _ =>
      match find_pending id s with Some KStart => true | _ => false end
  | _ => false
  end.

(** *** Scenarios *)

(** A session whose greeting has been spoken, 500 ms before capture
    resumes. *)
Definition session_greeted : State :=
  run [ClickStart; FetchSettled 0 (start_reply (VStr (lit "Hi")));
       UtteranceEnd 0]
      (loaded true).

(** The start button has been clicked again while the first session
    runs. *)
Definition session_started_twice : State :=
  run [ClickStart; FetchSettled 0 (start_reply (VStr (lit "Hi")));
       ClickStart]
      (loaded true).

(** *** The end of the session *)

(** What [cleanupEverything] leaves of [s]. *)
Definition torn_down (s s' : State) : Prop :=
  queue (synth s') = [] /\
  timers (clock s') =
    clear_handle (timerInterval (vars s))
      (clear_handle (silenceTimer (vars s)) (timers (clock s))) /\
  (recognition (vars s) = true -> isListening (vars s') = false) /\
  net s' = net s.

Definition end_failed : JSString :=
  lit "Failed to end conversation. Please try again.".

(** *** The countdown on schedule *)

(** [t] is the countdown of the session, and the only one pending. *)
Definition sole_countdown (t : Timer) (s : State) : Prop :=
  In t (timers (clock s)) /\ cb t = CbCountdown /\
  period t = Some 1000%N /\
  timerInterval (vars s) = Some (tid t) /\
  (forall x, In x (timers (clock s)) -> cb x = CbCountdown -> x = t).

(** The session is running and will run out at time [T]: the countdown is
    due once a second from its next deadline on, and the last of the ticks
    that are left falls on [T]. *)
Definition counting (T : N) (closed : nat) (s : State) : Prop :=
  deadline_inv s /\ handles_inv s /\ close_calls s = closed /\
  exists t, sole_countdown t s /\
    (0 < timeRemaining (vars s))%Z /\
    (now (clock s) <= due t)%N /\
    (Z.of_N (due t) + 1000 * (timeRemaining (vars s) - 1) = Z.of_N T)%Z.

(** The countdown has run out, at [T], and has ended the session. *)
Definition ended_by_countdown (T : N) (closed : nat) (s : State) : Prop :=
  deadline_inv s /\
  timeRemaining (vars s) = 0%Z /\ close_calls s = S closed /\
  (forall x, In x (timers (clock s)) -> cb x <> CbCountdown) /\
  (T <= now (clock s))%N.

(** The events of the dialogue itself: everything but the end and restart
    buttons, leaving the page, the replies to a start or an end request,
    and timers (which fire as time passes). *)
Definition keeps_countdown (e : Event) (s : State) : bool :=
  match e with
  | ClickEnd | ClickRestart | BeforeUnload | PageHide | TimerFire _ => false
  | FetchSettled id _ =>
      match find_pending id s with Some KSend => true | _ => false end
  | _ => true
  end.

(** [s'] comes after [s] by events of the dialogue and the passing of
    time. *)
Inductive dialogue : State -> State -> Prop :=
| dialogue_refl (s : State) : dialogue s s
| dialogue_event (e : Event) (s s' : State) :
    dialogue s s' -> keeps_countdown e s' = true ->
    dialogue s (dispatch e s')
| dialogue_time (fuel : nat) (target : N) (s s' s'' : State) :
    dialogue s s' -> advance_to fuel target s' = Some s'' ->
    dialogue s s''.

(** *** One turn of the dialogue *)

(** The identifiers of the pending requests are ones the page has used
    already. *)
Definition pending_fresh (s : State) : Prop :=
  Forall (fun p => fst p < nextReq (net s)) (pending (net s)).

(** *** Waiting in vain *)

(** The page takes itself to be listening and no silence deadline is
    pending; [a] capture attempts have been made and the engine is in
    state [st]. *)
Definition waiting_in_vain (a : nat) (st : RecState) (s : State) : Prop :=
  recognition (vars s) = true /\ isListening (vars s) = true /\
  silence_pending s = [] /\ attempts s = a /\ recState (recog s) = st.

(** *** Capture that is not resumed *)

(** A timer whose closure neither calls [startListening] unguarded nor is
    a silence deadline. *)
Definition calm (x : Timer) : Prop :=
  resumes_capture (cb x) = false /\ is_silence x = false.

(** Capture is off after [a] attempts, and no pending timer will start
    it. *)
Definition capture_off (a : nat) (s : State) : Prop :=
  isListening (vars s) = false /\ attempts s = a /\
  Forall calm (timers (clock s)).

(** Something is heard but nothing final, five seconds of silence follow,
    and the 500 ms timer of line 250 comes due before the engine has
    reported its end; a minute passes. *)
Definition late_end_trace : list Step :=
  [Deliver (RecOnResult interim_only); Elapse 5000; Elapse 500;
   Deliver RecOnEnd; Elapse 60000].

(** The user says "Hello" and falls silent; the reply arrives 200 ms after
    the message was sent and fails to be spoken; the completion timer
    comes due before the engine has reported its end; a minute passes. *)
Definition speech_error_trace : list Step :=
  [Deliver (RecOnResult hello_final); Elapse 5000; Elapse 200;
   Deliver (FetchSettled 1 (send_reply (VStr (lit "Hello"))));
   Deliver (UtteranceError 1); Elapse 500; Deliver RecOnEnd; Elapse 60000].

(** *** A turn on the clock *)

(** [s] with the countdown at [tr], the clock at [n] and the timers
    [ts]: what the passing of time changes while only calm timers fire. *)
Definition retime (tr : Z) (n : N) (ts : list Timer) (s : State) : State :=
  upd_clock (fun k => {| now := n; timers := ts; nextTid := nextTid k |})
            (upd_vars (set_timeRemaining tr) s).

(** The countdown has more than [k] seconds to spare over every timer
    firing possible up to time [H]: it does not run out by then. *)
Definition budget (k : Z) (H : N) (s : State) : Prop :=
  (Z.of_nat (firings_bound H s) + k < timeRemaining (vars s))%Z.

(** A calm timer, or the timer [T]. *)
Definition calm_but (T : Timer) (x : Timer) : Prop := calm x \/ tid x = tid T.

(** What follows once the user has been heard in [s]: five seconds of
    silence; the engine reports its end [d_end] ms later; the reply
    arrives [d_reply] ms after that and is spoken for [d_speech] ms; half a
    second after its end the completion timer comes due, and [d_start] ms
    later the engine reports its start. *)
Definition heard_trace (reply : FetchResult)
    (d_end d_reply d_speech d_start : N) (s : State) : list Step :=
  [Elapse 5000;
   Elapse d_end; Deliver RecOnEnd;
   Elapse d_reply; Deliver (FetchSettled (nextReq (net s)) reply);
   Elapse d_speech; Deliver (UtteranceEnd (nextUid (synth s)));
   Elapse 500;
   Elapse d_start; Deliver RecOnStart].

(** One turn, from [s]: the user is heard, and the rest follows. *)
Definition turn_trace (event : ResultEvent) (reply : FetchResult)
    (d_end d_reply d_speech d_start : N) (s : State) : list Step :=
  Deliver (RecOnResult event) ::
  heard_trace reply d_end d_reply d_speech d_start s.

(** *** Alerts *)

(** The reply to a start or an end request arrives. *)
Definition is_service_reply (e : Event) (s : State) : bool :=
  match e with
  | FetchSettled id _ =>
      match find_pending id s with
      | Some KStart | Some KEnd => true
      | _ => false
      end
  | _ => false
  end.

(* ================================================================== *)
(** * Properties *)

(* ================================================================== *)
(** ** Reasoning about script computations *)

Section Frame.

Variable R : State -> State -> Prop.
Hypothesis R_refl : forall s, R s s.
Hypothesis R_trans : forall a b c, R a b -> R b c -> R a c.

Lemma keeps_ret {A} (a : A) : keeps R (ret a).
Proof. intro s; apply R_refl. Qed.

Lemma keeps_throw {A} (e : Exn) : keeps R (@throw A e).
Proof. intro s; apply R_refl. Qed.

Lemma keeps_gets {A} (f : State -> A) : keeps R (gets f).
Proof. intro s; apply R_refl. Qed.

Lemma keeps_modify (f : State -> State) :
  (forall s, R s (f s)) -> keeps R (modify f).
Proof. intros H s; apply H. Qed.

Lemma keeps_bind {A B} (m : M A) (k : A -> M B) :
  keeps R m -> (forall a, keeps R (k a)) -> keeps R (bind m k).
Proof.
  intros Hm Hk s. unfold bind.
  specialize (Hm s). destruct (m s) as [a s'|e s']; simpl in *.
  - eapply R_trans; [exact Hm | apply Hk].
  - exact Hm.
Qed.

Lemma keeps_try_catch (body : M unit) (handler : Exn -> M unit) :
  keeps R body -> (forall e, keeps R (handler e)) -> keeps R (try_catch body handler).
Proof.
  intros Hb Hh s. unfold try_catch.
  specialize (Hb s). destruct (body s) as [a s'|e s']; simpl in *.
  - exact Hb.
  - eapply R_trans; [exact Hb | apply Hh].
Qed.

Lemma keeps_async (body : M unit) : keeps R body -> keeps R (async body).
Proof. intros Hb s. apply Hb. Qed.

Lemma keeps_when (b : bool) (m : M unit) : keeps R m -> keeps R (when b m).
Proof. intros Hm. destruct b; simpl; [exact Hm | apply keeps_ret]. Qed.

End Frame.

(** Decompose a goal [keeps R m] along the structure of [m]; what is left
    are the primitive steps. *)
Ltac frame_step Hr Ht :=
  match goal with
  | |- keeps _ (ret _) => apply keeps_ret; exact Hr
  | |- keeps _ (throw _) => apply keeps_throw; exact Hr
  | |- keeps _ (gets _) => apply keeps_gets; exact Hr
  | |- keeps _ (bind _ _) => apply keeps_bind; [ exact Ht | | intro ]
  | |- keeps _ (try_catch _ _) => apply keeps_try_catch; [ exact Ht | | intro ]
  | |- keeps _ (async _) => apply keeps_async
  | |- keeps _ (when _ _) => apply keeps_when; [ exact Hr | ]
  | |- keeps _ (if ?b then _ else _) => destruct b
  | |- keeps _ (match ?x with _ => _ end) => destruct x
  end.

(** Open a state into its fields, so that the script computes on it. *)
Ltac destruct_state s :=
  destruct s as [[v_cid v_rec v_lis v_ti v_tr v_st v_ft v_it]
                 [r_st r_calls] [y_q y_p y_n] [k_now k_ts k_nt]
                 [n_pe n_nr n_rq]
                 [p_al p_chat p_lt p_la p_ind p_txt p_tc p_scr p_loc p_unl]
                 con].

(** Turn a local definition into an equation, to be computed once. *)
Ltac freeze x :=
  let E := fresh "E" x in
  let v := eval unfold x in x in
  assert (E : x = v) by reflexivity; clearbody x.

(** Symbolic execution: unfold the script and the record plumbing, and
    nothing of the data (lists, numbers, strings stay as they are). *)
Tactic Notation "exec_core" "in" hyp(H) :=
  cbv beta iota zeta delta
        [ conversationId recognition isListening timerInterval timeRemaining
          silenceTimer finalTranscript interimTranscript
          recState recCalls queue paused nextUid now timers nextTid
          pending nextReq requests
          alerts chat loadingText loadingActive indicatorActive
          textInputValue turnCountText activeScreen location unloaded
          vars recog synth clock net page console
          tid due cb period uid utext ucallback
          set_conversationId set_isListening set_timerInterval
          set_timeRemaining set_silenceTimer set_finalTranscript
          set_interimTranscript set_timers set_now set_queue set_paused
          set_pending set_alerts set_chat set_loading set_indicatorActive
          set_textInputValue set_turnCountText set_activeScreen set_location
          set_unloaded
          upd_vars upd_recog upd_synth upd_clock upd_net upd_page upd_console
          ret bind throw try_catch gets modify when final_state async
          console_log rec_start rec_stop synth_speaking synth_cancel
          synth_speak synth_pause synth_resume schedule setTimeout
          setInterval clearTimeout clearInterval fetch await_fetch await_json
          field alert navigate showScreen showLoading hideLoading addMessage
          stopTimer startListening stopListening cleanupEverything speak
          utterance_onend utterance_onerror invoke sendMessage
          sendMessage_resume endConversation endConversation_resume
          startTimer countdown_tick startConversation
          startConversation_resume stopListeningAndSend recognition_onstart
          recognition_onresult recognition_onerror recognition_onend
          run_callback sendBtn_onclick restartBtn_onclick
          textInput_onkeypress on_beforeunload on_pagehide
          on_visibilitychange find_timer find_pending speaking_uid rec_is
          enabled set_recState fire resume pop_utterance handle dispatch
          fst snd negb orb andb option_map hd_error tl ] in H.

Tactic Notation "exec_core" :=
  cbv beta iota zeta delta
        [ conversationId recognition isListening timerInterval timeRemaining
          silenceTimer finalTranscript interimTranscript
          recState recCalls queue paused nextUid now timers nextTid
          pending nextReq requests
          alerts chat loadingText loadingActive indicatorActive
          textInputValue turnCountText activeScreen location unloaded
          vars recog synth clock net page console
          tid due cb period uid utext ucallback
          set_conversationId set_isListening set_timerInterval
          set_timeRemaining set_silenceTimer set_finalTranscript
          set_interimTranscript set_timers set_now set_queue set_paused
          set_pending set_alerts set_chat set_loading set_indicatorActive
          set_textInputValue set_turnCountText set_activeScreen set_location
          set_unloaded
          upd_vars upd_recog upd_synth upd_clock upd_net upd_page upd_console
          ret bind throw try_catch gets modify when final_state async
          console_log rec_start rec_stop synth_speaking synth_cancel
          synth_speak synth_pause synth_resume schedule setTimeout
          setInterval clearTimeout clearInterval fetch await_fetch await_json
          field alert navigate showScreen showLoading hideLoading addMessage
          stopTimer startListening stopListening cleanupEverything speak
          utterance_onend utterance_onerror invoke sendMessage
          sendMessage_resume endConversation endConversation_resume
          startTimer countdown_tick startConversation
          startConversation_resume stopListeningAndSend recognition_onstart
          recognition_onresult recognition_onerror recognition_onend
          run_callback sendBtn_onclick restartBtn_onclick
          textInput_onkeypress on_beforeunload on_pagehide
          on_visibilitychange find_timer find_pending speaking_uid rec_is
          enabled set_recState fire resume pop_utterance handle dispatch
          fst snd negb orb andb option_map hd_error tl ].

Tactic Notation "exec" "in" hyp(H) :=
  exec_core in H;
  repeat (progress rewrite ?app_nil_l, ?Nat.eqb_refl in H; exec_core in H).

Tactic Notation "exec" :=
  exec_core;
  repeat (progress rewrite ?app_nil_l, ?Nat.eqb_refl; exec_core).

(* ================================================================== *)
(** ** Capture start is safe to call (lines 208-218) *)

Lemma startListening_guard (s : State) :
  recognition (vars s) = false \/ isListening (vars s) = true ->
  startListening s = Ok tt s.
Proof.
  intros H. unfold startListening, bind, gets.
  destruct H as [H|H]; rewrite H; simpl.
  - reflexivity.
  - rewrite orb_true_r. reflexivity.
Qed.

Lemma startListening_returns (s : State) : returns startListening s.
Proof.
  unfold returns, startListening, bind, gets, try_catch, modify, rec_start.
  destruct (negb (recognition (vars s)) || isListening (vars s)).
  - eexists; eexists; reflexivity.
  - simpl. destruct (recState (recog s)); simpl; eexists; eexists; reflexivity.
Qed.

(** The two restart closures of [onerror] and [onend] re-check
    [isListening] and then call [startListening], whose own guard returns
    on that very flag: they leave the state as it is. *)
Lemma restart_closure_inert (c : TimerCallback) (s : State) :
  c = CbErrorRestart \/ c = CbEndRestart ->
  run_callback c s = Ok tt s.
Proof.
  intros [-> | ->]; simpl; unfold bind, gets, when;
    destruct (isListening (vars s)) eqn:E; try reflexivity;
    apply startListening_guard; right; exact E.
Qed.

(** C10.  [startListening] always returns normally.  It leaves the state
    untouched when no recognition object exists or [isListening] is set;
    when the engine's [start()] throws (the object is already started) the
    exception is caught and logged; and the restart closures of [onend]
    (100 ms) and [onerror] (1000 ms), run in either order, return normally
    as well. *)
Theorem startListening_never_throws (s : State) :
  returns startListening s /\
  (recognition (vars s) = false \/ isListening (vars s) = true ->
   startListening s = Ok tt s) /\
  (recognition (vars s) = true -> isListening (vars s) = false ->
   recState (recog s) <> RecIdle ->
   exists s', startListening s = Ok tt s' /\
     recState (recog s') = recState (recog s) /\
     console s' = console s ++ [(now (clock s), LogErrorStarting InvalidStateError)]) /\
  returns (startListening ;; startListening) s /\
  (run_callback CbEndRestart ;; run_callback CbErrorRestart) s = Ok tt s /\
  (run_callback CbErrorRestart ;; run_callback CbEndRestart) s = Ok tt s.
Proof.
  split; [apply startListening_returns|].
  split; [apply startListening_guard|].
  split.
  - intros Hr Hl Hst.
    unfold startListening, bind, gets, try_catch, modify, rec_start.
    rewrite Hr, Hl. simpl.
    destruct (recState (recog s)) eqn:E; [congruence| | |];
      eexists; (split; [reflexivity|]); simpl; split; reflexivity.
  - split.
    + unfold returns, bind.
      destruct (startListening_returns s) as ([] & s1 & ->).
      destruct (startListening_returns s1) as ([] & s2 & ->).
      eexists; eexists; reflexivity.
    + split; unfold bind; rewrite !restart_closure_inert; auto.
Qed.

Lemma startListening_never_throws_witness :
  startListening (loaded false) = Ok tt (loaded false) /\
  exists s', startListening (set_recState RecStarting (loaded true)) = Ok tt s' /\
     recState (recog s') = RecStarting /\
     console s' = [(0%N, LogErrorStarting InvalidStateError)].
Proof.
  split.
  - apply (proj1 (proj2 (startListening_never_throws (loaded false)))).
    left; reflexivity.
  - apply (proj1 (proj2 (proj2
      (startListening_never_throws (set_recState RecStarting (loaded true)))))).
    + reflexivity.
    + reflexivity.
    + simpl. discriminate.
Defined.

(* ================================================================== *)
(** ** The delayed restart after a recognition error (lines 101-119) *)

Lemma fire_restart_closure (t : Timer) (s : State) :
  cb t = CbErrorRestart \/ cb t = CbEndRestart ->
  period t = None ->
  fire t s =
  upd_clock (fun k => {| now := N.max (now k) (due t);
                         timers := cancel_timer (tid t) (timers k);
                         nextTid := nextTid k |}) s.
Proof.
  intros Hc Hp. unfold fire. rewrite Hp.
  rewrite restart_closure_inert by exact Hc. reflexivity.
Qed.

Lemma stopListening_clears_flag (s : State) :
  recognition (vars s) = true ->
  isListening (vars (final_state (stopListening s))) = false.
Proof.
  intros Hr. unfold stopListening, bind, gets. rewrite Hr. simpl.
  destruct (silenceTimer (vars s)); reflexivity.
Qed.

(** C5.  A recognition error other than [no-speech] and [aborted] arms the
    restart closure 1000 ms ahead.  When the closure comes due in a state
    where stop has been requested ([isListening] is false), it does not
    call [startListening]: nothing but the clock and the timer queue
    changes, and no [start()] is issued on the engine.  This holds whether
    the stop request came before or after the error. *)
Theorem error_restart_not_after_stop (s : State) (code : RecErrorCode) (t : Timer) :
  (code <> NoSpeech -> code <> Aborted ->
   timers (clock (final_state (recognition_onerror code s))) =
   timers (clock s) ++ [{| tid := nextTid (clock s); due := now (clock s) + 1000;
                           cb := CbErrorRestart; period := None |}]) /\
  (cb t = CbErrorRestart -> period t = None ->
   isListening (vars s) = false ->
   vars (fire t s) = vars s /\ recog (fire t s) = recog s /\
   synth (fire t s) = synth s /\ net (fire t s) = net s /\
   page (fire t s) = page s /\ console (fire t s) = console s /\
   timers (clock (fire t s)) = cancel_timer (tid t) (timers (clock s))) /\
  (cb t = CbErrorRestart -> period t = None ->
   recognition (vars s) = true ->
   let stop_then_error :=
     handle (RecOnError code) (final_state (stopListening s)) in
   let error_then_stop :=
     final_state (stopListening (handle (RecOnError code) s)) in
   recCalls (recog (fire t stop_then_error)) = recCalls (recog stop_then_error) /\
   recState (recog (fire t stop_then_error)) = recState (recog stop_then_error) /\
   isListening (vars (fire t stop_then_error)) = false /\
   recCalls (recog (fire t error_then_stop)) = recCalls (recog error_then_stop) /\
   recState (recog (fire t error_then_stop)) = recState (recog error_then_stop) /\
   isListening (vars (fire t error_then_stop)) = false).
Proof.
  split; [|split].
  - intros H1 H2. destruct code; try congruence; reflexivity.
  - intros Hc Hp _. rewrite fire_restart_closure by auto.
    repeat split; reflexivity.
  - intros Hc Hp Hr. cbv zeta.
    rewrite !fire_restart_closure by auto.
    repeat split; try reflexivity.
    + unfold handle. destruct code; simpl;
        apply (stopListening_clears_flag s Hr).
    + simpl. apply stopListening_clears_flag.
      unfold handle. destruct code; simpl; exact Hr.
Qed.

Lemma error_restart_not_after_stop_witness :
  let t := {| tid := 3; due := 1500; cb := CbErrorRestart; period := None |} in
  let s := handle (RecOnError Network) (final_state (stopListening session_listening)) in
  timers (clock (final_state (recognition_onerror Network session_listening))) =
    timers (clock session_listening) ++ [t] /\
  In t (timers (clock s)) /\
  recog (fire t s) = recog s /\
  recCalls (recog (fire t s)) = recCalls (recog s).
Proof.
  intros t s.
  split.
  { apply (proj1 (error_restart_not_after_stop session_listening Network t));
      discriminate. }
  split; [vm_compute; auto|].
  split.
  - apply (proj1 (proj2 (error_restart_not_after_stop s Network t)));
      reflexivity.
  - pose proof (proj2 (proj2 (error_restart_not_after_stop
                  session_listening Network t)) eq_refl eq_refl eq_refl) as H.
    cbv zeta in H. apply (proj1 H).
Defined.

(* ================================================================== *)
(** ** The utterance buffer (lines 73-99, 208-218) *)

Lemma same_buffer_refl (s : State) : same_buffer s s.
Proof. repeat split. Qed.

Lemma same_buffer_trans (a b c : State) :
  same_buffer a b -> same_buffer b c -> same_buffer a c.
Proof.
  unfold same_buffer. intros (H1 & H2 & H3) (H4 & H5 & H6).
  repeat split; congruence.
Qed.

Ltac buffer_leaf :=
  intro; unfold same_buffer, attempts; simpl;
  rewrite ?filter_app, ?app_nil_r; simpl; rewrite ?app_nil_r; auto.

Create HintDb buffer.

Ltac buffer_frame :=
  repeat first
    [ solve [auto with buffer]
    | progress cbv zeta
    | frame_step same_buffer_refl same_buffer_trans
    | apply keeps_modify; solve [buffer_leaf] ].

Lemma console_log_buffer m : keeps same_buffer (console_log m).
Proof. buffer_leaf. Qed.
Lemma rec_stop_buffer : keeps same_buffer rec_stop.
Proof. buffer_leaf. Qed.
Lemma synth_speaking_buffer : keeps same_buffer synth_speaking.
Proof. buffer_leaf. Qed.
Lemma synth_cancel_buffer : keeps same_buffer synth_cancel.
Proof. buffer_leaf. Qed.
Lemma synth_speak_buffer t c : keeps same_buffer (synth_speak t c).
Proof. buffer_leaf. Qed.
Lemma synth_pause_buffer : keeps same_buffer synth_pause.
Proof. buffer_leaf. Qed.
Lemma synth_resume_buffer : keeps same_buffer synth_resume.
Proof. buffer_leaf. Qed.
Lemma schedule_buffer c d p : keeps same_buffer (schedule c d p).
Proof. buffer_leaf. Qed.
Lemma setTimeout_buffer c d : keeps same_buffer (setTimeout c d).
Proof. apply schedule_buffer. Qed.
Lemma setInterval_buffer c d : keeps same_buffer (setInterval c d).
Proof. apply schedule_buffer. Qed.
Lemma clearTimeout_buffer h : keeps same_buffer (clearTimeout h).
Proof. destruct h; buffer_leaf. Qed.
Lemma clearInterval_buffer h : keeps same_buffer (clearInterval h).
Proof. apply clearTimeout_buffer. Qed.
Lemma fetch_buffer r k : keeps same_buffer (fetch r k).
Proof. buffer_leaf. Qed.
Lemma await_fetch_buffer r : keeps same_buffer (await_fetch r).
Proof. destruct r; buffer_leaf. Qed.
Lemma await_json_buffer j : keeps same_buffer (await_json j).
Proof. destruct j; buffer_leaf. Qed.
Lemma field_buffer k j : keeps same_buffer (field k j).
Proof. destruct j; buffer_leaf. Qed.
Lemma alert_buffer m : keeps same_buffer (alert m).
Proof. buffer_leaf. Qed.
Lemma navigate_buffer v : keeps same_buffer (navigate v).
Proof. buffer_leaf. Qed.
Lemma showScreen_buffer sc : keeps same_buffer (showScreen sc).
Proof. buffer_leaf. Qed.
Lemma showLoading_buffer t : keeps same_buffer (showLoading t).
Proof. buffer_leaf. Qed.
Lemma hideLoading_buffer : keeps same_buffer hideLoading.
Proof. buffer_leaf. Qed.
Lemma addMessage_buffer t u : keeps same_buffer (addMessage t u).
Proof. buffer_leaf. Qed.

#[local] Hint Resolve console_log_buffer rec_stop_buffer synth_speaking_buffer
  synth_cancel_buffer synth_speak_buffer synth_pause_buffer
  synth_resume_buffer schedule_buffer setTimeout_buffer setInterval_buffer
  clearTimeout_buffer clearInterval_buffer fetch_buffer await_fetch_buffer
  await_json_buffer field_buffer alert_buffer navigate_buffer
  showScreen_buffer showLoading_buffer hideLoading_buffer
  addMessage_buffer : buffer.

Lemma stopTimer_buffer : keeps same_buffer stopTimer.
Proof. unfold stopTimer. buffer_frame. Qed.
#[local] Hint Resolve stopTimer_buffer : buffer.

Lemma stopListening_buffer : keeps same_buffer stopListening.
Proof. unfold stopListening. buffer_frame. Qed.
#[local] Hint Resolve stopListening_buffer : buffer.

Lemma cleanupEverything_buffer : keeps same_buffer cleanupEverything.
Proof. unfold cleanupEverything. buffer_frame. Qed.
#[local] Hint Resolve cleanupEverything_buffer : buffer.

Lemma speak_buffer t c : keeps same_buffer (speak t c).
Proof. unfold speak. buffer_frame. Qed.
#[local] Hint Resolve speak_buffer : buffer.

Lemma utterance_onend_buffer u : keeps same_buffer (utterance_onend u).
Proof. unfold utterance_onend. buffer_frame. Qed.
Lemma utterance_onerror_buffer u : keeps same_buffer (utterance_onerror u).
Proof. unfold utterance_onerror. buffer_frame. Qed.
Lemma invoke_buffer c : keeps same_buffer (invoke c).
Proof. unfold invoke. buffer_frame. Qed.
#[local] Hint Resolve utterance_onend_buffer utterance_onerror_buffer
  invoke_buffer : buffer.

Lemma sendMessage_buffer m : keeps same_buffer (sendMessage m).
Proof. unfold sendMessage. buffer_frame. Qed.
Lemma sendMessage_resume_buffer r : keeps same_buffer (sendMessage_resume r).
Proof. unfold sendMessage_resume. buffer_frame. Qed.
Lemma endConversation_buffer : keeps same_buffer endConversation.
Proof. unfold endConversation. buffer_frame. Qed.
Lemma endConversation_resume_buffer r :
  keeps same_buffer (endConversation_resume r).
Proof. unfold endConversation_resume. buffer_frame. Qed.
#[local] Hint Resolve sendMessage_buffer sendMessage_resume_buffer
  endConversation_buffer endConversation_resume_buffer : buffer.

Lemma startTimer_buffer : keeps same_buffer startTimer.
Proof. unfold startTimer. buffer_frame. Qed.
Lemma countdown_tick_buffer : keeps same_buffer countdown_tick.
Proof. unfold countdown_tick. buffer_frame. Qed.
#[local] Hint Resolve startTimer_buffer countdown_tick_buffer : buffer.

Lemma startConversation_buffer : keeps same_buffer startConversation.
Proof. unfold startConversation. buffer_frame. Qed.
Lemma startConversation_resume_buffer r :
  keeps same_buffer (startConversation_resume r).
Proof. unfold startConversation_resume. buffer_frame. Qed.
Lemma stopListeningAndSend_buffer : keeps same_buffer stopListeningAndSend.
Proof. unfold stopListeningAndSend. buffer_frame. Qed.
#[local] Hint Resolve startConversation_buffer startConversation_resume_buffer
  stopListeningAndSend_buffer : buffer.

Lemma recognition_onstart_buffer : keeps same_buffer recognition_onstart.
Proof. unfold recognition_onstart. buffer_frame. Qed.
Lemma recognition_onerror_buffer c : keeps same_buffer (recognition_onerror c).
Proof. unfold recognition_onerror. buffer_frame. Qed.
Lemma recognition_onend_buffer : keeps same_buffer recognition_onend.
Proof. unfold recognition_onend. buffer_frame. Qed.
Lemma sendBtn_onclick_buffer : keeps same_buffer sendBtn_onclick.
Proof. unfold sendBtn_onclick. buffer_frame. Qed.
Lemma restartBtn_onclick_buffer : keeps same_buffer restartBtn_onclick.
Proof. unfold restartBtn_onclick. buffer_frame. Qed.
Lemma textInput_onkeypress_buffer k : keeps same_buffer (textInput_onkeypress k).
Proof. unfold textInput_onkeypress. buffer_frame. Qed.
Lemma on_beforeunload_buffer : keeps same_buffer on_beforeunload.
Proof. unfold on_beforeunload. buffer_frame. Qed.
Lemma on_pagehide_buffer : keeps same_buffer on_pagehide.
Proof. unfold on_pagehide. buffer_frame. Qed.
Lemma on_visibilitychange_buffer h : keeps same_buffer (on_visibilitychange h).
Proof. unfold on_visibilitychange. buffer_frame. Qed.
Lemma resume_buffer k r : keeps same_buffer (resume k r).
Proof. destruct k; simpl; auto with buffer. Qed.

Lemma accumulate_spec (rs : list RecResult) (fin interim : JSString) :
  accumulate rs fin interim =
  (fin ++ List.concat (map (fun r => transcript r ++ lit " ") (filter isFinal rs)),
   interim ++ List.concat (map transcript (filter (fun r => negb (isFinal r)) rs))).
Proof.
  revert fin interim.
  induction rs as [|r rest IH]; intros fin interim; simpl.
  - now rewrite !app_nil_r.
  - destruct (isFinal r); simpl; rewrite IH; now rewrite <- !app_assoc.
Qed.

Lemma recognition_onresult_buffer (event : ResultEvent) (s : State) :
  let s' := final_state (recognition_onresult event s) in
  finalTranscript (vars s') = finalTranscript (vars s) ++ finalized_delta event /\
  interimTranscript (vars s') = pending_snapshot event /\
  attempts s' = attempts s.
Proof.
  unfold recognition_onresult, bind, gets, finalized_delta, pending_snapshot.
  destruct (silenceTimer (vars s)); simpl; rewrite accumulate_spec; simpl;
    repeat split; reflexivity.
Qed.

Lemma startListening_buffer (s : State) :
  let s' := final_state (startListening s) in
  (recognition (vars s) = true -> isListening (vars s) = false ->
   finalTranscript (vars s') = [] /\ interimTranscript (vars s') = [] /\
   attempts s' = S (attempts s)) /\
  (recognition (vars s) = false \/ isListening (vars s) = true -> s' = s).
Proof.
  split.
  - intros Hr Hl.
    unfold startListening, bind, gets, try_catch, modify, rec_start, attempts.
    rewrite Hr, Hl. simpl.
    destruct (recState (recog s)); simpl;
      rewrite filter_app, length_app; simpl; repeat split; lia.
  - intros H. now rewrite startListening_guard.
Qed.

Lemma same_buffer_step (s s' : State) : same_buffer s s' -> buffer_step s s'.
Proof.
  intros (H1 & H2 & H3). left. split; [exact H3|].
  exists []. now rewrite app_nil_r.
Qed.

Lemma buffer_step_before (a b c : State) :
  same_buffer a b -> buffer_step b c -> buffer_step a c.
Proof.
  intros (H1 & H2 & H3) [(H4 & x & H5) | (H4 & H5 & H6)].
  - left. split; [congruence|]. exists x. congruence.
  - right. repeat split; congruence.
Qed.

Lemma buffer_step_after (a b c : State) :
  buffer_step a b -> same_buffer b c -> buffer_step a c.
Proof.
  intros [(H4 & x & H5) | (H4 & H5 & H6)] (H1 & H2 & H3).
  - left. split; [congruence|]. exists x. congruence.
  - right. repeat split; congruence.
Qed.

Lemma startListening_buffer_step (s : State) :
  buffer_step s (final_state (startListening s)).
Proof.
  destruct (startListening_buffer s) as [Hpass Hskip].
  destruct (recognition (vars s)) eqn:Hr.
  - destruct (isListening (vars s)) eqn:Hl.
    + rewrite Hskip by auto. apply same_buffer_step, same_buffer_refl.
    + right. destruct Hpass as (H1 & H2 & H3); auto.
  - rewrite Hskip by auto. apply same_buffer_step, same_buffer_refl.
Qed.

Lemma run_callback_buffer_step (c : TimerCallback) (s : State) :
  buffer_step s (final_state (run_callback c s)).
Proof.
  assert (Hthen : forall k : M unit, keeps same_buffer k ->
            buffer_step s (final_state ((startListening ;; k) s))).
  { intros k Hk. unfold bind.
    pose proof (startListening_buffer_step s) as Hs.
    destruct (startListening_returns s) as ([] & s1 & E).
    rewrite E in *. simpl in Hs.
    eapply buffer_step_after; [exact Hs | apply Hk]. }
  destruct c.
  - apply same_buffer_step. cbn [run_callback].
    apply (keeps_bind _ same_buffer_trans); auto with buffer.
  - rewrite (restart_closure_inert CbErrorRestart) by auto.
    apply same_buffer_step, same_buffer_refl.
  - rewrite (restart_closure_inert CbEndRestart) by auto.
    apply same_buffer_step, same_buffer_refl.
  - apply Hthen; auto with buffer.
  - apply Hthen; auto with buffer.
  - apply startListening_buffer_step.
  - apply same_buffer_step. cbn [run_callback]. auto with buffer.
  - apply startListening_buffer_step.
Qed.

Lemma fire_buffer_step (t : Timer) (s : State) : buffer_step s (fire t s).
Proof.
  unfold fire.
  eapply buffer_step_before; [|apply run_callback_buffer_step].
  repeat split.
Qed.

(** Run a computation that keeps the buffer from a state that differs from
    [s] outside the buffer only. *)
Lemma same_buffer_from (s s0 : State) (m : M unit) :
  same_buffer s s0 -> keeps same_buffer m ->
  buffer_step s (final_state (m s0)).
Proof.
  intros H Hm. apply same_buffer_step.
  eapply same_buffer_trans; [exact H | apply Hm].
Qed.

Lemma handle_buffer_step (e : Event) (s : State) : buffer_step s (handle e s).
Proof.
  destruct e; cbn [handle].
  - apply same_buffer_from; [repeat split|apply recognition_onstart_buffer].
  - destruct (recognition_onresult_buffer event s) as (H1 & H2 & H3).
    left. split; [exact H3|]. eexists; exact H1.
  - apply same_buffer_from; [repeat split|apply recognition_onerror_buffer].
  - apply same_buffer_from; [repeat split|apply recognition_onend_buffer].
  - destruct (hd_error (queue (synth s))).
    + apply same_buffer_from; [repeat split|auto with buffer].
    + apply same_buffer_step, same_buffer_refl.
  - destruct (hd_error (queue (synth s))).
    + apply same_buffer_from; [repeat split|auto with buffer].
    + apply same_buffer_step, same_buffer_refl.
  - destruct (find_timer id s).
    + apply fire_buffer_step.
    + apply same_buffer_step, same_buffer_refl.
  - destruct (find_pending id s).
    + apply same_buffer_from; [repeat split|apply resume_buffer].
    + apply same_buffer_step, same_buffer_refl.
  - apply same_buffer_from; [repeat split|apply startConversation_buffer].
  - apply same_buffer_from; [repeat split|apply sendBtn_onclick_buffer].
  - apply same_buffer_from; [repeat split|apply endConversation_buffer].
  - apply same_buffer_from; [repeat split|apply restartBtn_onclick_buffer].
  - apply same_buffer_step. repeat split.
  - apply same_buffer_from; [repeat split|apply textInput_onkeypress_buffer].
  - apply same_buffer_from; [repeat split|apply on_beforeunload_buffer].
  - apply same_buffer_step.
    eapply same_buffer_trans; [apply on_pagehide_buffer | repeat split].
  - apply same_buffer_from; [repeat split|apply on_visibilitychange_buffer].
Qed.

(** C9.  [startListening], when it gets past its guard, empties both
    halves of the buffer and issues one capture attempt.  A progress event
    appends its final fragments to [finalTranscript], replaces
    [interimTranscript] and starts no attempt.  And for every event the
    platform can deliver, in every state: either no capture attempt starts
    and the finalized text is extended (nothing accumulated is dropped), or
    exactly one attempt starts and the buffer is empty. *)
Theorem utterance_buffer_discipline (s : State) :
  (recognition (vars s) = true -> isListening (vars s) = false ->
   let s' := final_state (startListening s) in
   finalTranscript (vars s') = [] /\ interimTranscript (vars s') = [] /\
   attempts s' = S (attempts s)) /\
  (forall event,
   let s' := handle (RecOnResult event) s in
   finalTranscript (vars s') = finalTranscript (vars s) ++ finalized_delta event /\
   interimTranscript (vars s') = pending_snapshot event /\
   attempts s' = attempts s) /\
  (forall e, buffer_step s (dispatch e s)).
Proof.
  split; [apply (proj1 (startListening_buffer s))|].
  split; [intro event; apply recognition_onresult_buffer|].
  intro e. unfold dispatch. destruct (enabled e s).
  - apply handle_buffer_step.
  - apply same_buffer_step, same_buffer_refl.
Qed.

Lemma utterance_buffer_discipline_witness :
  let s := final_state (stopListening session_listening) in
  let s' := final_state (startListening s) in
  finalTranscript (vars s') = [] /\ interimTranscript (vars s') = [] /\
  attempts s' = S (attempts s).
Proof.
  intros s s'.
  apply (proj1 (utterance_buffer_discipline s)); reflexivity.
Defined.

(* ================================================================== *)
(** ** Silence with nothing said (lines 239-252) *)

(** When the silence deadline expires and the trimmed finalized
    transcript is empty, no request is issued to the conversation service,
    nothing is spoken or shown, and a timer is armed 500 ms ahead that
    calls [startListening].  With a recognition object present: capture has
    been stopped, and if the engine has reported its end by the time the
    timer fires, the timer starts a new capture attempt, which the
    engine's start event turns into listening again, still without any
    request. *)
Lemma silence_expiry_in_order (t : Timer) (s : State) :
  cb t = CbSilence -> period t = None ->
  trim (finalTranscript (vars s)) = [] ->
  let s1 := fire t s in
  (requests (net s1) = requests (net s) /\
   pending (net s1) = pending (net s) /\
   queue (synth s1) = queue (synth s) /\
   chat (page s1) = chat (page s) /\
   exists kept, timers (clock s1) = kept ++ [resume_after_silence t s]) /\
  (recognition (vars s) = true -> unloaded (page s) = false ->
   let s2 := dispatch RecOnEnd s1 in
   let s3 := fire (resume_after_silence t s) s2 in
   let s4 := dispatch RecOnStart s3 in
   isListening (vars s1) = false /\
   attempts s3 = S (attempts s) /\
   recState (recog s3) = RecStarting /\
   isListening (vars s4) = true /\
   recState (recog s4) = RecRunning /\
   requests (net s4) = requests (net s)).
Proof.
  intros Hc Hp H. destruct_state s. cbn [finalTranscript vars] in H.
  unfold fire. rewrite Hc, Hp. cbn [run_callback].
  unfold stopListeningAndSend, bind, gets, console_log.
  cbn [final_state vars upd_console upd_clock finalTranscript].
  rewrite H. cbn [is_empty negb].
  split.
  - unfold stopListening, bind, gets, modify, try_catch, rec_stop,
      clearTimeout, setTimeout, schedule, console_log, ret,
      resume_after_silence.
    cbn. destruct v_rec; cbn; [destruct v_st; cbn|];
      repeat split; eexists; reflexivity.
  - cbn [recognition vars unloaded page]. intros -> ->.
    unfold dispatch, enabled, handle, fire, resume_after_silence, attempts.
    destruct v_st, r_st; cbn; rewrite ?filter_app, ?length_app; cbn;
      repeat split; lia.
Qed.

(* ================================================================== *)
(** ** Speech output and its completion (lines 167-205) *)

Lemma speak_truthy (text : Value) (callback : option SpeakCallback) :
  truthy text = true ->
  speak text callback =
  (stopListening ;; synth_cancel ;; synth_speak text callback).
Proof. intros H. unfold speak. now rewrite H. Qed.

Lemma speak_falsy (text : Value) (callback : option SpeakCallback) (s : State) :
  truthy text = false -> speak text callback s = Ok tt s.
Proof. intros H. unfold speak. now rewrite H. Qed.

(** [speak] on an empty (falsy) text returns at once and changes
    nothing: no utterance, no completion, capture left as it is.  On any
    other text it stops capture, queues exactly one utterance [u] and
    returns.  When the platform reports [u] over, by its [end] event or by
    its [error] event, exactly one closure is armed 500 ms ahead and [u]
    leaves the queue, so that neither report can be delivered for it
    again.  When that closure runs, the completion callback has run
    exactly once (not at all if none was passed), and, a recognition
    object being present and the engine having reported its end by then,
    one new capture attempt is started, which the engine's start event
    turns into listening. *)
Lemma speak_completion_in_order (text : Value)
    (callback : option SpeakCallback) (failed : bool) (s : State) :
  (truthy text = false -> speak text callback s = Ok tt s) /\
  (truthy text = true ->
   let u := {| uid := nextUid (synth s); utext := text; ucallback := callback |} in
   let s1 := final_state (speak text callback s) in
   let s2 := dispatch (completion failed (uid u)) s1 in
   let T := completion_timer failed callback s1 in
   let s3 := fire T s2 in
   (speak text callback s = Ok tt s1 /\ queue (synth s1) = [u] /\
    notifications s1 = notifications s) /\
   (unloaded (page s) = false ->
    timers (clock s2) = timers (clock s1) ++ [T] /\
    queue (synth s2) = [] /\
    enabled (completion false (uid u)) s2 = false /\
    enabled (completion true (uid u)) s2 = false /\
    notifications s2 = notifications s /\
    notifications s3 = notifications s + expected_notifications callback /\
    (recognition (vars s) = true ->
     let s3' := fire T (dispatch RecOnEnd s2) in
     isListening (vars s2) = false /\
     attempts s3' = S (attempts s) /\
     recState (recog s3') = RecStarting /\
     isListening (vars (dispatch RecOnStart s3')) = true))).
Proof.
  split; [apply speak_falsy|].
  intros Ht u s1 s2 T s3.
  freeze s3. freeze T. freeze s2. freeze s1. subst u.
  rewrite (speak_truthy _ _ Ht) in *.
  destruct_state s.
  unfold completion, completion_timer in *.
  split.
  - subst s1. unfold notifications.
    destruct v_rec; [destruct v_st|]; exec; repeat split.
  - intros Hu. exec in Hu. subst p_unl.
    destruct v_rec; [destruct v_st|]; exec in Es1; subst s1; exec in ET;
      destruct failed; exec in Es2; subst s2 T.
    all: destruct callback as [[]|], r_st; exec in Es3; subst s3.
    all: unfold notifications, expected_notifications, attempts.
    all: exec.
    all: rewrite ?filter_app, ?length_app;
      cbn [List.length filter is_ready_log is_start snd app].
    all: repeat split; first [reflexivity | lia | discriminate].
Qed.

(** The service greets with the empty string: [speak] returns at its
    guard, and ten seconds later the completion callback has not run,
    nothing is queued for speech and no capture attempt was ever made,
    although [startConversation] means to "speak greeting and then start
    listening" (line 321). *)
Lemma speak_empty_text_never_completes :
  speak (VStr []) (Some ReadyAfterGreeting) (loaded true) = Ok tt (loaded true) /\
  queue (synth empty_greeting_session) = [] /\
  exists s', wait 20 10000 empty_greeting_session = Some s' /\
    notifications s' = 0 /\ queue (synth s') = [] /\
    attempts s' = 0 /\ isListening (vars s') = false.
Proof.
  split; [reflexivity|]. split; [reflexivity|].
  eexists. split; [vm_compute; reflexivity|].
  vm_compute. repeat split.
Qed.

(* ================================================================== *)
(** ** Failure of the conversation service (lines 334-358) *)

(** C7, on the code.  When the request of [sendMessage] fails, nothing on
    the page changes (no alert, no chat entry, no overlay): the failure
    goes to the console only.  Nothing is queued for speech, and a timer is
    armed 1000 ms ahead that calls [startListening]; with a recognition
    object present, capture stopped and the engine idle, its firing starts
    a new capture attempt.  The sibling handlers of [startConversation] and
    [endConversation] do raise an alert on the same failure. *)
Theorem send_failure_not_surfaced (r : FetchResult) (s : State) :
  failed_result r ->
  let s' := final_state (sendMessage_resume r s) in
  (page s' = page s /\ alerts (page s') = alerts (page s) /\
   queue (synth s') = queue (synth s) /\
   console s' = console s ++ [(now (clock s), LogErrorSendMessage (failure_exn r))] /\
   timers (clock s') =
     timers (clock s) ++ [{| tid := nextTid (clock s); due := now (clock s) + 1000;
                             cb := CbResumeSendError; period := None |}] /\
   vars s' = vars s /\ recog s' = recog s /\ net s' = net s) /\
  (recognition (vars s) = true -> isListening (vars s) = false ->
   recState (recog s) = RecIdle ->
   let s'' := fire {| tid := nextTid (clock s); due := now (clock s) + 1000;
                      cb := CbResumeSendError; period := None |} s' in
   recState (recog s'') = RecStarting /\ attempts s'' = S (attempts s)) /\
  alerts (page (final_state (startConversation_resume r s))) =
    alerts (page s) ++ [lit "Failed to start conversation. Please try again."] /\
  alerts (page (final_state (endConversation_resume r s))) =
    alerts (page s) ++ [lit "Failed to end conversation. Please try again."].
Proof.
  intros [-> | [[ok ->] | [ok ->]]]; destruct_state s; try destruct ok;
    unfold attempts; exec.
  all: split; [repeat split; reflexivity|].
  all: split;
    [ intros -> -> ->; exec; rewrite filter_app, length_app;
      cbn [filter is_start List.length]; split; [reflexivity|lia] | ].
  all: split; try reflexivity.
  all: destruct y_q, v_rec, v_st, v_ti; reflexivity.
Qed.

Lemma send_failure_not_surfaced_witness :
  exists s, play 10 send_rejected_trace session_listening = Some s /\
    requests (net s) = [ReqStart; ReqSend (VStr (lit "c1")) (lit "Hello")] /\
    alerts (page s) = [] /\ queue (synth s) = [] /\
    chat (page s) = [(VStr (lit "Hi"), false); (VStr (lit "Hello"), true)] /\
    recState (recog (fire {| tid := 4; due := 6500; cb := CbResumeSendError;
                             period := None |} s)) = RecStarting.
Proof.
  destruct (play 10 (firstn 3 send_rejected_trace) session_listening)
    as [s0|] eqn:E0; [|vm_compute in E0; discriminate].
  pose (s1 := upd_net (fun n => set_pending
                 (filter (fun p => negb (fst p =? 1)) (pending n)) n) s0).
  exists (final_state (sendMessage_resume NetworkFailure s1)).
  pose proof (send_failure_not_surfaced NetworkFailure s1
                (or_introl eq_refl)) as H.
  cbv zeta in H. destruct H as [(Hp & Ha & Hq & _) [Hresume _]].
  vm_compute in E0. injection E0 as E0.
  assert (Hr : recognition (vars s1) = true) by (subst s1 s0; reflexivity).
  assert (Hl : isListening (vars s1) = false) by (subst s1 s0; reflexivity).
  assert (Hi : recState (recog s1) = RecIdle) by (subst s1 s0; reflexivity).
  destruct (Hresume Hr Hl Hi) as [Hstart _].
  rewrite Ha, Hq.
  split; [subst s1 s0; vm_compute; reflexivity|].
  split; [subst s1 s0; vm_compute; reflexivity|].
  split; [subst s1 s0; reflexivity|].
  split; [subst s1 s0; reflexivity|].
  split; [subst s1 s0; vm_compute; reflexivity|].
  rewrite <- Hstart. subst s1 s0. reflexivity.
Defined.

(* ================================================================== *)
(** ** Starting a conversation (lines 297-332, 391-393) *)



(* ================================================================== *)
(** ** Ending a conversation (lines 360-388, 36-50) *)

Lemma cancel_timer_twice (a b : nat) (ts : list Timer) :
  cancel_timer a (cancel_timer b (cancel_timer a (cancel_timer b ts))) =
  cancel_timer a (cancel_timer b ts).
Proof.
  unfold cancel_timer.
  induction ts as [|t ts IH]; simpl; [reflexivity|].
  destruct (negb (tid t =? b)) eqn:Eb; simpl; [|exact IH].
  destruct (negb (tid t =? a)) eqn:Ea; simpl; [|exact IH].
  rewrite Eb. simpl. rewrite Ea. now rewrite IH.
Qed.

Lemma cancel_timer_idem (a : nat) (ts : list Timer) :
  cancel_timer a (cancel_timer a ts) = cancel_timer a ts.
Proof.
  unfold cancel_timer.
  induction ts as [|t ts IH]; simpl; [reflexivity|].
  destruct (negb (tid t =? a)) eqn:Ea; simpl; [|exact IH].
  rewrite Ea. now rewrite IH.
Qed.

(** C4, as the code has it.  A second [endConversation] right after the
    first leaves the script's variables, the engines, the timers, the page
    and the console exactly as the first left them: the local teardown is
    idempotent.  But no call looks whether the session has ended already:
    each one issues its own [closeSession] request, so two calls issue
    two. *)
Theorem endConversation_twice (s : State) :
  let s1 := handle ClickEnd s in
  let s2 := handle ClickEnd s1 in
  vars s2 = vars s1 /\ recState (recog s2) = recState (recog s1) /\
  synth s2 = synth s1 /\ clock s2 = clock s1 /\ page s2 = page s1 /\
  console s2 = console s1 /\
  requests (net s1) = requests (net s) ++ [ReqEnd (conversationId (vars s))] /\
  requests (net s2) = requests (net s1) ++ [ReqEnd (conversationId (vars s))] /\
  close_calls s1 = S (close_calls s) /\
  close_calls s2 = S (S (close_calls s)).
Proof.
  destruct_state s. unfold close_calls.
  destruct v_ti, v_rec, v_st, r_st; exec;
    rewrite ?filter_app, ?length_app; cbn [filter is_end_request List.length];
    rewrite ?cancel_timer_twice, ?cancel_timer_idem;
    repeat split; lia.
Qed.

(** C4 as stated fails: two end requests in succession from a running
    session issue two [closeSession] calls. *)
Lemma end_twice_closes_twice :
  requests (net (run [ClickEnd; ClickEnd] session_listening)) =
    [ReqStart; ReqEnd (VStr (lit "c1")); ReqEnd (VStr (lit "c1"))] /\
  close_calls (run [ClickEnd; ClickEnd] session_listening) = 2 /\
  run [ClickEnd; ClickEnd] session_listening <> run [ClickEnd] session_listening.
Proof.
  repeat split; try (vm_compute; reflexivity).
  intros H. apply (f_equal close_calls) in H.
  vm_compute in H. discriminate.
Qed.

(* ================================================================== *)
(** ** Listening while speaking (lines 167-205, 239-252) *)

(** C1, on the code.  The resume timer armed by [stopListeningAndSend]
    (line 250) is not cancelled when the reply is spoken: along
    [overlap_trace] it fires 300 ms into the reply, [startListening]
    restarts the engine, and the script is listening, with the engine
    capturing, while the reply is still being spoken. *)
Theorem capture_restarts_during_speech :
  exists s, play 10 overlap_trace (loaded true) = Some s /\
    isListening (vars s) = true /\
    recState (recog s) = RecRunning /\
    map utext (queue (synth s)) = [VStr (lit "Hello")] /\
    speaking_uid s = Some 1 /\
    paused (synth s) = false.
Proof.
  eexists. split; [vm_compute; reflexivity|].
  vm_compute. repeat split.
Qed.

(* ================================================================== *)
(** ** The silence deadline (lines 73-99) *)

(** Case analysis on what a timer closure looks at. *)
Ltac fire_cases t :=
  destruct t as [t_id t_due t_cb t_per];
  destruct t_per as [t_p|], t_cb.

Ltac innermost x :=
  lazymatch x with
  | context [match ?y with _ => _ end] => innermost y
  | _ => x
  end.

Ltac script_cases :=
  repeat match goal with
  | |- context [match ?x with _ => _ end] =>
      let y := innermost x in destruct y eqn:?; exec_core
  end.

Lemma fire_now (t : Timer) (s : State) :
  now (clock (fire t s)) = N.max (now (clock s)) (due t).
Proof.
  destruct_state s. fire_cases t; exec.
  all: script_cases; reflexivity.
Qed.

Lemma fire_silenceTimer (t : Timer) (s : State) :
  silenceTimer (vars (fire t s)) = silenceTimer (vars s).
Proof.
  destruct_state s. fire_cases t; exec.
  all: script_cases; reflexivity.
Qed.

Lemma fire_timeRemaining (t : Timer) (s : State) :
  (timeRemaining (vars s) - 1 <= timeRemaining (vars (fire t s)))%Z.
Proof.
  destruct_state s. fire_cases t; exec.
  all: script_cases; lia.
Qed.

Lemma fire_expiries (t : Timer) (s : State) :
  expiries (fire t s) =
  expiries s ++
  (if is_silence t
   then [(N.max (now (clock s)) (due t), LogSilenceDetected)] else []).
Proof.
  destruct_state s. unfold expiries, is_silence. fire_cases t; exec.
  all: script_cases; rewrite ?filter_app;
    cbn [filter is_silence_log snd]; rewrite ?app_nil_r; reflexivity.
Qed.

Lemma thins_refl (l : list Timer) : thins l l.
Proof.
  exists (fun _ => true). induction l; simpl; congruence.
Qed.

Lemma thins_filter (g : Timer -> bool) (l l' : list Timer) :
  thins l l' -> thins l (filter g l').
Proof.
  intros [h ->]. exists (fun x => h x && g x).
  induction l as [|x l IH]; simpl; [reflexivity|].
  destruct (h x); simpl; [destruct (g x)|]; simpl; congruence.
Qed.

Lemma thins_cancel (a : nat) (l l' : list Timer) :
  thins l l' -> thins l (cancel_timer a l').
Proof. apply thins_filter. Qed.

Ltac thins_tac := repeat first [apply thins_refl | apply thins_cancel].

Lemma fire_timers (t : Timer) (s : State) :
  (thins (after_due t s) (timers (clock (fire t s))) /\
   nextTid (clock (fire t s)) = nextTid (clock s)) \/
  (is_silence t = true /\
   exists kept, thins (after_due t s) kept /\
     timers (clock (fire t s)) = kept ++ [resume_after_silence t s] /\
     nextTid (clock (fire t s)) = S (nextTid (clock s))).
Proof.
  destruct_state s. unfold after_due, resume_after_silence, is_silence.
  fire_cases t; exec.
  all: script_cases.
  all: try (left; split; [thins_tac|reflexivity]).
  all: right; split; [reflexivity|]; eexists; split; [|split; reflexivity];
    thins_tac.
Qed.

Lemma fire_timers_calm (t : Timer) (s : State) :
  is_silence t = false ->
  (cb t = CbCountdown -> (1 < timeRemaining (vars s))%Z) ->
  timers (clock (fire t s)) = after_due t s /\
  nextTid (clock (fire t s)) = nextTid (clock s).
Proof.
  destruct_state s. unfold after_due, is_silence.
  fire_cases t; exec; intros H1 H2; try discriminate.
  all: script_cases; try (split; reflexivity).
  all: specialize (H2 eq_refl); lia.
Qed.

(** *** Cancelled timers *)

Lemma thins_In (l l' : list Timer) (x : Timer) :
  thins l l' -> In x l' -> In x l.
Proof. intros [g ->] H. apply filter_In in H. tauto. Qed.

Lemma thins_Forall (P : Timer -> Prop) (l l' : list Timer) :
  thins l l' -> Forall P l -> Forall P l'.
Proof.
  intros H Hl. rewrite Forall_forall in *.
  intros x Hx. apply Hl. eapply thins_In; eauto.
Qed.

Lemma NoDup_map_filter (g : Timer -> bool) (l : list Timer) :
  NoDup (map tid l) -> NoDup (map tid (filter g l)).
Proof.
  induction l as [|x l IH]; simpl; intros H; [constructor|].
  inversion H as [|? ? Hnin Hnd]; subst.
  destruct (g x); simpl; [constructor|]; auto.
  intros Hin. apply Hnin. apply in_map_iff in Hin as (y & E & Hy).
  apply in_map_iff. exists y. split; [exact E|].
  apply filter_In in Hy. tauto.
Qed.

Lemma thins_NoDup (l l' : list Timer) :
  thins l l' -> NoDup (map tid l) -> NoDup (map tid l').
Proof. intros [g ->]. apply NoDup_map_filter. Qed.

Lemma weight_filter (target : N) (g : Timer -> bool) (l : list Timer) :
  list_sum (map (weight target) (filter g l)) <=
  list_sum (map (weight target) l).
Proof.
  induction l as [|x l IH]; simpl; [lia|].
  destruct (g x); simpl; lia.
Qed.

Lemma thins_weight (target : N) (l l' : list Timer) :
  thins l l' ->
  list_sum (map (weight target) l') <= list_sum (map (weight target) l).
Proof. intros [g ->]. apply weight_filter. Qed.

Lemma filter_comm (f g : Timer -> bool) (l : list Timer) :
  filter f (filter g l) = filter g (filter f l).
Proof.
  induction l as [|x l IH]; simpl; [reflexivity|].
  destruct (g x) eqn:Eg, (f x) eqn:Ef; simpl; rewrite ?Eg, ?Ef; congruence.
Qed.

Lemma thins_silence (l l' : list Timer) :
  thins l l' -> thins (filter is_silence l) (filter is_silence l').
Proof. intros [g ->]. exists g. apply filter_comm. Qed.

Lemma thins_nil (l' : list Timer) : thins [] l' -> l' = [].
Proof. intros [g ->]. reflexivity. Qed.

(** *** The timer that comes due *)

Lemma earliest_In (l : list Timer) (t : Timer) :
  earliest l = Some t -> In t l.
Proof.
  revert t. induction l as [|x l IH]; simpl; intros t H; [discriminate|].
  destruct (earliest l) as [u|].
  - destruct (due u <? due x)%N; injection H as <-; auto.
  - injection H as <-; auto.
Qed.

Lemma earliest_le (l : list Timer) (t : Timer) :
  earliest l = Some t -> forall x, In x l -> (due t <= due x)%N.
Proof.
  revert t. induction l as [|x l IH]; simpl; intros t H y Hy; [tauto|].
  destruct (earliest l) as [u|] eqn:E.
  - specialize (IH u eq_refl).
    destruct (due u <? due x)%N eqn:Lt; injection H as <-.
    + apply N.ltb_lt in Lt. destruct Hy as [<-|Hy]; [lia|auto].
    + apply N.ltb_ge in Lt. destruct Hy as [<-|Hy]; [lia|].
      specialize (IH y Hy). lia.
  - injection H as <-. destruct Hy as [<-|Hy]; [lia|].
    destruct l; [destruct Hy|]. simpl in E.
    destruct (earliest l); [destruct (due t0 <? due t)%N|]; discriminate.
Qed.

Lemma earliest_None (l : list Timer) : earliest l = None -> l = [].
Proof.
  destruct l as [|x l]; simpl; [reflexivity|].
  destruct (earliest l) as [u|]; [destruct (due u <? due x)%N|]; discriminate.
Qed.

(** *** The queue after a timer has come due *)

(** In a queue with unique handles, the handle names the timer. *)
Lemma unique_handle (l : list Timer) (t x : Timer) :
  NoDup (map tid l) -> In t l -> In x l -> tid x = tid t -> x = t.
Proof.
  induction l as [|y l IH]; simpl; intros Hnd Ht Hx E; [tauto|].
  inversion Hnd as [|? ? Hnin Hnd']; subst.
  destruct Ht as [->|Ht], Hx as [->|Hx]; auto.
  - exfalso. apply Hnin. rewrite <- E. now apply in_map.
  - exfalso. apply Hnin. rewrite E. now apply in_map.
Qed.

Lemma after_due_NoDup (t : Timer) (s : State) :
  NoDup (map tid (timers (clock s))) -> NoDup (map tid (after_due t s)).
Proof.
  unfold after_due. destruct (period t) as [p|].
  - intros H. rewrite map_map.
    erewrite map_ext; [exact H|].
    intros x. simpl. destruct (tid x =? tid t); reflexivity.
  - apply NoDup_map_filter.
Qed.

Lemma after_due_ok (t : Timer) (s : State) :
  Forall (timer_ok s) (timers (clock s)) ->
  Forall (timer_ok s) (after_due t s).
Proof.
  unfold after_due. destruct (period t) as [p|].
  - intros H. apply Forall_map. revert H. apply Forall_impl.
    intros x Hx. destruct (tid x =? tid t); exact Hx.
  - intros H. apply Forall_forall. intros x Hx.
    apply filter_In in Hx. rewrite Forall_forall in H. apply H. tauto.
Qed.

Lemma weight_remove (target : N) (g : Timer -> bool) (l : list Timer) (t : Timer) :
  In t l -> g t = false ->
  list_sum (map (weight target) (filter g l)) + weight target t <=
  list_sum (map (weight target) l).
Proof.
  induction l as [|x l IH]; simpl; intros Ht Hg; [tauto|].
  destruct Ht as [->|Ht].
  - rewrite Hg. pose proof (weight_filter target g l). lia.
  - specialize (IH Ht Hg). destruct (g x); simpl; lia.
Qed.

Lemma weight_rearm (target at_ p : N) (t : Timer) :
  period t = Some p -> (0 < p)%N -> (due t <= target)%N -> (due t <= at_)%N ->
  weight target {| tid := tid t; due := at_ + p; cb := cb t; period := period t |} + 1
  <= weight target t.
Proof.
  intros Hp Hpos Hdue Hat. unfold weight. simpl. rewrite Hp.
  destruct (due t <=? target)%N eqn:E1; [|apply N.leb_gt in E1; lia].
  destruct (at_ + p <=? target)%N eqn:E2;
    [|generalize (N.to_nat ((target - due t) / p)); intros; lia].
  apply N.leb_le in E2.
  assert (H : ((target - (at_ + p)) / p + 1 <= (target - due t) / p)%N).
  { replace ((target - (at_ + p)) / p + 1)%N
      with (((target - (at_ + p)) + 1 * p) / p)%N
      by (rewrite N.div_add; lia).
    apply N.Div0.div_le_mono. lia. }
  revert H. generalize ((target - (at_ + p)) / p)%N ((target - due t) / p)%N.
  intros a b H. lia.
Qed.

Lemma weight_after_due (target : N) (t : Timer) (s : State) :
  NoDup (map tid (timers (clock s))) ->
  Forall (timer_ok s) (timers (clock s)) ->
  In t (timers (clock s)) -> (due t <= target)%N ->
  list_sum (map (weight target) (after_due t s)) +
    (if is_silence t then 2 else 1) <=
  list_sum (map (weight target) (timers (clock s))).
Proof.
  intros Hnd Hok Ht Hdue.
  pose proof (proj1 (Forall_forall _ _) Hok t Ht) as (_ & Hper & _).
  unfold after_due. destruct (period t) as [p|] eqn:Hp.
  - destruct Hper as [Hper|[Hper Hcb]]; [discriminate|].
    injection Hper as ->.
    assert (Hs : is_silence t = false) by (unfold is_silence; now rewrite Hcb).
    rewrite Hs.
    assert (Huniq : forall x, In x (timers (clock s)) -> tid x = tid t -> x = t)
      by (intros x Hx; now apply unique_handle with (l := timers (clock s))).
    clear Hnd Hok. revert Ht Huniq.
    induction (timers (clock s)) as [|x l IH]; simpl; intros Ht Huniq; [tauto|].
    assert (Hl : list_sum (map (weight target)
               (map (fun x0 => if tid x0 =? tid t
                  then {| tid := tid x0;
                          due := N.max (now (clock s)) (due t) + 1000;
                          cb := cb x0; period := period x0 |}
                  else x0) l)) <= list_sum (map (weight target) l)).
    { clear IH Ht. induction l as [|y l IHl]; simpl; [lia|].
      assert (Hy := Huniq y (or_intror (or_introl eq_refl))).
      destruct (tid y =? tid t) eqn:E.
      - apply Nat.eqb_eq in E. rewrite (Hy E).
        pose proof (weight_rearm target (N.max (now (clock s)) (due t)) 1000 t
                      Hp eq_refl Hdue (N.le_max_r _ _)).
        assert (list_sum (map (weight target)
               (map (fun x0 => if tid x0 =? tid t
                  then {| tid := tid x0;
                          due := N.max (now (clock s)) (due t) + 1000;
                          cb := cb x0; period := period x0 |}
                  else x0) l)) <= list_sum (map (weight target) l)).
        { apply IHl. intros z Hz. apply Huniq. simpl in *. tauto. }
        lia.
      - assert (list_sum (map (weight target)
               (map (fun x0 => if tid x0 =? tid t
                  then {| tid := tid x0;
                          due := N.max (now (clock s)) (due t) + 1000;
                          cb := cb x0; period := period x0 |}
                  else x0) l)) <= list_sum (map (weight target) l)).
        { apply IHl. intros z Hz. apply Huniq. simpl in *. tauto. }
        lia. }
    destruct Ht as [->|Ht].
    + rewrite Nat.eqb_refl.
      pose proof (weight_rearm target (N.max (now (clock s)) (due t)) 1000 t
                    Hp eq_refl Hdue (N.le_max_r _ _)).
      lia.
    + specialize (IH Ht (fun z Hz => Huniq z (or_intror Hz))).
      destruct (tid x =? tid t) eqn:E.
      * apply Nat.eqb_eq in E. rewrite (Huniq x (or_introl eq_refl) E).
        pose proof (weight_rearm target (N.max (now (clock s)) (due t)) 1000 t
                      Hp eq_refl Hdue (N.le_max_r _ _)).
        lia.
      * lia.
  - assert (Hw : weight target t = if is_silence t then 2 else 1)
      by (unfold weight; now rewrite Hp).
    rewrite <- Hw. apply weight_remove; [exact Ht|].
    now rewrite Nat.eqb_refl.
Qed.

Lemma silence_after_due_other (t : Timer) (s : State) :
  NoDup (map tid (timers (clock s))) -> In t (timers (clock s)) ->
  is_silence t = false ->
  filter is_silence (after_due t s) = filter is_silence (timers (clock s)).
Proof.
  intros Hnd Ht Hs.
  assert (Huniq : forall x, In x (timers (clock s)) -> tid x = tid t -> x = t)
    by (intros x Hx; now apply unique_handle with (l := timers (clock s))).
  clear Hnd Ht. unfold after_due, cancel_timer.
  induction (timers (clock s)) as [|x l IH]; simpl.
  - now destruct (period t).
  - assert (IH' := IH (fun z Hz => Huniq z (or_intror Hz))).
    assert (Hx := Huniq x (or_introl eq_refl)).
    destruct (period t) as [p|]; simpl.
    + destruct (tid x =? tid t) eqn:E.
      * apply Nat.eqb_eq in E. rewrite (Hx E) in *.
        unfold is_silence in *. simpl. rewrite Hs. exact IH'.
      * now rewrite IH'.
    + destruct (tid x =? tid t) eqn:E; simpl.
      * apply Nat.eqb_eq in E. rewrite (Hx E). now rewrite Hs.
      * now rewrite IH'.
Qed.

Lemma silence_after_due_self (t : Timer) (s : State) :
  Forall (timer_ok s) (timers (clock s)) -> In t (timers (clock s)) ->
  is_silence t = true ->
  filter is_silence (after_due t s) = [].
Proof.
  intros Hok Ht Hs. rewrite Forall_forall in Hok.
  destruct (Hok t Ht) as (_ & Hper & Hst).
  assert (Hp : period t = None).
  { destruct Hper as [H|[_ H]]; [exact H|].
    unfold is_silence in Hs. rewrite H in Hs. discriminate. }
  specialize (Hst Hs).
  unfold after_due. rewrite Hp.
  assert (Hall : forall x, In x (timers (clock s)) -> is_silence x = true ->
                           tid x = tid t).
  { intros x Hx Hsx. destruct (Hok x Hx) as (_ & _ & H).
    specialize (H Hsx). congruence. }
  clear Hok Ht Hst. unfold cancel_timer.
  induction (timers (clock s)) as [|x l IH]; simpl; [reflexivity|].
  specialize (IH (fun z Hz => Hall z (or_intror Hz))).
  destruct (tid x =? tid t) eqn:E; simpl; [exact IH|].
  destruct (is_silence x) eqn:Hsx; [|exact IH].
  apply Nat.eqb_neq in E. exfalso. apply E.
  apply Hall; [now left | exact Hsx].
Qed.

(** *** One firing *)

Lemma timer_ok_later (s s' : State) (x : Timer) :
  nextTid (clock s) <= nextTid (clock s') ->
  silenceTimer (vars s') = silenceTimer (vars s) ->
  timer_ok s x -> timer_ok s' x.
Proof.
  intros Hn Hst (H1 & H2 & H3). repeat split; [lia|exact H2|].
  rewrite Hst. exact H3.
Qed.

Lemma fire_deadline_inv (t : Timer) (s : State) :
  deadline_inv s -> deadline_inv (fire t s).
Proof.
  intros [Hnd Hok].
  pose proof (after_due_NoDup t s Hnd) as Hnd'.
  pose proof (after_due_ok t s Hok) as Hok'.
  pose proof (fire_silenceTimer t s) as Hst.
  destruct (fire_timers t s) as [[Hth Hn] | (Hs & kept & Hth & Ht & Hn)].
  - split.
    + eapply thins_NoDup; eauto.
    + eapply thins_Forall; [exact Hth|].
      revert Hok'. apply Forall_impl. intros x.
      apply timer_ok_later; [lia|exact Hst].
  - split.
    + rewrite Ht, map_app. simpl.
      assert (Hk : NoDup (map tid kept)) by (eapply thins_NoDup; eauto).
      assert (Hlt : Forall (timer_ok s) kept)
        by (eapply thins_Forall; eauto).
      rewrite <- (rev_involutive (map tid kept ++ [nextTid (clock s)])).
      apply NoDup_rev. rewrite rev_app_distr. simpl.
      constructor; [|now apply NoDup_rev].
      rewrite <- in_rev. intros Hin. apply in_map_iff in Hin as (x & E & Hx).
      rewrite Forall_forall in Hlt. destruct (Hlt x Hx) as (Hb & _). lia.
    + rewrite Ht. apply Forall_app. split.
      * eapply thins_Forall; [exact Hth|].
        revert Hok'. apply Forall_impl. intros x.
        apply timer_ok_later; [lia|exact Hst].
      * constructor; [|constructor].
        unfold timer_ok, handle_ok, resume_after_silence, is_silence. simpl.
        repeat split; [lia|now left|discriminate].
Qed.

Lemma fire_bound_decreases (target : N) (t : Timer) (s : State) :
  deadline_inv s -> In t (timers (clock s)) -> (due t <= target)%N ->
  firings_bound target (fire t s) < firings_bound target s.
Proof.
  intros [Hnd Hok] Hin Hdue. unfold firings_bound.
  pose proof (weight_after_due target t s Hnd Hok Hin Hdue) as Hw.
  destruct (fire_timers t s) as [[Hth Hn] | (Hs & kept & Hth & Ht & Hn)].
  - pose proof (thins_weight target _ _ Hth).
    destruct (is_silence t); lia.
  - pose proof (thins_weight target _ _ Hth).
    rewrite Ht, map_app, list_sum_app. rewrite Hs in Hw.
    unfold weight at 2. simpl. lia.
Qed.

(** *** The clock running *)

Lemma thins_trans (a b c : list Timer) : thins a b -> thins b c -> thins a c.
Proof. intros H [g ->]. now apply thins_filter. Qed.

Lemma advance_to_mono (fuel fuel' : nat) (target : N) (s s' : State) :
  advance_to fuel target s = Some s' -> fuel <= fuel' ->
  advance_to fuel' target s = Some s'.
Proof.
  revert fuel' s. induction fuel as [|f IH]; intros fuel' s H Hle.
  - destruct fuel'; simpl in *; [exact H|].
    destruct (earliest (timers (clock s))) as [t|]; [|exact H].
    destruct (due t <=? target)%N; [discriminate|exact H].
  - destruct fuel' as [|f']; [lia|]. simpl in *.
    destruct (earliest (timers (clock s))) as [t|]; [|exact H].
    destruct (due t <=? target)%N; [|exact H].
    apply IH; [exact H|lia].
Qed.

Lemma advance_to_unique (f1 f2 : nat) (target : N) (s s1 s2 : State) :
  advance_to f1 target s = Some s1 -> advance_to f2 target s = Some s2 ->
  s1 = s2.
Proof.
  intros H1 H2.
  apply (advance_to_mono _ (Nat.max f1 f2)) in H1; [|lia].
  apply (advance_to_mono _ (Nat.max f1 f2)) in H2; [|lia].
  congruence.
Qed.

Lemma weight_In (target : N) (t : Timer) (l : list Timer) :
  In t l -> weight target t <= list_sum (map (weight target) l).
Proof.
  induction l as [|x l IH]; simpl; intros H; [tauto|].
  destruct H as [->|H]; [lia|]. specialize (IH H). lia.
Qed.

Lemma advance_quiet (fuel : nat) (target : N) (s : State) :
  deadline_inv s -> none_due target s ->
  firings_bound target s <= fuel ->
  exists s', advance_to fuel target s = Some s' /\
    expiries s' = expiries s /\ deadline_inv s' /\
    thins (silence_pending s) (silence_pending s') /\
    now (clock s') = N.max (now (clock s)) target.
Proof.
  revert s. induction fuel as [|f IH]; intros s Hinv Hnone Hb.
  - simpl. destruct (earliest (timers (clock s))) as [t|] eqn:E.
    + destruct (due t <=? target)%N eqn:Hd.
      * apply N.leb_le in Hd.
        pose proof (fire_bound_decreases target t s Hinv (earliest_In _ _ E) Hd).
        lia.
      * eexists. split; [reflexivity|].
        destruct_state s. repeat split; try apply Hinv. apply thins_refl.
    + eexists. split; [reflexivity|].
      destruct_state s. repeat split; try apply Hinv. apply thins_refl.
  - simpl. destruct (earliest (timers (clock s))) as [t|] eqn:E.
    + destruct (due t <=? target)%N eqn:Hd.
      * apply N.leb_le in Hd.
        pose proof (earliest_In _ _ E) as Hin.
        assert (Hs : is_silence t = false).
        { destruct (is_silence t) eqn:Hs; [|reflexivity].
          assert (Hp : In t (silence_pending s))
            by (apply filter_In; split; assumption).
          specialize (Hnone t Hp). lia. }
        pose proof (fire_bound_decreases target t s Hinv Hin Hd) as Hdec.
        pose proof (fire_deadline_inv t s Hinv) as Hinv'.
        pose proof (fire_expiries t s) as Hexp. rewrite Hs, app_nil_r in Hexp.
        assert (Hth : thins (silence_pending s) (silence_pending (fire t s))).
        { unfold silence_pending.
          destruct (fire_timers t s) as [[Hth _] | (Hs' & _)]; [|congruence].
          rewrite <- (silence_after_due_other t s (proj1 Hinv) Hin Hs).
          now apply thins_silence. }
        destruct (IH (fire t s)) as (s' & Hrun & He & Hi & Ht & Hn).
        { exact Hinv'. }
        { intros x Hx. apply Hnone. eapply thins_In; eauto. }
        { lia. }
        exists s'. split; [exact Hrun|]. split; [congruence|].
        split; [exact Hi|]. split; [eapply thins_trans; eauto|].
        rewrite Hn, fire_now. lia.
      * eexists. split; [reflexivity|].
        destruct_state s. repeat split; try apply Hinv. apply thins_refl.
    + eexists. split; [reflexivity|].
      destruct_state s. repeat split; try apply Hinv. apply thins_refl.
Qed.

Lemma advance_expiry (fuel : nat) (target : N) (T : Timer) (s : State) :
  deadline_inv s -> silence_pending s = [T] ->
  (now (clock s) <= due T)%N -> (due T <= target)%N ->
  firings_bound target s <= fuel ->
  (Z.of_nat (firings_bound (due T) s) < timeRemaining (vars s))%Z ->
  exists s', advance_to fuel target s = Some s' /\
    expiries s' = expiries s ++ [(due T, LogSilenceDetected)] /\
    silence_pending s' = [] /\ deadline_inv s'.
Proof.
  revert s. induction fuel as [|f IH];
    intros s Hinv Hpend Hnow Hdue Hb Hbudget.
  - exfalso.
    assert (HT : In T (timers (clock s))).
    { assert (H : In T (silence_pending s)) by (rewrite Hpend; now left).
      apply filter_In in H. tauto. }
    pose proof (fire_bound_decreases target T s Hinv HT Hdue). lia.
  - assert (HT : In T (timers (clock s)) /\ is_silence T = true).
    { assert (H : In T (silence_pending s)) by (rewrite Hpend; now left).
      apply filter_In in H. exact H. }
    destruct HT as [HT HsT].
    simpl. destruct (earliest (timers (clock s))) as [t|] eqn:E;
      [|apply earliest_None in E; rewrite E in HT; destruct HT].
    pose proof (earliest_In _ _ E) as Hin.
    pose proof (earliest_le _ _ E T HT) as Hle.
    assert (Hd : (due t <=? target)%N = true) by (apply N.leb_le; lia).
    rewrite Hd.
    pose proof (fire_bound_decreases target t s Hinv Hin) as Hdec.
    pose proof (fire_deadline_inv t s Hinv) as Hinv'.
    pose proof (fire_expiries t s) as Hexp.
    destruct (is_silence t) eqn:Hs.
    + (* the deadline itself *)
      assert (t = T).
      { assert (H : In t (silence_pending s))
          by (apply filter_In; split; assumption).
        rewrite Hpend in H. destruct H as [H|[]]. now symmetry. }
      subst t.
      assert (Hgone : silence_pending (fire T s) = []).
      { unfold silence_pending.
        pose proof (silence_after_due_self T s (proj2 Hinv) HT HsT) as H0.
        destruct (fire_timers T s) as [[Hth _] | (_ & kept & Hth & Ht & _)].
        - apply thins_silence in Hth. rewrite H0 in Hth.
          now apply thins_nil.
        - rewrite Ht, filter_app. apply thins_silence in Hth.
          rewrite H0 in Hth. apply thins_nil in Hth. now rewrite Hth. }
      destruct (advance_quiet f target (fire T s)) as (s' & Hrun & He & Hi & Ht & _).
      { exact Hinv'. }
      { intros x Hx. rewrite Hgone in Hx. destruct Hx. }
      { specialize (Hdec ltac:(lia)). lia. }
      exists s'. split; [exact Hrun|]. split.
      * rewrite He, Hexp. now replace (N.max (now (clock s)) (due T)) with (due T) by lia.
      * split; [|exact Hi]. rewrite Hgone in Ht. now apply thins_nil.
    + (* another timer, due no later *)
      rewrite app_nil_r in Hexp.
      assert (H2 : 2 <= firings_bound (due T) s).
      { unfold firings_bound.
        pose proof (weight_In (due T) T _ HT) as Hw.
        destruct (proj1 (Forall_forall _ _) (proj2 Hinv) T HT) as (_ & Hper & _).
        assert (Hp : period T = None).
        { destruct Hper as [H|[_ H]]; [exact H|].
          unfold is_silence in HsT. rewrite H in HsT. discriminate. }
        unfold weight at 1 in Hw. rewrite Hp, HsT in Hw. exact Hw. }
      destruct (fire_timers_calm t s Hs) as [Htm Hnt]; [intros _; lia|].
      assert (Hpend' : silence_pending (fire t s) = [T]).
      { unfold silence_pending. rewrite Htm.
        rewrite (silence_after_due_other t s (proj1 Hinv) Hin Hs).
        exact Hpend. }
      destruct (IH (fire t s)) as (s' & Hrun & He & Hg & Hi).
      { exact Hinv'. }
      { exact Hpend'. }
      { rewrite fire_now. lia. }
      { exact Hdue. }
      { specialize (Hdec ltac:(lia)). lia. }
      { pose proof (fire_bound_decreases (due T) t s Hinv Hin Hle).
        pose proof (fire_timeRemaining t s). lia. }
      exists s'. split; [exact Hrun|]. split; [congruence|]. split; assumption.
Qed.

(** *** The timer queue stays well formed *)

Lemma queue_ok_thins (held : option nat) (next : nat) (ts ts' : list Timer) :
  thins ts ts' -> queue_ok held next ts -> queue_ok held next ts'.
Proof.
  intros Hth [Hnd Hok]. split.
  - eapply thins_NoDup; eauto.
  - eapply thins_Forall; eauto.
Qed.

Lemma queue_ok_cancel (held : option nat) (next a : nat) (ts : list Timer) :
  queue_ok held next ts -> queue_ok held next (cancel_timer a ts).
Proof. apply queue_ok_thins. apply thins_cancel, thins_refl. Qed.

Lemma queue_ok_push (held : option nat) (next : nat) (ts : list Timer) (x : Timer) :
  tid x = next -> is_silence x = false ->
  (period x = None \/ (period x = Some 1000%N /\ cb x = CbCountdown)) ->
  queue_ok held next ts -> queue_ok held (S next) (ts ++ [x]).
Proof.
  intros Hid Hs Hp [Hnd Hok]. split.
  - rewrite map_app. simpl.
    rewrite <- (rev_involutive (map tid ts ++ [tid x])).
    apply NoDup_rev. rewrite rev_app_distr. simpl.
    constructor; [|now apply NoDup_rev].
    rewrite <- in_rev. intros Hin. apply in_map_iff in Hin as (y & E & Hy).
    rewrite Forall_forall in Hok. destruct (Hok y Hy) as (Hb & _). lia.
  - apply Forall_app. split.
    + revert Hok. apply Forall_impl. intros y (H1 & H2 & H3).
      repeat split; auto.
    + constructor; [|constructor]. repeat split; [lia|exact Hp|].
      rewrite Hs. discriminate.
Qed.

Lemma queue_silence_cleared (held : option nat) (next : nat) (ts : list Timer) :
  queue_ok held next ts -> filter is_silence (clear_handle held ts) = [].
Proof.
  intros [_ Hok]. rewrite Forall_forall in Hok.
  assert (H : forall x, In x (clear_handle held ts) -> is_silence x = false).
  { intros x Hx. destruct (is_silence x) eqn:Hs; [|reflexivity]. exfalso.
    destruct held as [h|]; simpl in Hx.
    - apply filter_In in Hx as [Hx Hne].
      destruct (Hok x Hx) as (_ & _ & H). specialize (H Hs).
      injection H as ->. now rewrite Nat.eqb_refl in Hne.
    - destruct (Hok x Hx) as (_ & _ & H). specialize (H Hs). discriminate. }
  induction (clear_handle held ts) as [|x l IH]; simpl; [reflexivity|].
  rewrite (H x (or_introl eq_refl)). apply IH. intros y Hy. apply H. now right.
Qed.

Lemma queue_ok_arm (held : option nat) (next : nat) (ts : list Timer) (d : N) :
  queue_ok held next ts ->
  queue_ok (Some next) (S next)
    (clear_handle held ts ++
     [{| tid := next; due := d; cb := CbSilence; period := None |}]).
Proof.
  intros Hq. pose proof (queue_silence_cleared _ _ _ Hq) as Hnone.
  assert (Hq' : queue_ok held next (clear_handle held ts)).
  { destruct held; simpl; [now apply queue_ok_cancel|exact Hq]. }
  destruct Hq' as [Hnd Hok]. split.
  - rewrite map_app. simpl.
    rewrite <- (rev_involutive (map tid (clear_handle held ts) ++ [next])).
    apply NoDup_rev. rewrite rev_app_distr. simpl.
    constructor; [|now apply NoDup_rev].
    rewrite <- in_rev. intros Hin. apply in_map_iff in Hin as (y & E & Hy).
    rewrite Forall_forall in Hok. destruct (Hok y Hy) as (Hb & _). lia.
  - apply Forall_app. split.
    + apply Forall_forall. intros y Hy.
      rewrite Forall_forall in Hok. destruct (Hok y Hy) as (H1 & H2 & _).
      repeat split; [lia|exact H2|].
      intros Hs. exfalso.
      assert (In y (filter is_silence (clear_handle held ts)))
        by (apply filter_In; split; assumption).
      rewrite Hnone in H. destruct H.
    + constructor; [|constructor]. repeat split; [simpl; lia|now left].
Qed.

Ltac queue_tac H :=
  repeat first
    [ exact H
    | apply queue_ok_cancel
    | apply queue_ok_push;
        [ reflexivity | reflexivity
        | first [ left; reflexivity | right; split; reflexivity ] | ] ].

Lemma handle_deadline_inv (e : Event) (s : State) :
  deadline_inv s -> deadline_inv (handle e s).
Proof.
  intros H. destruct e; cbn [handle];
    try (destruct (find_timer id s); [now apply fire_deadline_inv|exact H]).
  2:{ (* a progress event arms the deadline *)
      unfold deadline_inv in *. destruct_state s. exec in H. exec.
      destruct v_st; exec; apply (queue_ok_arm _ _ _ _ H). }
  all: unfold deadline_inv in *; destruct_state s; exec in H; exec.
  all: script_cases; queue_tac H.
Qed.

Lemma loaded_deadline_inv (supported : bool) : deadline_inv (loaded supported).
Proof.
  destruct supported; split; simpl; constructor.
Qed.

Lemma run_deadline_inv (es : list Event) (s : State) :
  deadline_inv s -> deadline_inv (run es s).
Proof.
  revert s. induction es as [|e es IH]; intros s H; simpl; [exact H|].
  apply IH. unfold dispatch. destruct (enabled e s); [|exact H].
  now apply handle_deadline_inv.
Qed.

(** *** Arming and cancelling *)

Lemma onresult_effect (event : ResultEvent) (s : State) :
  let s' := handle (RecOnResult event) s in
  timers (clock s') =
    clear_handle (silenceTimer (vars s)) (timers (clock s)) ++ [armed s] /\
  silenceTimer (vars s') = Some (tid (armed s)) /\
  now (clock s') = now (clock s) /\
  expiries s' = expiries s /\
  timeRemaining (vars s') = timeRemaining (vars s) /\
  recognition (vars s') = recognition (vars s).
Proof.
  destruct_state s. unfold expiries, armed. exec.
  destruct v_st; exec; rewrite !filter_app; cbn [filter is_silence_log snd];
    rewrite !app_nil_r; repeat split.
Qed.

Lemma onresult_pending (event : ResultEvent) (s : State) :
  deadline_inv s ->
  silence_pending (handle (RecOnResult event) s) = [armed s].
Proof.
  intros H. unfold silence_pending.
  destruct (onresult_effect event s) as (Ht & _). rewrite Ht, filter_app.
  now rewrite (queue_silence_cleared _ _ _ H).
Qed.

Lemma stopListening_cancels (s : State) :
  recognition (vars s) = true -> deadline_inv s ->
  let s' := final_state (stopListening s) in
  silence_pending s' = [] /\ deadline_inv s' /\
  expiries s' = expiries s /\ now (clock s') = now (clock s).
Proof.
  intros Hr H. pose proof (queue_silence_cleared _ _ _ H) as Hc.
  unfold silence_pending, deadline_inv, expiries in *.
  destruct_state s. exec in Hr. subst v_rec. exec in H. exec in Hc. exec.
  destruct v_st; exec.
  - split; [exact Hc|]. split; [now apply queue_ok_cancel|].
    split; reflexivity.
  - split; [exact Hc|]. split; [exact H|]. split; reflexivity.
Qed.

(** *** The clock always comes round *)

Lemma advance_total (fuel : nat) (target : N) (s : State) :
  deadline_inv s -> firings_bound target s <= fuel ->
  exists s', advance_to fuel target s = Some s'.
Proof.
  revert s. induction fuel as [|f IH]; intros s Hinv Hb; simpl.
  - destruct (earliest (timers (clock s))) as [t|] eqn:E; [|eauto].
    destruct (due t <=? target)%N eqn:Hd; [|eauto].
    apply N.leb_le in Hd.
    pose proof (fire_bound_decreases target t s Hinv (earliest_In _ _ E) Hd).
    lia.
  - destruct (earliest (timers (clock s))) as [t|] eqn:E; [|eauto].
    destruct (due t <=? target)%N eqn:Hd; [|eauto].
    apply N.leb_le in Hd.
    pose proof (fire_bound_decreases target t s Hinv (earliest_In _ _ E) Hd).
    apply IH; [now apply fire_deadline_inv|lia].
Qed.

Lemma progress_mono (fuel fuel' : nat) (events : list (N * ResultEvent))
    (s s' : State) :
  progress fuel events s = Some s' -> fuel <= fuel' ->
  progress fuel' events s = Some s'.
Proof.
  revert s. induction events as [|[gap ev] rest IH]; intros s H Hle; simpl in *.
  - exact H.
  - destruct (advance_to fuel (now (clock s) + gap) s) as [s0|] eqn:E;
      [|discriminate].
    rewrite (advance_to_mono _ _ _ _ _ E Hle). now apply IH.
Qed.

Lemma progress_unique (f1 f2 : nat) (events : list (N * ResultEvent))
    (s s1 s2 : State) :
  progress f1 events s = Some s1 -> progress f2 events s = Some s2 -> s1 = s2.
Proof.
  intros H1 H2.
  apply (progress_mono _ (Nat.max f1 f2)) in H1; [|lia].
  apply (progress_mono _ (Nat.max f1 f2)) in H2; [|lia].
  congruence.
Qed.

Lemma progress_quiet (events : list (N * ResultEvent)) (s : State) (T : Timer) :
  deadline_inv s -> silence_pending s = [T] ->
  due T = (now (clock s) + 5000)%N ->
  Forall (fun ge => (fst ge < 5000)%N) events ->
  exists fuel s_n, progress fuel events s = Some s_n /\
    now (clock s_n) = (now (clock s) + elapsed events)%N /\
    expiries s_n = expiries s /\ deadline_inv s_n /\
    exists T_n, silence_pending s_n = [T_n] /\
      due T_n = (now (clock s_n) + 5000)%N.
Proof.
  revert s T. induction events as [|[gap ev] rest IH];
    intros s T Hinv Hpend Hdue Hgaps.
  - exists 0, s. unfold elapsed. simpl.
    split; [reflexivity|]. split; [lia|]. split; [reflexivity|].
    split; [exact Hinv|eauto].
  - inversion Hgaps as [|? ? Hgap Hrest]; subst. simpl in Hgap.
    destruct (advance_quiet (firings_bound (now (clock s) + gap) s)
                (now (clock s) + gap) s Hinv) as (s0 & Hrun & He & Hi & _ & Hn).
    { intros x Hx. rewrite Hpend in Hx. destruct Hx as [<-|[]]. lia. }
    { lia. }
    pose proof (onresult_effect ev s0) as (_ & _ & Hn1 & He1 & _).
    destruct (IH (handle (RecOnResult ev) s0) (armed s0))
      as (fuel & s_n & Hp & Hnn & Hen & Hin & HT).
    { now apply handle_deadline_inv. }
    { now apply onresult_pending. }
    { unfold armed. cbn [due]. now rewrite Hn1. }
    { exact Hrest. }
    exists (Nat.max fuel (firings_bound (now (clock s) + gap) s)), s_n.
    split.
    { simpl.
      rewrite (advance_to_mono _ _ _ _ _ Hrun (Nat.le_max_r _ _)).
      apply (progress_mono _ _ _ _ _ Hp (Nat.le_max_l _ _)). }
    split.
    { rewrite Hnn, Hn1, Hn. unfold elapsed. simpl. lia. }
    split; [congruence|]. split; assumption.
Qed.

(** C2.  From a state with a well-formed timer queue, let a progress event
    be delivered, followed by further progress events each less than
    5000 ms after the one before.  Then, with enough fuel, the run
    completes, and at its end: the expiry closure has not run during the
    sequence; exactly one silence deadline is pending, due 5000 ms after
    the last event (every earlier one was cancelled when the next event
    armed its own).  If the clock then runs on for [D] ms, the run
    completes, and: for [D] below 5000 the closure has still not run; for
    [D] of 5000 or more it has run exactly once, at the deadline, and no
    deadline is pending any more, provided the session countdown (whose
    running out ends the session and cancels the deadline) has more ticks
    left than timers can fire up to the deadline.  And if capture is
    stopped instead, no deadline is pending and the closure never runs,
    however long the clock runs. *)
Theorem silence_deadline_fires_once (s : State) (event : ResultEvent)
    (events : list (N * ResultEvent)) :
  deadline_inv s ->
  Forall (fun ge => (fst ge < 5000)%N) events ->
  let s1 := handle (RecOnResult event) s in
  (exists fuel s_n, progress fuel events s1 = Some s_n) /\
  forall fuel s_n, progress fuel events s1 = Some s_n ->
    let deadline := (now (clock s_n) + 5000)%N in
    now (clock s_n) = (now (clock s) + elapsed events)%N /\
    expiries s_n = expiries s /\
    deadline_inv s_n /\
    (exists T, silence_pending s_n = [T] /\ due T = deadline) /\
    (forall D, exists fuel' s',
       advance_to fuel' (now (clock s_n) + D) s_n = Some s') /\
    (forall D fuel' s',
       advance_to fuel' (now (clock s_n) + D) s_n = Some s' ->
       ((D < 5000)%N -> expiries s' = expiries s) /\
       ((5000 <= D)%N ->
        (Z.of_nat (firings_bound deadline s_n) < timeRemaining (vars s_n))%Z ->
        expiries s' = expiries s ++ [(deadline, LogSilenceDetected)] /\
        silence_pending s' = [])) /\
    (recognition (vars s_n) = true ->
     let s_c := final_state (stopListening s_n) in
     silence_pending s_c = [] /\
     (forall D, exists fuel' s',
        advance_to fuel' (now (clock s_c) + D) s_c = Some s') /\
     forall D fuel' s',
       advance_to fuel' (now (clock s_c) + D) s_c = Some s' ->
       expiries s' = expiries s).
Proof.
  intros Hinv Hgaps s1.
  pose proof (handle_deadline_inv (RecOnResult event) s Hinv) as Hinv1.
  pose proof (onresult_pending event s Hinv) as Hpend1.
  pose proof (onresult_effect event s) as (_ & _ & Hnow1 & Hexp1 & _).
  fold s1 in Hinv1, Hpend1, Hnow1, Hexp1.
  destruct (progress_quiet events s1 (armed s) Hinv1 Hpend1)
    as (fuel0 & sn0 & Hp0 & Hnow & Hexp & Hinvn & Tn & Hpn & Hdn);
    [unfold armed; cbn [due]; now rewrite Hnow1 | exact Hgaps |].
  split; [eauto|].
  intros fuel s_n Hp deadline.
  assert (s_n = sn0) by (eapply progress_unique; eauto). subst s_n.
  split; [now rewrite Hnow, Hnow1|].
  split; [congruence|].
  split; [exact Hinvn|].
  split; [eauto|].
  split.
  { intros D. eexists. eapply advance_total; [exact Hinvn|reflexivity]. }
  split.
  { intros D fuel' s' Hrun. split.
    - intros HD.
      destruct (advance_quiet (firings_bound (now (clock sn0) + D) sn0)
                  (now (clock sn0) + D) sn0 Hinvn)
        as (s'' & Hrun' & He & _); [|reflexivity|].
      { intros x Hx. rewrite Hpn in Hx. destruct Hx as [<-|[]]. lia. }
      rewrite (advance_to_unique _ _ _ _ _ _ Hrun Hrun'). congruence.
    - intros HD Hbudget.
      destruct (advance_expiry (firings_bound (now (clock sn0) + D) sn0)
                  (now (clock sn0) + D) Tn sn0 Hinvn Hpn)
        as (s'' & Hrun' & He & Hg & _); try lia.
      { now rewrite Hdn. }
      rewrite (advance_to_unique _ _ _ _ _ _ Hrun Hrun').
      split; [|exact Hg]. subst deadline.
      rewrite He, Hdn, Hexp, Hexp1. reflexivity. }
  intros Hrec s_c.
  destruct (stopListening_cancels sn0 Hrec Hinvn) as (Hc & Hic & Hec & _).
  fold s_c in Hc, Hic, Hec.
  split; [exact Hc|]. split.
  { intros D. eexists. eapply advance_total; [exact Hic|reflexivity]. }
  intros D fuel' s' Hrun.
  destruct (advance_quiet (firings_bound (now (clock s_c) + D) s_c)
              (now (clock s_c) + D) s_c Hic)
    as (s'' & Hrun' & He & _); [|reflexivity|].
  { intros x Hx. rewrite Hc in Hx. destruct Hx. }
  rewrite (advance_to_unique _ _ _ _ _ _ Hrun Hrun'). congruence.
Qed.

Lemma silence_deadline_fires_once_witness :
  exists s_n s_early s_late,
    progress 20 two_progress_events
      (handle (RecOnResult hello_final) session_listening) = Some s_n /\
    now (clock s_n) = 4000%N /\
    advance_to 20 (now (clock s_n) + 4999) s_n = Some s_early /\
    expiries s_early = [] /\
    advance_to 20 (now (clock s_n) + 7000) s_n = Some s_late /\
    expiries s_late = [(9000%N, LogSilenceDetected)] /\
    silence_pending s_late = [] /\
    silence_pending (final_state (stopListening s_n)) = [].
Proof.
  assert (Hinv : deadline_inv session_listening)
    by (apply run_deadline_inv, loaded_deadline_inv).
  assert (Hgaps : Forall (fun ge => (fst ge < 5000)%N) two_progress_events)
    by (repeat constructor).
  destruct (silence_deadline_fires_once session_listening hello_final
              two_progress_events Hinv Hgaps) as [_ H].
  destruct (progress 20 two_progress_events
              (handle (RecOnResult hello_final) session_listening))
    as [s_n|] eqn:Hp; [|vm_compute in Hp; discriminate].
  specialize (H 20 s_n Hp). cbv zeta in H.
  destruct H as (Hn & He & _ & _ & _ & Hfire & Hstop).
  vm_compute in Hp. injection Hp as Hp.
  destruct (advance_to 20 (now (clock s_n) + 4999) s_n) as [s_early|] eqn:Ha;
    [|subst s_n; vm_compute in Ha; discriminate].
  destruct (advance_to 20 (now (clock s_n) + 7000) s_n) as [s_late|] eqn:Hb;
    [|subst s_n; vm_compute in Hb; discriminate].
  exists s_n, s_early, s_late.
  assert (Hnow : now (clock s_n) = 4000%N) by (subst s_n; reflexivity).
  split; [reflexivity|]. split; [exact Hnow|].
  split; [exact Ha|].
  destruct (Hfire 4999%N 20 s_early Ha) as [Hearly _].
  split; [rewrite Hearly by lia; reflexivity|].
  split; [exact Hb|].
  destruct (Hfire 7000%N 20 s_late Hb) as [_ Hlate].
  destruct Hlate as [Hx Hg]; [lia|subst s_n; vm_compute; reflexivity|].
  split; [rewrite Hx, Hnow; reflexivity|].
  split; [exact Hg|].
  apply Hstop. subst s_n. reflexivity.
Defined.

(* ================================================================== *)
(** ** Capture that is not resumed (lines 187-218, 239-252) *)

(** *** What a calm timer leaves alone *)

Lemma fire_flag_clear (t : Timer) (s : State) :
  isListening (vars s) = false -> calm t ->
  isListening (vars (fire t s)) = false /\ attempts (fire t s) = attempts s.
Proof.
  unfold calm, is_silence, attempts. destruct_state s. intros Hl.
  exec in Hl. subst v_lis.
  fire_cases t; exec; intros [H1 H2]; try discriminate.
  all: script_cases; try (repeat split; fail).
  all: rewrite ?filter_app, ?length_app; cbn [filter is_start List.length];
    split; try reflexivity; try lia.
Qed.

Lemma after_due_calm (t : Timer) (s : State) :
  Forall calm (timers (clock s)) -> Forall calm (after_due t s).
Proof.
  intros H. unfold after_due. destruct (period t).
  - apply Forall_forall. intros x Hx. apply in_map_iff in Hx as (y & <- & Hy).
    rewrite Forall_forall in H. specialize (H y Hy).
    destruct (tid y =? tid t); [|exact H].
    exact H.
  - eapply thins_Forall; [|exact H]. apply thins_cancel, thins_refl.
Qed.

Lemma fire_capture_off (a : nat) (t : Timer) (s : State) :
  capture_off a s -> In t (timers (clock s)) -> capture_off a (fire t s).
Proof.
  intros (Hl & Ha & Hc) Hin.
  assert (Ht : calm t) by (rewrite Forall_forall in Hc; auto).
  destruct (fire_flag_clear t s Hl Ht) as [H1 H2].
  split; [exact H1|]. split; [congruence|].
  destruct (fire_timers t s) as [[Hth _]|[Hs _]].
  - eapply thins_Forall; [exact Hth|]. now apply after_due_calm.
  - destruct Ht as [_ Ht]. congruence.
Qed.

Lemma advance_capture_off (a : nat) (fuel : nat) (target : N) (s s' : State) :
  capture_off a s -> advance_to fuel target s = Some s' -> capture_off a s'.
Proof.
  revert s. induction fuel as [|f IH]; intros s Hw H; simpl in H.
  - destruct (earliest (timers (clock s))) as [t|];
      [destruct (due t <=? target)%N; [discriminate|]|];
      injection H as <-; destruct_state s; exact Hw.
  - destruct (earliest (timers (clock s))) as [t|] eqn:E;
      [destruct (due t <=? target)%N eqn:Hd|];
      try (injection H as <-; destruct_state s; exact Hw).
    apply (IH (fire t s)); [|exact H].
    apply fire_capture_off; [exact Hw|]. now apply earliest_In in E.
Qed.

(** *** The resume timer and the end of the engine *)

Lemma filter_nil_Forall {A} (f : A -> bool) (l : list A) :
  filter f l = [] -> Forall (fun x => f x = false) l.
Proof.
  induction l as [|x l IH]; simpl; intros H; [constructor|].
  destruct (f x) eqn:E; [discriminate|]. constructor; auto.
Qed.

Lemma calm_cancel (a : nat) (ts : list Timer) :
  Forall calm ts -> Forall calm (cancel_timer a ts).
Proof.
  intros H. eapply thins_Forall; [|exact H]. apply thins_cancel, thins_refl.
Qed.

Lemma cancel_last (x : Timer) (ts : list Timer) :
  cancel_timer (tid x) (ts ++ [x]) = cancel_timer (tid x) ts.
Proof.
  unfold cancel_timer. rewrite filter_app. cbn [filter].
  rewrite Nat.eqb_refl. cbn [negb]. apply app_nil_r.
Qed.

(** The timers left when a silence deadline has expired with nothing to
    send and its resume timer has fired. *)
Lemma silence_expiry_calm (t : Timer) (s : State) :
  cb t = CbSilence -> period t = None ->
  deadline_inv s -> In t (timers (clock s)) ->
  Forall (fun x => resumes_capture (cb x) = false) (timers (clock s)) ->
  Forall calm (cancel_timer (tid (resume_after_silence t s))
                 (timers (clock (fire t s)))).
Proof.
  intros Hc Hp Hinv Hin Hno.
  assert (Hs : is_silence t = true) by (unfold is_silence; now rewrite Hc).
  destruct (fire_timers t s) as [[Hth Hn]|(_ & kept & Hth & Hk & _)].
  - apply calm_cancel.
    pose proof (silence_after_due_self t s (proj2 Hinv) Hin Hs) as Hnil.
    pose proof (thins_silence _ _ Hth) as H1. rewrite Hnil in H1.
    apply thins_nil in H1. apply filter_nil_Forall in H1.
    assert (H2 : Forall (fun x => resumes_capture (cb x) = false)
                   (timers (clock (fire t s)))).
    { eapply thins_Forall; [exact Hth|]. unfold after_due. rewrite Hp.
      eapply thins_Forall; [|exact Hno]. apply thins_cancel, thins_refl. }
    rewrite Forall_forall in *. intros x Hx. split; auto.
  - rewrite Hk, cancel_last. apply calm_cancel.
    pose proof (silence_after_due_self t s (proj2 Hinv) Hin Hs) as Hnil.
    pose proof (thins_silence _ _ Hth) as H1. rewrite Hnil in H1.
    apply thins_nil in H1. apply filter_nil_Forall in H1.
    assert (H2 : Forall (fun x => resumes_capture (cb x) = false) kept).
    { eapply thins_Forall; [exact Hth|]. unfold after_due. rewrite Hp.
      eapply thins_Forall; [|exact Hno]. apply thins_cancel, thins_refl. }
    rewrite Forall_forall in *. intros x Hx. split; auto.
Qed.

Lemma silence_expiry_state (t : Timer) (s : State) :
  cb t = CbSilence -> period t = None ->
  trim (finalTranscript (vars s)) = [] ->
  recognition (vars s) = true -> unloaded (page s) = false ->
  recState (recog s) <> RecIdle ->
  let s1 := fire t s in
  let r := resume_after_silence t s in
  let s2 := fire r s1 in
  let s3 := dispatch RecOnEnd s2 in
  attempts s2 = S (attempts s) /\
  recState (recog s2) = RecStopping /\
  console s2 = console s1 ++ [(due r, LogErrorStarting InvalidStateError)] /\
  timers (clock s2) = cancel_timer (tid r) (timers (clock s1)) /\
  isListening (vars s3) = false /\
  recState (recog s3) = RecIdle /\
  timers (clock s3) = timers (clock s2) /\
  requests (net s3) = requests (net s) /\
  pending (net s3) = pending (net s) /\
  queue (synth s3) = queue (synth s).
Proof.
  intros Hc Hp H Hr Hu Hidle. unfold resume_after_silence, attempts.
  destruct t as [t_id t_due t_cb t_per]. cbn [cb period] in Hc, Hp.
  subst t_cb t_per.
  destruct_state s. exec in H. exec in Hr. exec in Hu. exec in Hidle. subst.
  exec. rewrite H. cbn [is_empty]. exec.
  assert (Hmax : (N.max (N.max k_now t_due) (N.max k_now t_due + 500) =
                  N.max k_now t_due + 500)%N) by lia.
  destruct v_st, r_st; exec; try congruence;
    rewrite ?filter_app, ?length_app; cbn [filter is_start List.length];
    rewrite ?Hmax; repeat split; try reflexivity; try lia.
Qed.

(** C3, on the code.  When the silence deadline expires and the trimmed
    finalized transcript is empty, no request is issued to the
    conversation service, nothing is spoken or shown, and a timer is armed
    500 ms ahead that calls [startListening] (line 250).  Whether the
    script returns to listening is a race between that timer and the
    engine.  If the engine has reported its end when the timer fires, a
    new capture attempt starts and the engine's start event makes the
    script listen again.  If the engine, stopped by [stopListening], has
    not reported its end yet, [recognition.start()] throws, the error is
    caught and logged, and nothing is armed to try again: after the end
    event the engine is idle and [isListening] is false, and, no other
    timer pending that would start capture, however long the clock runs
    no further attempt is made. *)
Theorem silence_with_nothing_said (t : Timer) (s : State) :
  cb t = CbSilence -> period t = None ->
  trim (finalTranscript (vars s)) = [] ->
  let s1 := fire t s in
  let r := resume_after_silence t s in
  (requests (net s1) = requests (net s) /\
   pending (net s1) = pending (net s) /\
   queue (synth s1) = queue (synth s) /\
   chat (page s1) = chat (page s) /\
   exists kept, timers (clock s1) = kept ++ [r]) /\
  (recognition (vars s) = true -> unloaded (page s) = false ->
   let s2 := dispatch RecOnEnd s1 in
   let s3 := fire r s2 in
   let s4 := dispatch RecOnStart s3 in
   isListening (vars s1) = false /\
   attempts s3 = S (attempts s) /\
   recState (recog s3) = RecStarting /\
   isListening (vars s4) = true /\
   recState (recog s4) = RecRunning /\
   requests (net s4) = requests (net s)) /\
  (recognition (vars s) = true -> unloaded (page s) = false ->
   recState (recog s) <> RecIdle ->
   let s2 := fire r s1 in
   let s3 := dispatch RecOnEnd s2 in
   attempts s2 = S (attempts s) /\
   recState (recog s2) = RecStopping /\
   console s2 = console s1 ++ [(due r, LogErrorStarting InvalidStateError)] /\
   isListening (vars s3) = false /\
   recState (recog s3) = RecIdle /\
   timers (clock s3) = cancel_timer (tid r) (timers (clock s1)) /\
   requests (net s3) = requests (net s) /\
   (deadline_inv s -> In t (timers (clock s)) ->
    Forall (fun x => resumes_capture (cb x) = false) (timers (clock s)) ->
    forall target,
      (exists s', advance_to (firings_bound target s3) target s3 = Some s') /\
      (forall fuel s', advance_to fuel target s3 = Some s' ->
         isListening (vars s') = false /\ attempts s' = S (attempts s)))).
Proof.
  intros Hc Hp H s1 r.
  destruct (silence_expiry_in_order t s Hc Hp H) as [H1 H2].
  split; [exact H1|]. split; [exact H2|].
  intros Hr Hu Hidle s2 s3.
  destruct (silence_expiry_state t s Hc Hp H Hr Hu Hidle)
    as (Ha & Hst & Hcon & Hts2 & Hl & Hst3 & Hts3 & Hrq & _).
  fold s1 r s2 s3 in Ha, Hst, Hcon, Hts2, Hl, Hst3, Hts3, Hrq.
  repeat (split; [first [assumption | congruence]|]).
  intros Hinv Hin Hno target.
  assert (Hinv3 : deadline_inv s3).
  { subst s3 s2 s1. unfold dispatch.
    match goal with |- context [if ?c then _ else _] => destruct c end.
    - apply handle_deadline_inv. now repeat apply fire_deadline_inv.
    - now repeat apply fire_deadline_inv. }
  split; [now apply advance_total|].
  intros fuel s' Hadv.
  assert (Hoff : capture_off (S (attempts s)) s3).
  { split; [exact Hl|]. split.
    - subst s3. unfold dispatch.
      match goal with |- context [if ?c then _ else _] => destruct c eqn:E end;
        [|exact Ha].
      rewrite <- Ha. unfold attempts. destruct_state s2. exec. exec in E.
      destruct v_lis; reflexivity.
    - rewrite Hts3, Hts2.
      exact (silence_expiry_calm t s Hc Hp Hinv Hin Hno). }
  destruct (advance_capture_off _ _ _ _ _ Hoff Hadv) as (Hl' & Ha' & _).
  split; assumption.
Qed.

Lemma silence_with_nothing_said_witness :
  let t := {| tid := 3; due := 5500; cb := CbSilence; period := None |} in
  let s := handle (RecOnResult interim_only) session_listening in
  let r := resume_after_silence t s in
  In t (timers (clock s)) /\
  requests (net (fire t s)) = [ReqStart] /\
  isListening (vars (dispatch RecOnStart
     (fire r (dispatch RecOnEnd (fire t s))))) = true /\
  (forall fuel s',
     advance_to fuel 400000 (dispatch RecOnEnd (fire r (fire t s))) = Some s' ->
     isListening (vars s') = false /\ attempts s' = 2) /\
  exists s', play 100 late_end_trace session_listening = Some s' /\
    now (clock s') = 66000%N /\
    isListening (vars s') = false /\ recState (recog s') = RecIdle /\
    attempts s' = 2 /\
    requests (net s') = [ReqStart] /\
    map cb (timers (clock s')) = [CbCountdown].
Proof.
  intros t s r.
  assert (Hin : In t (timers (clock s))) by (vm_compute; auto).
  split; [exact Hin|].
  pose proof (silence_with_nothing_said t s eq_refl eq_refl eq_refl)
    as (H1 & H2 & H3).
  split; [exact (proj1 H1)|].
  split; [exact (proj1 (proj2 (proj2 (proj2 (H2 eq_refl eq_refl)))))|].
  split.
  - assert (Hidle : recState (recog s) <> RecIdle) by (vm_compute; discriminate).
    destruct (H3 eq_refl eq_refl Hidle) as (_ & _ & _ & _ & _ & _ & _ & H4).
    intros fuel s' Hadv.
    assert (Hinv : deadline_inv s)
      by apply handle_deadline_inv, run_deadline_inv, loaded_deadline_inv.
    assert (Hno : Forall (fun x => resumes_capture (cb x) = false)
                    (timers (clock s)))
      by (vm_compute; repeat constructor).
    destruct (H4 Hinv Hin Hno 400000%N) as [_ H5].
    exact (H5 fuel s' Hadv).
  - eexists. split; [vm_compute; reflexivity|].
    vm_compute. repeat split.
Defined.

(** *** The completion of an utterance and the end of the engine *)

Lemma completion_before_end (text : Value) (callback : option SpeakCallback)
    (failed : bool) (s : State) :
  truthy text = true -> recognition (vars s) = true ->
  unloaded (page s) = false -> recState (recog s) <> RecIdle ->
  let s1 := final_state (speak text callback s) in
  let s2 := dispatch (completion failed (nextUid (synth s))) s1 in
  let T := completion_timer failed callback s1 in
  let s3 := fire T s2 in
  let s4 := dispatch RecOnEnd s3 in
  attempts s3 = S (attempts s) /\
  recState (recog s3) = RecStopping /\
  In (due T, LogErrorStarting InvalidStateError) (console s3) /\
  isListening (vars s4) = false /\
  recState (recog s4) = RecIdle /\
  attempts s4 = S (attempts s) /\
  timers (clock s4) =
    cancel_timer (tid T)
      (clear_handle (silenceTimer (vars s)) (timers (clock s)) ++ [T]) /\
  queue (synth s4) = [] /\ net s4 = net s.
Proof.
  intros Ht Hr Hu Hidle s1 s2 T s3 s4.
  freeze s4. freeze s3. freeze T. freeze s2. freeze s1.
  rewrite (speak_truthy _ _ Ht) in *.
  destruct_state s. exec in Hr. exec in Hu. exec in Hidle. subst v_rec p_unl.
  unfold completion, completion_timer in *.
  destruct v_st; exec in Es1; subst s1; exec in ET;
    destruct failed; exec in Es2; subst s2 T.
  all: destruct callback as [[]|], r_st; try congruence; exec in Es3; subst s3;
    exec in Es4; subst s4.
  all: unfold attempts, clear_handle.
  all: exec.
  all: rewrite ?filter_app, ?length_app;
      cbn [List.length filter is_start snd app].
  all: assert (Hmax : (N.max k_now (k_now + 500) = k_now + 500)%N) by lia;
    rewrite ?Hmax.
  all: repeat split; try reflexivity; try lia.
  all: try (apply in_or_app; right; left; reflexivity).
  all: try (apply in_or_app; left; apply in_or_app; right; left; reflexivity).
Qed.

Lemma speech_stop_calm (T : Timer) (s : State) :
  deadline_inv s ->
  Forall (fun x => resumes_capture (cb x) = false) (timers (clock s)) ->
  Forall calm
    (cancel_timer (tid T)
       (clear_handle (silenceTimer (vars s)) (timers (clock s)) ++ [T])).
Proof.
  intros Hinv Hno. rewrite cancel_last. apply calm_cancel.
  pose proof (queue_silence_cleared _ _ _ Hinv) as Hnil.
  apply filter_nil_Forall in Hnil.
  assert (H2 : Forall (fun x => resumes_capture (cb x) = false)
                 (clear_handle (silenceTimer (vars s)) (timers (clock s)))).
  { unfold clear_handle. destruct (silenceTimer (vars s)); [|exact Hno].
    eapply thins_Forall; [|exact Hno]. apply thins_cancel, thins_refl. }
  rewrite Forall_forall in *. intros x Hx. split; auto.
Qed.

Lemma dispatch_deadline_inv (e : Event) (s : State) :
  deadline_inv s -> deadline_inv (dispatch e s).
Proof.
  intros H. unfold dispatch. destruct (enabled e s); [|exact H].
  now apply handle_deadline_inv.
Qed.

Lemma speak_deadline_inv (text : Value) (callback : option SpeakCallback)
    (s : State) :
  deadline_inv s -> deadline_inv (final_state (speak text callback s)).
Proof.
  intros H. unfold deadline_inv in *. destruct_state s. exec in H. exec.
  script_cases; queue_tac H.
Qed.

(** C6, on the code.  [speak] on an empty (falsy) text returns at once
    and changes nothing, so that no completion is ever delivered.  On any
    other text it stops capture and queues exactly one utterance [u].
    When the platform reports [u] over, by its [end] or by its [error]
    event, exactly one closure is armed 500 ms ahead and [u] leaves the
    queue; when the closure runs the completion callback has run exactly
    once.  Whether capture is resumed is a race between that closure and
    the engine.  If the engine has reported its end when the closure
    runs, one capture attempt starts and the start event makes the script
    listen.  If the engine, stopped by [speak], has not reported its end
    yet, [recognition.start()] throws, the error is caught and logged,
    and nothing is armed to try again: after the end event the engine is
    idle and [isListening] is false, and, no other timer pending that
    would start capture, however long the clock runs no further attempt
    is made. *)
Theorem speak_completes_once (text : Value) (callback : option SpeakCallback)
    (failed : bool) (s : State) :
  (truthy text = false -> speak text callback s = Ok tt s) /\
  (truthy text = true ->
   let u := {| uid := nextUid (synth s); utext := text; ucallback := callback |} in
   let s1 := final_state (speak text callback s) in
   let s2 := dispatch (completion failed (uid u)) s1 in
   let T := completion_timer failed callback s1 in
   let s3 := fire T s2 in
   (speak text callback s = Ok tt s1 /\ queue (synth s1) = [u] /\
    notifications s1 = notifications s) /\
   (unloaded (page s) = false ->
    timers (clock s2) = timers (clock s1) ++ [T] /\
    queue (synth s2) = [] /\
    enabled (completion false (uid u)) s2 = false /\
    enabled (completion true (uid u)) s2 = false /\
    notifications s2 = notifications s /\
    notifications s3 = notifications s + expected_notifications callback /\
    (recognition (vars s) = true ->
     let s3' := fire T (dispatch RecOnEnd s2) in
     isListening (vars s2) = false /\
     attempts s3' = S (attempts s) /\
     recState (recog s3') = RecStarting /\
     isListening (vars (dispatch RecOnStart s3')) = true) /\
    (recognition (vars s) = true -> recState (recog s) <> RecIdle ->
     let s4 := dispatch RecOnEnd s3 in
     attempts s3 = S (attempts s) /\
     recState (recog s3) = RecStopping /\
     In (due T, LogErrorStarting InvalidStateError) (console s3) /\
     isListening (vars s4) = false /\
     recState (recog s4) = RecIdle /\
     queue (synth s4) = [] /\ net s4 = net s /\
     (deadline_inv s ->
      Forall (fun x => resumes_capture (cb x) = false) (timers (clock s)) ->
      forall target,
        (exists s', advance_to (firings_bound target s4) target s4 = Some s') /\
        (forall fuel s', advance_to fuel target s4 = Some s' ->
           isListening (vars s') = false /\ attempts s' = S (attempts s)))))).
Proof.
  destruct (speak_completion_in_order text callback failed s) as [H0 H1].
  split; [exact H0|].
  intros Ht u s1 s2 T s3.
  specialize (H1 Ht). cbv zeta in H1. fold u s1 s2 T s3 in H1.
  destruct H1 as [HA HB].
  split; [exact HA|].
  intros Hu. specialize (HB Hu).
  destruct HB as (B1 & B2 & B3 & B4 & B5 & B6 & B7).
  repeat (split; [assumption|]).
  intros Hr Hidle s4.
  destruct (completion_before_end text callback failed s Ht Hr Hu Hidle)
    as (Ha & Hst & Hlog & Hl & Hst4 & Ha4 & Hts & Hq & Hn).
  fold s1 s2 T s3 s4 in Ha, Hst, Hlog, Hl, Hst4, Ha4, Hts, Hq, Hn.
  repeat (split; [assumption|]).
  intros Hinv Hno target.
  assert (Hinv4 : deadline_inv s4).
  { subst s4 s3 s2 s1. apply dispatch_deadline_inv, fire_deadline_inv,
      dispatch_deadline_inv, speak_deadline_inv, Hinv. }
  split; [now apply advance_total|].
  intros fuel s' Hadv.
  assert (Hoff : capture_off (S (attempts s)) s4).
  { split; [exact Hl|]. split; [exact Ha4|].
    assert (E : timers (clock s4) =
              cancel_timer (tid T)
                (clear_handle (silenceTimer (vars s)) (timers (clock s)) ++ [T]))
      by exact Hts.
    rewrite E. now apply speech_stop_calm. }
  destruct (advance_capture_off _ _ _ _ _ Hoff Hadv) as (Hl' & Ha' & _).
  split; assumption.
Qed.

Lemma speak_completes_once_witness :
  let s := handle (FetchSettled 0 (start_reply (VStr (lit "Hi"))))
                  (handle ClickStart (loaded true)) in
  let s1 := final_state (speak (VStr (lit "Hello")) None session_listening) in
  let T := completion_timer true None s1 in
  speak (VStr []) None s = Ok tt s /\
  notifications (fire (completion_timer false (Some ReadyAfterGreeting) s)
                      (dispatch (UtteranceEnd 0) s)) = 1 /\
  notifications (fire (completion_timer true (Some ReadyAfterGreeting) s)
                      (dispatch (UtteranceError 0) s)) = 1 /\
  isListening (vars (dispatch RecOnStart
    (fire (completion_timer false (Some ReadyAfterGreeting) s)
          (dispatch RecOnEnd (dispatch (UtteranceEnd 0) s))))) = true /\
  (forall fuel s',
     advance_to fuel 400000
       (dispatch RecOnEnd (fire T (dispatch (UtteranceError 1) s1))) = Some s' ->
     isListening (vars s') = false /\ attempts s' = 2) /\
  exists s', play 100 speech_error_trace session_listening = Some s' /\
    now (clock s') = 66200%N /\
    isListening (vars s') = false /\ recState (recog s') = RecIdle /\
    attempts s' = 2 /\ queue (synth s') = [] /\ pending (net s') = [] /\
    map cb (timers (clock s')) = [CbCountdown].
Proof.
  intros s s1 T.
  split; [|split; [|split; [|split; [|split]]]].
  - apply (proj1 (speak_completes_once (VStr []) None false s)). reflexivity.
  - pose proof (proj2 (speak_completes_once (VStr (lit "Hi"))
        (Some ReadyAfterGreeting) false (handle ClickStart (loaded true)))
        eq_refl) as H.
    cbv zeta in H. destruct H as [_ H]. specialize (H eq_refl).
    exact (proj1 (proj2 (proj2 (proj2 (proj2 (proj2 H)))))).
  - pose proof (proj2 (speak_completes_once (VStr (lit "Hi"))
        (Some ReadyAfterGreeting) true (handle ClickStart (loaded true)))
        eq_refl) as H.
    cbv zeta in H. destruct H as [_ H]. specialize (H eq_refl).
    exact (proj1 (proj2 (proj2 (proj2 (proj2 (proj2 H)))))).
  - pose proof (proj2 (speak_completes_once (VStr (lit "Hi"))
        (Some ReadyAfterGreeting) false (handle ClickStart (loaded true)))
        eq_refl) as H.
    cbv zeta in H. destruct H as [_ H]. specialize (H eq_refl).
    pose proof (proj1 (proj2 (proj2 (proj2 (proj2 (proj2 (proj2 H))))))
                  eq_refl) as H'.
    exact (proj2 (proj2 (proj2 H'))).
  - pose proof (proj2 (speak_completes_once (VStr (lit "Hello")) None true
        session_listening) eq_refl) as H.
    cbv zeta in H. destruct H as [_ H]. specialize (H eq_refl).
    assert (Hidle : recState (recog session_listening) <> RecIdle)
      by (vm_compute; discriminate).
    pose proof (proj2 (proj2 (proj2 (proj2 (proj2 (proj2 (proj2 H))))))
                  eq_refl Hidle) as (_ & _ & _ & _ & _ & _ & _ & H').
    assert (Hinv : deadline_inv session_listening)
      by apply run_deadline_inv, loaded_deadline_inv.
    assert (Hno : Forall (fun x => resumes_capture (cb x) = false)
                    (timers (clock session_listening)))
      by (vm_compute; repeat constructor).
    intros fuel s' Hadv.
    exact (proj2 (H' Hinv Hno 400000%N) fuel s' Hadv).
  - eexists. split; [vm_compute; reflexivity|].
    vm_compute. repeat split.
Defined.

(* ================================================================== *)
(** ** Further properties *)

Lemma advance_to_deadline_inv (fuel : nat) (target : N) (s s' : State) :
  deadline_inv s -> advance_to fuel target s = Some s' -> deadline_inv s'.
Proof.
  revert s. induction fuel as [|f IH]; intros s Hinv H; simpl in H.
  - destruct (earliest (timers (clock s))) as [t|];
      [destruct (due t <=? target)%N; [discriminate|]|];
      injection H as <-; destruct_state s; exact Hinv.
  - destruct (earliest (timers (clock s))) as [t|];
      [destruct (due t <=? target)%N|].
    + eapply IH; [|exact H]. now apply fire_deadline_inv.
    + injection H as <-. destruct_state s. exact Hinv.
    + injection H as <-. destruct_state s. exact Hinv.
Qed.

Lemma play_deadline_inv (fuel : nat) (steps : list Step) (s s' : State) :
  deadline_inv s -> play fuel steps s = Some s' -> deadline_inv s'.
Proof.
  revert s. induction steps as [|[e|dt] rest IH]; intros s Hinv H; simpl in H.
  - now injection H as <-.
  - destruct (enabled e s); [|discriminate].
    eapply IH; [|exact H]. now apply handle_deadline_inv.
  - unfold wait in H. destruct (unloaded (page s)).
    + eapply IH; eassumption.
    + destruct (advance_to fuel (now (clock s) + dt) s) as [s0|] eqn:E;
        [|discriminate].
      eapply IH; [|exact H]. eapply advance_to_deadline_inv; eassumption.
Qed.

Lemma queue_one_silence (held : option nat) (next : nat) (ts : list Timer) :
  queue_ok held next ts -> List.length (filter is_silence ts) <= 1.
Proof.
  intros [Hnd Hok].
  pose proof (NoDup_map_filter is_silence ts Hnd) as Hnd'.
  assert (Hall : forall x, In x (filter is_silence ts) -> held = Some (tid x)).
  { intros x Hx. apply filter_In in Hx as [Hx Hs].
    rewrite Forall_forall in Hok. now apply (Hok x Hx). }
  destruct (filter is_silence ts) as [|a [|b l]]; simpl; [lia|lia|].
  exfalso. inversion Hnd' as [|? ? Hnin _]; subst. apply Hnin.
  pose proof (Hall a (or_introl eq_refl)) as Ha.
  pose proof (Hall b (or_intror (or_introl eq_refl))) as Hb.
  left. congruence.
Qed.

(** X1.  The automatic restarts never restart capture.  The closure armed
    by [onend] (100 ms) and the one armed by [onerror] (1000 ms) call
    [startListening] only when [isListening] is set, and [startListening]
    returns at once when [isListening] is set: in every state each closure
    leaves the state as it is.  So when the engine ends on its own during
    listening, the flag stays set, the engine stays idle, and ten seconds
    later no capture attempt has been made. *)
Theorem automatic_restart_never_restarts (s : State) :
  run_callback CbEndRestart s = Ok tt s /\
  run_callback CbErrorRestart s = Ok tt s /\
  exists s', play 20 [Deliver RecOnEnd; Elapse 10000] session_listening = Some s' /\
    isListening (vars s') = true /\ recState (recog s') = RecIdle /\
    attempts s' = attempts session_listening.
Proof.
  split; [apply restart_closure_inert; now right|].
  split; [apply restart_closure_inert; now left|].
  eexists. split; [vm_compute; reflexivity|].
  vm_compute. repeat split.
Qed.

(** X2.  In every state reachable from the loaded page, by events and by
    the passing of time, the timer queue is well formed, and at most one
    silence deadline is pending: the one whose handle [silenceTimer]
    holds. *)
Theorem one_silence_deadline_at_most (supported : bool) (fuel : nat)
    (steps : list Step) (es : list Event) :
  deadline_inv (run es (loaded supported)) /\
  List.length (silence_pending (run es (loaded supported))) <= 1 /\
  match play fuel steps (loaded supported) with
  | Some s => deadline_inv s /\ List.length (silence_pending s) <= 1
  | None => True
  end.
Proof.
  pose proof (run_deadline_inv es _ (loaded_deadline_inv supported)) as H.
  split; [exact H|]. split; [exact (queue_one_silence _ _ _ H)|].
  destruct (play fuel steps (loaded supported)) as [s|] eqn:E; [|exact I].
  pose proof (play_deadline_inv _ _ _ _ (loaded_deadline_inv supported) E) as H'.
  split; [exact H'|exact (queue_one_silence _ _ _ H')].
Qed.

(** X3.  When the silence deadline expires with a non-empty trimmed
    transcript and a conversation in place, exactly one request is issued,
    carrying the conversation identifier and the trimmed transcript; the
    text is shown as the user's message, and no resume timer is armed. *)
Theorem silence_submits_trimmed_transcript (t : Timer) (s : State) :
  cb t = CbSilence -> period t = None ->
  trim (finalTranscript (vars s)) <> [] ->
  truthy (conversationId (vars s)) = true ->
  let s' := fire t s in
  let message := trim (finalTranscript (vars s)) in
  requests (net s') =
    requests (net s) ++ [ReqSend (conversationId (vars s)) message] /\
  pending (net s') = pending (net s) ++ [(nextReq (net s), KSend)] /\
  chat (page s') = chat (page s) ++ [(VStr message, true)] /\
  nextTid (clock s') = nextTid (clock s) /\
  thins (timers (clock s)) (timers (clock s')).
Proof.
  intros Hc Hp Hne Hcid. destruct_state s.
  exec in Hne. exec in Hcid.
  destruct t as [t_id t_due t_cb t_per]. exec in Hc. exec in Hp. subst.
  exec. destruct (trim v_ft) as [|c rest] eqn:Et; [congruence|].
  destruct v_rec; [destruct v_st|]; exec; cbn [is_empty]; exec;
    rewrite Hcid; exec; repeat split;
    repeat first [apply thins_refl | apply thins_cancel].
Qed.

Lemma silence_submits_trimmed_transcript_witness :
  let t := {| tid := 3; due := 5500; cb := CbSilence; period := None |} in
  let s := handle (RecOnResult hello_final) session_listening in
  In t (timers (clock s)) /\
  requests (net (fire t s)) = [ReqStart; ReqSend (VStr (lit "c1")) (lit "Hello")].
Proof.
  intros t s. split; [vm_compute; auto|].
  apply (silence_submits_trimmed_transcript t s); try reflexivity.
  vm_compute. discriminate.
Defined.

(* ================================================================== *)
(** ** Voice selection (lines 141-160) *)

Lemma starts_with_spec (s p : JSString) :
  starts_with s p = true <-> exists b, s = p ++ b.
Proof.
  revert s. induction p as [|x p IH]; intros s; simpl.
  - split; [intros _; now exists s|intros _; now destruct s].
  - destruct s as [|y s]; simpl.
    + split; [discriminate|intros [b H]; discriminate].
    + rewrite andb_true_iff, N.eqb_eq, IH. split.
      * intros [-> [b ->]]. now exists b.
      * intros [b H]. injection H as -> ->. split; [reflexivity|now exists b].
Qed.

Lemma includes_spec (s p : JSString) :
  includes s p = true <-> exists a b, s = a ++ p ++ b.
Proof.
  induction s as [|c s IH].
  - cbn [includes]. rewrite orb_false_r, starts_with_spec. split.
    + intros [b H]. now exists [], b.
    + intros (a & b & H). destruct a; simpl in H.
      * now exists b.
      * discriminate.
  - cbn [includes]. rewrite orb_true_iff, starts_with_spec, IH. split.
    + intros [[b H]|(a & b & H)].
      * now exists [], b.
      * exists (c :: a), b. simpl. now rewrite H.
    + intros (a & b & H). destruct a as [|x a]; simpl in H.
      * left. now exists b.
      * right. injection H as -> ->. now exists a, b.
Qed.

(** A string that includes a text includes every part of that text. *)
Lemma includes_part (s a p b : JSString) :
  includes s (a ++ p ++ b) = true -> includes s p = true.
Proof.
  rewrite !includes_spec. intros (x & y & ->).
  exists (x ++ a), (b ++ y). now rewrite <- !app_assoc.
Qed.

Lemma find_none_impl (p q : Voice -> bool) (voices : list Voice) :
  (forall v, q v = true -> p v = true) ->
  find p voices = None -> find q voices = None.
Proof.
  intros H. induction voices as [|v l IH]; simpl; [reflexivity|].
  destruct (p v) eqn:Ep; [discriminate|].
  destruct (q v) eqn:Eq; [|exact IH].
  rewrite (H v Eq) in Ep. discriminate.
Qed.

Lemma find_ext_in (f g : Voice -> bool) (l : list Voice) :
  (forall x, In x l -> f x = g x) -> find f l = find g l.
Proof.
  induction l as [|x l IH]; simpl; intros H; [reflexivity|].
  rewrite (H x (or_introl eq_refl)), IH; [reflexivity|].
  intros y Hy. apply H. now right.
Qed.

Lemma first_found_rank (ps : list (Voice -> bool)) (voices : list Voice) :
  match first_found ps voices with
  | Some v =>
      In v voices /\ rank ps v < List.length ps /\
      (forall v', In v' voices -> rank ps v <= rank ps v') /\
      find (fun x => rank ps x =? rank ps v) voices = Some v
  | None => forall v', In v' voices -> rank ps v' = List.length ps
  end.
Proof.
  induction ps as [|p ps IH]; cbn [first_found fold_right rank List.length].
  - reflexivity.
  - fold (first_found ps voices).
    destruct (find p voices) as [v|] eqn:E; cbn [or_else].
    + pose proof (find_some _ _ E) as [Hin Hp]. rewrite Hp.
      split; [exact Hin|]. split; [lia|]. split; [intros; lia|].
      rewrite <- E. apply find_ext_in. intros x _. now destruct (p x).
    + pose proof (find_none _ _ E) as Hnone.
      destruct (first_found ps voices) as [v|].
      * destruct IH as (Hin & Hlt & Hmin & Hfirst).
        rewrite (Hnone v Hin).
        split; [exact Hin|]. split; [lia|]. split.
        -- intros v' Hv'. rewrite (Hnone v' Hv'). specialize (Hmin v' Hv'). lia.
        -- rewrite <- Hfirst. apply find_ext_in. intros x Hx.
           now rewrite (Hnone x Hx).
      * intros v' Hv'. rewrite (Hnone v' Hv'). now rewrite (IH v' Hv').
Qed.

Lemma loadVoices_first_found (lower : JSString -> JSString)
    (voices : list Voice) :
  selectedVoice (loadVoices lower voices) =
  or_else (first_found (preferences lower) voices) (hd_error voices).
Proof.
  unfold loadVoices, first_found, preferences. cbn [selectedVoice fold_right].
  repeat match goal with
  | |- context [find ?p voices] =>
      destruct (find p voices); cbn [or_else]; [reflexivity|]
  end. reflexivity.
Qed.

(** With three voices installed, none of them named in the first six
    clauses, the one whose name includes "Zira" is selected. *)
Example loadVoices_installed :
  selectedVoice (loadVoices ascii_lower installed_voices) =
  Some {| vname := lit "Microsoft Zira Desktop"; vlang := lit "en-US" |}.
Proof. reflexivity. Qed.

(** X4.  [loadVoices] selects by preference first and by position second:
    the selected voice is an installed one, no installed voice satisfies an
    earlier clause than it does, and it is the first in the list among those
    that satisfy the same clause; a voice that satisfies no clause is
    selected only when none does, and then it is the first of the list.
    Nothing is selected only when no voice is installed.  Whatever the
    list, [voicesReady] is set. *)
Theorem selected_voice_is_best_ranked (lower : JSString -> JSString)
    (voices : list Voice) :
  voicesReady (loadVoices lower voices) = true /\
  match selectedVoice (loadVoices lower voices) with
  | Some v =>
      In v voices /\
      (forall v', In v' voices ->
         rank (preferences lower) v <= rank (preferences lower) v') /\
      find (fun x => rank (preferences lower) x =? rank (preferences lower) v)
           voices = Some v
  | None => voices = []
  end.
Proof.
  split; [reflexivity|].
  rewrite loadVoices_first_found.
  pose proof (first_found_rank (preferences lower) voices) as H.
  destruct (first_found (preferences lower) voices) as [v|]; cbn [or_else].
  - tauto.
  - destruct voices as [|x l]; cbn [hd_error]; [reflexivity|].
    split; [now left|]. split.
    + intros v' Hv'. rewrite (H v' Hv'), (H x (or_introl eq_refl)). lia.
    + cbn [find]. now rewrite Nat.eqb_refl.
Qed.

(** X5.  The clause of line 152 never decides the selection: a name that
    includes "Microsoft Zira" includes "Zira", so the clause of line 151
    has already found a voice whenever that of line 152 would.  Deleting
    line 152 changes nothing, for every list of voices and whatever
    [toLowerCase] does. *)
Theorem line_152_never_decides (lower : JSString -> JSString)
    (voices : list Voice) :
  loadVoices lower voices = loadVoices_without_line_152 lower voices.
Proof.
  unfold loadVoices, loadVoices_without_line_152. f_equal.
  repeat match goal with
  | |- or_else ?a _ = or_else ?a _ => destruct a eqn:?; [reflexivity|cbn [or_else]]
  end.
  rewrite (find_none_impl (fun v => includes (vname v) (lit "Zira"))
                          (fun v => includes (vname v) (lit "Microsoft Zira")));
    [reflexivity| |assumption].
  intros v H. apply (includes_part _ (lit "Microsoft ") (lit "Zira") []). exact H.
Qed.

(* ================================================================== *)
(** ** The countdown display (lines 258-261) *)

Lemma str_eqb_eq (a b : JSString) : str_eqb a b = true -> a = b.
Proof.
  revert b. induction a as [|x a IH]; intros [|y b]; simpl; try discriminate.
  - reflexivity.
  - rewrite andb_true_iff, N.eqb_eq. intros [-> H]. now rewrite (IH b H).
Qed.

Lemma timerDisplay_table :
  forallb (fun n => str_eqb (timerDisplay_text (Z.of_nat n))
                            (clock_text (Z.of_nat n)))
          (seq 0 (60 * 100)) = true.
Proof. vm_compute. reflexivity. Qed.

Lemma timerDisplay_below_zero_table :
  forallb (fun n => str_eqb (timerDisplay_text (- Z.of_nat n))
                            (lit "-1:" ++ number_to_string (- Z.of_nat n)))
          (seq 1 59) = true.
Proof. vm_compute. reflexivity. Qed.

Lemma clock_seconds_text (t : Z) :
  (0 <= t < 6000)%Z -> clock_seconds (clock_text t) = Some t.
Proof.
  intros Ht. unfold clock_text, clock_seconds, digit_value, digit.
  assert (D : forall d, (0 <= d <= 9)%Z ->
            ((48 <=? Z.to_N (48 + d)) && (Z.to_N (48 + d) <=? 57))%N = true /\
            (Z.of_N (Z.to_N (48 + d)) - 48 = d)%Z).
  { intros d Hd. split; [|lia].
    apply andb_true_iff. split; apply N.leb_le; lia. }
  destruct (D (t / 600)%Z) as [-> ->]; [Z.div_mod_to_equations; lia|].
  destruct (D ((t / 60) mod 10)%Z) as [-> ->]; [Z.div_mod_to_equations; lia|].
  destruct (D ((t mod 60) / 10)%Z) as [-> ->]; [Z.div_mod_to_equations; lia|].
  destruct (D (t mod 10)%Z) as [-> ->]; [Z.div_mod_to_equations; lia|].
  cbn [andb N.eqb Pos.eqb]. f_equal. Z.div_mod_to_equations. lia.
Qed.

(** X6.  While 0 <= timeRemaining < 6000 the countdown is displayed as
    MM:SS, two digits each, and the text read back as minutes and seconds is
    the time remaining (so different times show different texts).  Below
    zero, down to -59, the minutes field shows -1 and the seconds field the
    negative count itself. *)
Theorem countdown_shown_as_clock (t : Z) :
  ((0 <= t < 6000)%Z ->
   timerDisplay_text t = clock_text t /\
   clock_seconds (timerDisplay_text t) = Some t) /\
  ((-60 < t < 0)%Z ->
   timerDisplay_text t = lit "-1:" ++ number_to_string t).
Proof.
  split; intros Ht.
  - assert (E : timerDisplay_text t = clock_text t).
    { pose proof timerDisplay_table as H. rewrite forallb_forall in H.
      specialize (H (Z.to_nat t)). rewrite Z2Nat.id in H by lia.
      apply str_eqb_eq, H, in_seq. lia. }
    split; [exact E|]. rewrite E. now apply clock_seconds_text.
  - pose proof timerDisplay_below_zero_table as H. rewrite forallb_forall in H.
    specialize (H (Z.to_nat (- t))). rewrite Z2Nat.id in H by lia.
    replace (- - t)%Z with t in H by lia.
    apply str_eqb_eq, H, in_seq. lia.
Qed.

Lemma countdown_shown_as_clock_witness :
  timerDisplay_text 300 = lit "05:00" /\
  clock_seconds (timerDisplay_text 300) = Some 300%Z /\
  timerDisplay_text (-5) = lit "-1:-5".
Proof.
  destruct (countdown_shown_as_clock 300) as [H _].
  destruct (countdown_shown_as_clock (-5)) as [_ H'].
  destruct H as [H1 H2]; [lia|].
  split; [rewrite H1; reflexivity|]. split; [exact H2|].
  rewrite H' by lia. reflexivity.
Defined.

(* ================================================================== *)
(** ** Typed messages (lines 334-338, 395-426) *)

(** X7.  A key press in the text field sends a message exactly when the
    key is Enter, the trimmed text is not empty and a conversation
    identifier is in place.  Then one request is issued, carrying the
    identifier and the trimmed text; the text is added to the chat as the
    user's message and the field is cleared; capture, speech and timers are
    left as they are.  In every other case the key press changes nothing. *)
Theorem enter_sends_typed_text (k : Key) (s : State) :
  let typed := trim (textInputValue (page s)) in
  let id := conversationId (vars s) in
  let s' := handle (KeyPress k) s in
  if is_enter k && negb (is_empty typed) && truthy id
  then requests (net s') = requests (net s) ++ [ReqSend id typed] /\
       pending (net s') = pending (net s) ++ [(nextReq (net s), KSend)] /\
       chat (page s') = chat (page s) ++ [(VStr typed, true)] /\
       textInputValue (page s') = [] /\
       vars s' = vars s /\ recog s' = recog s /\ synth s' = synth s /\
       clock s' = clock s /\ console s' = console s
  else s' = s.
Proof.
  destruct_state s. destruct k; exec; [|reflexivity].
  destruct (trim p_txt) as [|c rest]; cbn [is_empty]; exec; [reflexivity|].
  destruct (truthy v_cid); exec; [|reflexivity].
  repeat split.
Qed.



(* ================================================================== *)
(** ** Replies of the conversation service (lines 297-358) *)

(** X9.  A reply to a message whose [response] is missing or empty is
    taken without complaint, whatever its HTTP status: an entry is added to
    the chat and the turn count is set, but nothing is spoken, nothing is
    logged, no alert is raised and no timer is armed, so nothing resumes
    capture. *)
Theorem reply_without_text_is_dropped (ok : bool)
    (fields : list (string * Value)) (s : State) :
  truthy (lookup "response" fields) = false ->
  let s' := final_state (sendMessage_resume (Response ok (JObject fields)) s) in
  vars s' = vars s /\ recog s' = recog s /\ synth s' = synth s /\
  clock s' = clock s /\ net s' = net s /\ console s' = console s /\
  alerts (page s') = alerts (page s) /\
  chat (page s') = chat (page s) ++ [(lookup "response" fields, false)] /\
  turnCountText (page s') = lookup "turn_count" fields.
Proof.
  intros H. destruct_state s. exec. rewrite H. exec. repeat split.
Qed.

Lemma reply_without_text_is_dropped_witness :
  let s' := final_state
              (sendMessage_resume (Response false (JObject empty_send_reply))
                                  session_listening) in
  clock s' = clock session_listening /\ synth s' = synth session_listening.
Proof.
  intros s'.
  destruct (reply_without_text_is_dropped false empty_send_reply
              session_listening eq_refl) as (_ & _ & H1 & H2 & _).
  split; [exact H2|exact H1].
Defined.

(** X10.  The reply to the start request is taken all or nothing.  A
    rejected request, a status outside 200-299, a body that is not JSON or
    is [null]: the error is logged, the overlay is hidden, one alert is
    raised, and the script's variables, the engines, the timers, the chat
    and the screen are as before.  Any other reply starts a session: the
    identifier and the chat are replaced by what the reply holds (whether
    it holds them or not), the conversation screen is shown, the countdown
    is armed and its handle kept, and the time remaining is not reset. *)
Theorem start_reply_all_or_nothing (r : FetchResult) (s : State) :
  let s' := final_state (startConversation_resume r s) in
  if start_fails r
  then vars s' = vars s /\ recog s' = recog s /\ synth s' = synth s /\
       clock s' = clock s /\ net s' = net s /\
       console s' =
         console s ++ [(now (clock s), LogErrorStartConversation (start_exn r))] /\
       alerts (page s') =
         alerts (page s) ++
         [lit "Failed to start conversation. Please try again."] /\
       loadingActive (page s') = false /\
       chat (page s') = chat (page s) /\
       activeScreen (page s') = activeScreen (page s)
  else conversationId (vars s') = reply_field "conversation_id" r /\
       chat (page s') = [(reply_field "greeting" r, false)] /\
       activeScreen (page s') = ConversationScreen /\
       loadingActive (page s') = false /\
       alerts (page s') = alerts (page s) /\
       timerInterval (vars s') = Some (nextTid (clock s)) /\
       In (countdown_timer s) (timers (clock s')) /\
       timeRemaining (vars s') = timeRemaining (vars s) /\
       net s' = net s.
Proof.
  destruct_state s. unfold countdown_timer.
  destruct r as [|[|] [| |fields]]; exec; try (repeat split; fail).
  destruct (truthy (lookup "greeting" fields)); exec;
    [destruct v_rec; [destruct v_st|]|]; exec;
    repeat split; apply in_or_app; right; now left.
Qed.

(** X11.  A start reply that names no conversation is accepted: the
    conversation screen is shown and no alert is raised; but from then on
    [sendMessage] returns at its guard for every text, and Enter in the
    text field changes nothing. *)
Theorem session_without_id_cannot_send (fields : list (string * Value))
    (s : State) (m : JSString) (k : Key) :
  truthy (lookup "conversation_id" fields) = false ->
  let s' := final_state
              (startConversation_resume (Response true (JObject fields)) s) in
  activeScreen (page s') = ConversationScreen /\
  alerts (page s') = alerts (page s) /\
  sendMessage m s' = Ok tt s' /\
  handle (KeyPress k) s' = s'.
Proof.
  intros H. destruct_state s. exec.
  destruct (truthy (lookup "greeting" fields)); exec;
    [destruct v_rec; [destruct v_st|]|]; exec; rewrite ?H; exec.
  all: split; [reflexivity|]; split; [reflexivity|].
  all: split; [destruct (is_empty m); reflexivity|].
  all: destruct k; exec; [|reflexivity].
  all: destruct (is_empty (trim p_txt)); exec; rewrite ?H; try reflexivity.
Qed.

Lemma session_without_id_cannot_send_witness :
  let s := handle (TextInput (lit "hello")) (dispatch ClickStart (loaded true)) in
  let s' := final_state (startConversation_resume anonymous_start_reply s) in
  activeScreen (page s') = ConversationScreen /\
  requests (net (handle (KeyPress KeyEnter) s')) = [ReqStart].
Proof.
  intros s s'.
  destruct (session_without_id_cannot_send
              [("greeting"%string, VStr (lit "Hi"))] s (lit "hello") KeyEnter
              eq_refl) as (H1 & _ & _ & H2).
  split; [exact H1|].
  change (handle (KeyPress KeyEnter) s' = s') in H2. rewrite H2. reflexivity.
Defined.

(* ================================================================== *)
(** ** Leaving the page (lines 36-50, 410-444) *)



(* ================================================================== *)
(** ** The countdown (lines 255-268) *)



(* ================================================================== *)
(** ** What holds in every reachable state *)

Section Invariant.

Variable P : State -> Prop.
Hypothesis P_handle : forall e s, P s -> enabled e s = true -> P (handle e s).
Hypothesis P_fire : forall t s, P s -> P (fire t s).
Hypothesis P_now : forall x s, P s -> P (upd_clock (set_now x) s).

Lemma advance_to_invariant (fuel : nat) (target : N) (s s' : State) :
  P s -> advance_to fuel target s = Some s' -> P s'.
Proof.
  revert s. induction fuel as [|f IH]; intros s Hs H; simpl in H.
  - destruct (earliest (timers (clock s))) as [t|];
      [destruct (due t <=? target)%N; [discriminate|]|];
      injection H as <-; now apply P_now.
  - destruct (earliest (timers (clock s))) as [t|];
      [destruct (due t <=? target)%N|].
    + eapply IH; [|exact H]. now apply P_fire.
    + injection H as <-. now apply P_now.
    + injection H as <-. now apply P_now.
Qed.

Lemma reachable_invariant (supported : bool) (s : State) :
  P (loaded supported) -> reachable supported s -> P s.
Proof.
  intros H0 H. induction H as [|e s _ IH|fuel target s s' _ IH E].
  - exact H0.
  - unfold dispatch. destruct (enabled e s) eqn:E; [now apply P_handle|exact IH].
  - eapply advance_to_invariant; eassumption.
Qed.

End Invariant.

Lemma reachable_run (supported : bool) (es : list Event) (s : State) :
  reachable supported s -> reachable supported (run es s).
Proof.
  revert s. induction es as [|e es IH]; intros s H; simpl; [exact H|].
  apply IH. now apply reach_event.
Qed.

Lemma reachable_deadline_inv (supported : bool) (s : State) :
  reachable supported s -> deadline_inv s.
Proof.
  apply (reachable_invariant deadline_inv).
  - intros e s0 H _. now apply handle_deadline_inv.
  - intros t s0 H. now apply fire_deadline_inv.
  - intros x s0 H. destruct_state s0. exact H.
  - apply loaded_deadline_inv.
Qed.

(** *** Speech output *)

Lemma fire_one_voice (t : Timer) (s : State) : one_voice s -> one_voice (fire t s).
Proof.
  unfold one_voice. destruct_state s. fire_cases t; exec.
  all: script_cases; cbn [List.length]; lia.
Qed.

Lemma handle_one_voice (e : Event) (s : State) :
  one_voice s -> one_voice (handle e s).
Proof.
  intros H. destruct e; cbn [handle];
    try (destruct (find_timer id s); [now apply fire_one_voice|exact H]).
  all: unfold one_voice in *; destruct_state s; exec in H; exec.
  all: script_cases; cbn [List.length app] in *; lia.
Qed.

(** X14.  Replies never pile up: in every reachable state the synthesis
    queue holds at most one utterance, because [speak] cancels what is
    being spoken before it queues the next text. *)
Theorem replies_never_pile_up (supported : bool) (s : State) :
  reachable supported s -> List.length (queue (synth s)) <= 1.
Proof.
  apply (reachable_invariant one_voice).
  - intros e s0 H _. now apply handle_one_voice.
  - apply fire_one_voice.
  - intros x s0 H. exact H.
  - destruct supported; unfold one_voice; simpl; lia.
Qed.

Lemma replies_never_pile_up_witness :
  let s := run [ClickStart; FetchSettled 0 (start_reply (VStr (lit "Hi")));
                TextInput (lit "one"); KeyPress KeyEnter;
                TextInput (lit "two"); KeyPress KeyEnter;
                FetchSettled 1 (send_reply (VStr (lit "First")));
                FetchSettled 2 (send_reply (VStr (lit "Second")))]
               (loaded true) in
  List.length (requests (net s)) = 3 /\ List.length (queue (synth s)) <= 1.
Proof.
  intros s. split; [reflexivity|].
  apply (replies_never_pile_up true s), reachable_run, reach_loaded.
Defined.

(** *** A browser without speech recognition *)

Lemma fire_text_only (t : Timer) (s : State) : text_only s -> text_only (fire t s).
Proof.
  unfold text_only. destruct_state s. exec.
  intros (-> & -> & -> & -> & -> & ->). fire_cases t; exec.
  all: script_cases; repeat split.
Qed.

Lemma handle_text_only (e : Event) (s : State) :
  text_only s -> enabled e s = true -> text_only (handle e s).
Proof.
  intros H He. destruct e; cbn [handle];
    try (destruct (find_timer id s); [now apply fire_text_only|exact H]).
  all: unfold text_only in *; destruct_state s; exec in H; exec in He.
  all: destruct H as (-> & -> & -> & -> & -> & ->).
  all: destruct p_unl; exec in He; try discriminate.
  all: exec; script_cases; repeat split.
Qed.

(** X15.  In a browser without speech recognition the page works by text
    alone: in every reachable state no recognition object exists, none of
    its methods has been called, [isListening] is off, the voice indicator
    is off and no silence deadline has ever been armed. *)
Theorem unsupported_browser_is_text_only (s : State) :
  reachable false s ->
  recognition (vars s) = false /\ recCalls (recog s) = [] /\
  recState (recog s) = RecIdle /\ isListening (vars s) = false /\
  indicatorActive (page s) = false /\ silenceTimer (vars s) = None.
Proof.
  apply (reachable_invariant text_only).
  - intros e s0. apply handle_text_only.
  - apply fire_text_only.
  - intros x s0 H. exact H.
  - repeat split.
Qed.

Lemma unsupported_browser_is_text_only_witness :
  let s := run [ClickStart; FetchSettled 0 (start_reply (VStr (lit "Hi")));
                UtteranceEnd 0; TimerFire 2; RecOnStart;
                TextInput (lit "hello"); KeyPress KeyEnter]
               (loaded false) in
  requests (net s) = [ReqStart; ReqSend (VStr (lit "c1")) (lit "hello")] /\
  recCalls (recog s) = [] /\ isListening (vars s) = false.
Proof.
  intros s. split; [reflexivity|].
  destruct (unsupported_browser_is_text_only s) as (_ & H1 & _ & H2 & _).
  - apply reachable_run, reach_loaded.
  - split; [exact H1|exact H2].
Defined.

(** *** The handles the script keeps *)

Lemma handles_ok_thins st ti n ts ts' :
  thins ts ts' -> handles_ok st ti n ts -> handles_ok st ti n ts'.
Proof.
  intros Hth (H1 & H2 & H3). repeat split; auto.
  eapply thins_Forall; eauto.
Qed.

Lemma handles_ok_cancel st ti n a ts :
  handles_ok st ti n ts -> handles_ok st ti n (cancel_timer a ts).
Proof. apply handles_ok_thins, thins_cancel, thins_refl. Qed.

Lemma below_S n h : below n h -> below (S n) h.
Proof. destruct h; simpl; lia. Qed.

Lemma handles_ok_push st ti n ts x :
  tid x = n -> handles_ok st ti n ts -> handles_ok st ti (S n) (ts ++ [x]).
Proof.
  intros Hx (H1 & H2 & H3). split; [now apply below_S|].
  split; [now apply below_S|]. apply Forall_app. split.
  - revert H3. apply Forall_impl. intros y [Hy Hh]. split; [lia|exact Hh].
  - constructor; [|constructor]. split; [lia|]. split; intros E; exfalso.
    + rewrite E in H1. simpl in H1. lia.
    + rewrite E in H2. simpl in H2. lia.
Qed.

Lemma handles_ok_silence st ti n ts x :
  tid x = n -> cb x = CbSilence ->
  handles_ok st ti n ts -> handles_ok (Some n) ti (S n) (ts ++ [x]).
Proof.
  intros Hx Hc (H1 & H2 & H3). split; [simpl; lia|].
  split; [now apply below_S|]. apply Forall_app. split.
  - revert H3. apply Forall_impl. intros y [Hy [_ Hh]]. split; [lia|].
    split; [|exact Hh]. intros E. injection E as E. lia.
  - constructor; [|constructor]. split; [lia|]. split; intros E.
    + exact Hc.
    + exfalso. rewrite E in H2. simpl in H2. lia.
Qed.

Lemma handles_ok_countdown st ti n ts x :
  tid x = n -> cb x = CbCountdown ->
  handles_ok st ti n ts -> handles_ok st (Some n) (S n) (ts ++ [x]).
Proof.
  intros Hx Hc (H1 & H2 & H3). split; [now apply below_S|].
  split; [simpl; lia|]. apply Forall_app. split.
  - revert H3. apply Forall_impl. intros y [Hy [Hh _]]. split; [lia|].
    split; [exact Hh|]. intros E. injection E as E. lia.
  - constructor; [|constructor]. split; [lia|]. split; intros E.
    + exfalso. rewrite E in H1. simpl in H1. lia.
    + exact Hc.
Qed.

Lemma handles_ok_rearm st ti n ts (f : Timer -> Timer) :
  (forall x, tid (f x) = tid x /\ cb (f x) = cb x) ->
  handles_ok st ti n ts -> handles_ok st ti n (map f ts).
Proof.
  intros Hf (H1 & H2 & H3). repeat split; auto.
  apply Forall_forall. intros y Hy. apply in_map_iff in Hy as (x & <- & Hx).
  rewrite Forall_forall in H3. destruct (Hf x) as [E1 E2].
  destruct (H3 x Hx) as [Hb [Hs Hc]]. unfold held_ok. rewrite E1, E2. auto.
Qed.

Ltac handles_tac H :=
  repeat first
    [ exact H
    | apply handles_ok_cancel
    | eapply handles_ok_silence; [reflexivity|reflexivity|]
    | eapply handles_ok_countdown; [reflexivity|reflexivity|]
    | apply handles_ok_push; [reflexivity|]
    | apply handles_ok_rearm;
        [ intros [? ? ? ?]; simpl;
          match goal with |- context [if ?c then _ else _] => destruct c end;
          split; reflexivity | ] ].

Lemma fire_handles_inv (t : Timer) (s : State) :
  handles_inv s -> handles_inv (fire t s).
Proof.
  intros H. unfold handles_inv in *. destruct_state s. exec in H.
  fire_cases t; exec.
  all: script_cases; handles_tac H.
Qed.

Lemma handle_handles_inv (e : Event) (s : State) :
  handles_inv s -> handles_inv (handle e s).
Proof.
  intros H. destruct e; cbn [handle];
    try (destruct (find_timer id s); [now apply fire_handles_inv|exact H]).
  all: unfold handles_inv in *; destruct_state s; exec in H; exec.
  all: script_cases; handles_tac H.
Qed.

Lemma loaded_handles_inv (supported : bool) : handles_inv (loaded supported).
Proof. destruct supported; repeat split; simpl; auto. Qed.

Lemma reachable_handles_inv (supported : bool) (s : State) :
  reachable supported s -> handles_inv s.
Proof.
  apply (reachable_invariant handles_inv).
  - intros e s0 H _. now apply handle_handles_inv.
  - intros t s0 H. now apply fire_handles_inv.
  - intros x s0 H. destruct_state s0. exact H.
  - apply loaded_handles_inv.
Qed.

(** X16.  Stale handles are harmless.  The script never resets
    [silenceTimer] or [timerInterval] and passes them to [clearTimeout] and
    [clearInterval] long after their timers are gone; in every reachable
    state a pending timer that [silenceTimer] designates is a silence
    deadline, one that [timerInterval] designates is a countdown, and every
    pending handle is one the platform handed out earlier: clearing a
    stale handle cancels no other timer. *)
Theorem stale_handles_are_harmless (supported : bool) (s : State) (t : Timer) :
  reachable supported s -> In t (timers (clock s)) ->
  tid t < nextTid (clock s) /\
  (silenceTimer (vars s) = Some (tid t) -> cb t = CbSilence) /\
  (timerInterval (vars s) = Some (tid t) -> cb t = CbCountdown).
Proof.
  intros Hr Hin. destruct (reachable_handles_inv _ _ Hr) as (_ & _ & H).
  rewrite Forall_forall in H. destruct (H t Hin) as [H1 [H2 H3]]. auto.
Qed.

Lemma stale_handles_are_harmless_witness :
  let s := run [RecOnResult hello_final; TimerFire 3] session_listening in
  let t := {| tid := 1; due := 1000; cb := CbCountdown; period := Some 1000%N |} in
  silenceTimer (vars s) = Some 3 /\ find_timer 3 s = None /\
  tid t < nextTid (clock s).
Proof.
  intros s t. split; [reflexivity|]. split; [reflexivity|].
  apply (stale_handles_are_harmless true s t).
  - apply reachable_run, reachable_run, reach_loaded.
  - vm_compute. auto.
Defined.

(** *** Timers that outlive the session *)

Lemma In_cancel (t : Timer) (a : nat) (ts : list Timer) :
  tid t <> a -> In t ts -> In t (cancel_timer a ts).
Proof.
  intros Hne Hin. apply filter_In. split; [exact Hin|].
  apply negb_true_iff, Nat.eqb_neq. exact Hne.
Qed.

Lemma fire_resume_starts (t : Timer) (s : State) :
  resumes_capture (cb t) = true ->
  recognition (vars s) = true -> isListening (vars s) = false ->
  attempts (fire t s) = S (attempts s) /\
  (recState (recog s) = RecIdle -> recState (recog (fire t s)) = RecStarting).
Proof.
  intros Hr Hrec Hl. unfold attempts. destruct_state s.
  exec in Hrec. exec in Hl. subst v_rec v_lis.
  fire_cases t; try discriminate; exec.
  all: try match goal with
           | c : option SpeakCallback |- _ => destruct c as [[]|]; exec
           end.
  all: destruct r_st; exec; rewrite ?filter_app, ?length_app;
    cbn [filter is_start List.length];
    repeat split; try lia; try discriminate.
Qed.

Lemma stop_keeps_resume_timer (e : Event) (s : State) (t : Timer) :
  handles_inv s -> In t (timers (clock s)) ->
  resumes_capture (cb t) = true -> stops_session e = true ->
  let s' := handle e s in
  In t (timers (clock s')) /\
  recognition (vars s') = recognition (vars s) /\
  attempts s' = attempts s /\
  (recState (recog s) = RecIdle -> recState (recog s') = RecIdle) /\
  (recognition (vars s) = true -> isListening (vars s') = false).
Proof.
  intros (_ & _ & Hall) Hin Hr He.
  rewrite Forall_forall in Hall. destruct (Hall t Hin) as [_ [Hs Hc]].
  assert (Hst : silenceTimer (vars s) <> Some (tid t)).
  { intros E. rewrite (Hs E) in Hr. discriminate. }
  assert (Hti : timerInterval (vars s) <> Some (tid t)).
  { intros E. rewrite (Hc E) in Hr. discriminate. }
  clear Hall Hs Hc.
  unfold attempts. destruct_state s.
  exec in Hin. cbn [silenceTimer timerInterval vars] in Hst, Hti.
  destruct e; try discriminate; exec.
  all: destruct y_q, v_rec, v_st, v_ti; exec.
  all: (split; [repeat (apply In_cancel; [congruence|]); exact Hin|]).
  all: rewrite ?filter_app, ?length_app; cbn [filter is_start List.length];
    rewrite ?Nat.add_0_r; repeat split; try discriminate.
  all: intros ->; reflexivity.
Qed.

(** X17.  The timers that resume capture are not cancelled when the
    session is stopped.  In every reachable state, a pending timer armed by
    the end of an utterance, by silence with nothing said or by a failed
    send is still pending after the end button, the restart button or
    [beforeunload]; when it fires, with a recognition object in place,
    [recognition.start()] is called once more, and an idle engine starts
    capturing: the microphone reopens after the session was stopped. *)
Theorem ending_leaves_resume_timers (supported : bool) (e : Event)
    (s : State) (t : Timer) :
  reachable supported s -> In t (timers (clock s)) ->
  resumes_capture (cb t) = true -> stops_session e = true ->
  let s' := handle e s in
  In t (timers (clock s')) /\
  (recognition (vars s) = true ->
   attempts (fire t s') = S (attempts s) /\
   (recState (recog s) = RecIdle -> recState (recog (fire t s')) = RecStarting)).
Proof.
  intros Hreach Hin Hr He s'.
  destruct (stop_keeps_resume_timer e s t (reachable_handles_inv _ _ Hreach)
              Hin Hr He) as (H1 & H2 & H3 & H4 & H5).
  fold s' in H1, H2, H3, H4, H5.
  split; [exact H1|]. intros Hrec.
  destruct (fire_resume_starts t s' Hr) as [Ha Hb];
    [congruence|now apply H5|].
  split; [congruence|]. intros Hidle. apply Hb. now apply H4.
Qed.

Lemma ending_leaves_resume_timers_witness :
  let t := {| tid := 2; due := 500; cb := CbSpeakEnd (Some ReadyAfterGreeting);
              period := None |} in
  let s' := handle ClickEnd session_greeted in
  close_calls s' = 1 /\ In t (timers (clock s')) /\
  recState (recog (fire t s')) = RecStarting.
Proof.
  intros t s'. split; [reflexivity|].
  destruct (ending_leaves_resume_timers true ClickEnd session_greeted t)
    as [H1 H2].
  - apply reachable_run, reach_loaded.
  - vm_compute. auto.
  - reflexivity.
  - reflexivity.
  - split; [exact H1|]. apply H2; reflexivity.
Defined.

Lemma start_keeps_old_countdown (s : State) (t : Timer) (r : FetchResult) :
  handles_inv s -> In t (timers (clock s)) -> cb t = CbCountdown ->
  start_fails r = false ->
  let s1 := final_state (startConversation_resume r s) in
  let s2 := handle ClickEnd s1 in
  In t (timers (clock s1)) /\
  In (countdown_timer s) (timers (clock s1)) /\
  timerInterval (vars s1) = Some (nextTid (clock s)) /\
  tid t < nextTid (clock s) /\
  In t (timers (clock s2)).
Proof.
  intros (_ & _ & Hall) Hin Hcb Hr.
  rewrite Forall_forall in Hall. destruct (Hall t Hin) as [Hlt [Hs _]].
  assert (Hst : silenceTimer (vars s) <> Some (tid t)).
  { intros E. rewrite (Hs E) in Hcb. discriminate. }
  clear Hall Hs.
  destruct_state s. exec in Hin. cbn [silenceTimer vars] in Hst.
  cbn [nextTid clock] in Hlt. unfold countdown_timer.
  destruct r as [|[|] [| |fields]]; try discriminate. exec.
  destruct (truthy (lookup "greeting" fields)), v_rec, v_st; exec.
  all: repeat split; try assumption.
  all: try (apply in_or_app; right; left; reflexivity).
  all: repeat first
         [ apply In_cancel; [first [congruence | lia]|]
         | apply in_or_app; left
         | exact Hin ].
Qed.

(** X18.  [startTimer] overwrites [timerInterval] without clearing the
    interval it held.  In every reachable state, a countdown that is
    pending when a start reply is accepted is still pending afterwards,
    next to the new one, and its handle is lost: [timerInterval] holds the
    new handle, so the end button, which clears [timerInterval], leaves the
    old countdown running. *)
Theorem second_start_leaks_countdown (supported : bool) (s : State)
    (t : Timer) (r : FetchResult) :
  reachable supported s -> In t (timers (clock s)) -> cb t = CbCountdown ->
  start_fails r = false ->
  let s1 := final_state (startConversation_resume r s) in
  let s2 := handle ClickEnd s1 in
  In t (timers (clock s1)) /\
  In (countdown_timer s) (timers (clock s1)) /\
  timerInterval (vars s1) = Some (tid (countdown_timer s)) /\
  tid t <> tid (countdown_timer s) /\
  In t (timers (clock s2)).
Proof.
  intros Hreach Hin Hcb Hr s1 s2.
  destruct (start_keeps_old_countdown s t r (reachable_handles_inv _ _ Hreach)
              Hin Hcb Hr) as (H1 & Hnew & H2 & H3 & H4).
  split; [exact H1|]. split; [exact Hnew|]. split; [exact H2|].
  split; [cbn [countdown_timer tid]; lia|exact H4].
Qed.

Lemma second_start_leaks_countdown_witness :
  let t := {| tid := 1; due := 1000; cb := CbCountdown; period := Some 1000%N |} in
  let s1 := final_state
              (startConversation_resume second_start_reply session_started_twice) in
  let s2 := handle ClickEnd s1 in
  timerInterval (vars s1) = Some 2 /\ In t (timers (clock s2)).
Proof.
  intros t s1 s2.
  destruct (second_start_leaks_countdown true session_started_twice t
              second_start_reply) as (_ & _ & H1 & _ & H2).
  - apply reachable_run, reach_loaded.
  - vm_compute. auto.
  - reflexivity.
  - reflexivity.
  - split; [exact H1|exact H2].
Defined.

(* ================================================================== *)
(** ** What is sent (lines 239-252, 334-345, 395-426) *)

Lemma trim_start_head (s : JSString) (c : N) (r : JSString) :
  trim_start s = c :: r -> is_space c = false.
Proof.
  induction s as [|x s IH]; simpl; [discriminate|].
  destruct (is_space x) eqn:E; [exact IH|].
  intros H. injection H as <- _. exact E.
Qed.

Lemma trim_start_suffix (s : JSString) : exists p, s = p ++ trim_start s.
Proof.
  induction s as [|x s [p IH]]; simpl.
  - now exists [].
  - destruct (is_space x).
    + exists (x :: p). simpl. now rewrite <- IH.
    + now exists [].
Qed.

Lemma trim_start_fixed (s : JSString) :
  match s with [] => True | c :: _ => is_space c = false end ->
  trim_start s = s.
Proof. destruct s as [|c r]; simpl; [reflexivity|]. now intros ->. Qed.

Lemma trim_start_idem (s : JSString) : trim_start (trim_start s) = trim_start s.
Proof.
  apply trim_start_fixed. destruct (trim_start s) as [|c r] eqn:E; [exact I|].
  now apply trim_start_head in E.
Qed.

(** Trimming a trimmed text changes nothing. *)
Lemma trim_idem (s : JSString) : trim (trim s) = trim s.
Proof.
  unfold trim.
  set (a := trim_start s). set (b := trim_start (rev a)).
  assert (Hb : trim_start b = b) by apply trim_start_idem.
  assert (Hr : trim_start (rev b) = rev b).
  { apply trim_start_fixed.
    destruct (rev b) as [|c r] eqn:E; [exact I|].
    destruct (trim_start_suffix (rev a)) as [p Hp]. fold b in Hp.
    assert (Ha : a = rev b ++ rev p).
    { rewrite <- (rev_involutive a), Hp, rev_app_distr. reflexivity. }
    rewrite E in Ha. simpl in Ha.
    apply (trim_start_head s c (r ++ rev p)). exact Ha. }
  rewrite Hr, rev_involutive, Hb. reflexivity.
Qed.

Lemma requests_push (rs : list Request) (r : Request) :
  well_formed_request r -> Forall well_formed_request rs ->
  Forall well_formed_request (rs ++ [r]).
Proof. intros Hr H. apply Forall_app. split; [exact H|now constructor]. Qed.

Ltac requests_tac H :=
  repeat first
    [ exact H
    | apply requests_push;
        [ first [ exact I
                | split; [assumption|]; split;
                  [ congruence
                  | first [ assumption
                          | match goal with
                            | E : trim ?x = _ |- _ => rewrite <- E; apply trim_idem
                            end ] ] ]
        | ] ].

Lemma fire_requests_inv (t : Timer) (s : State) :
  requests_inv s -> requests_inv (fire t s).
Proof.
  intros H. unfold requests_inv in *. destruct_state s. exec in H.
  fire_cases t; exec.
  all: try (destruct (trim v_ft) as [|c r] eqn:Et; cbn [is_empty]; exec).
  all: script_cases; requests_tac H.
Qed.

Lemma handle_requests_inv (e : Event) (s : State) :
  requests_inv s -> requests_inv (handle e s).
Proof.
  intros H. destruct e; cbn [handle];
    try (destruct (find_timer id s); [now apply fire_requests_inv|exact H]).
  all: unfold requests_inv in *; destruct_state s; exec in H; exec.
  all: try (destruct (trim p_txt) as [|c r] eqn:Et; cbn [is_empty]; exec).
  all: try (destruct (trim v_ft) as [|c' r'] eqn:Ef; cbn [is_empty]; exec).
  all: script_cases; try rewrite Et in *; cbn [is_empty] in *;
    try congruence; requests_tac H.
Qed.

(** X19.  Whatever the page has sent as a message, in any reachable
    state, went out with a conversation identifier in place, was not empty,
    and had no white space at either end. *)
Theorem sent_messages_are_trimmed (supported : bool) (s : State)
    (id : Value) (message : JSString) :
  reachable supported s -> In (ReqSend id message) (requests (net s)) ->
  truthy id = true /\ message <> [] /\ trim message = message.
Proof.
  intros Hreach Hin.
  assert (H : requests_inv s).
  { revert Hreach. apply (reachable_invariant requests_inv).
    - intros e s0 H _. now apply handle_requests_inv.
    - intros t s0 H. now apply fire_requests_inv.
    - intros x s0 H. exact H.
    - destruct supported; constructor. }
  unfold requests_inv in H. rewrite Forall_forall in H.
  exact (H _ Hin).
Qed.

Lemma sent_messages_are_trimmed_witness :
  let s := run [ClickStart; FetchSettled 0 (start_reply (VStr (lit "Hi")));
                TextInput (lit "  so long  "); KeyPress KeyEnter]
               (loaded true) in
  In (ReqSend (VStr (lit "c1")) (lit "so long")) (requests (net s)) /\
  trim (lit "so long") = lit "so long".
Proof.
  intros s.
  assert (Hin : In (ReqSend (VStr (lit "c1")) (lit "so long")) (requests (net s)))
    by (vm_compute; auto).
  split; [exact Hin|].
  apply (sent_messages_are_trimmed true s (VStr (lit "c1")) (lit "so long")).
  - apply reachable_run, reach_loaded.
  - exact Hin.
Defined.

(* ================================================================== *)
(** ** The conversation identifier (lines 22, 313) *)

Lemma fire_conversationId (t : Timer) (s : State) :
  conversationId (vars (fire t s)) = conversationId (vars s).
Proof.
  destruct_state s. fire_cases t; exec.
  all: script_cases; reflexivity.
Qed.

Lemma handle_conversationId (e : Event) (s : State) :
  is_start_reply e s = false ->
  conversationId (vars (handle e s)) = conversationId (vars s).
Proof.
  intros He. destruct e; cbn [handle];
    try (destruct (find_timer id s); [apply fire_conversationId|reflexivity]).
  all: unfold is_start_reply in He; destruct_state s; exec in He; exec.
  all: script_cases; try reflexivity; try discriminate.
  all: match goal with
       | E : find _ _ = Some _ |- _ => rewrite E in He; discriminate
       end.
Qed.

(** X20.  The conversation identifier is assigned by an accepted start
    reply and by nothing else: every other event, and any stretch of time,
    leaves it as it is.  In particular ending the conversation, by the
    button or by the countdown, does not clear it, and a failed send or end
    does not touch it. *)
Theorem conversationId_set_by_start_reply_only (s : State) :
  (forall e, is_start_reply e s = false ->
     conversationId (vars (dispatch e s)) = conversationId (vars s)) /\
  (forall fuel target s', advance_to fuel target s = Some s' ->
     conversationId (vars s') = conversationId (vars s)).
Proof.
  split.
  - intros e He. unfold dispatch. destruct (enabled e s); [|reflexivity].
    now apply handle_conversationId.
  - intros fuel target s' H.
    apply (advance_to_invariant
             (fun x => conversationId (vars x) = conversationId (vars s)))
      with (fuel := fuel) (target := target) (s := s); auto.
    intros t x Hx. now rewrite fire_conversationId.
Qed.

Lemma conversationId_set_by_start_reply_only_witness :
  conversationId (vars (dispatch (FetchSettled 1 (Response true (JObject [])))
                          (dispatch ClickEnd session_listening))) =
  VStr (lit "c1").
Proof.
  destruct (conversationId_set_by_start_reply_only
              (dispatch ClickEnd session_listening)) as [H _].
  rewrite H by reflexivity.
  destruct (conversationId_set_by_start_reply_only session_listening) as [H' _].
  rewrite H' by reflexivity. reflexivity.
Defined.

(* ================================================================== *)
(** ** The countdown on schedule (lines 255-268, 297-332, 360-388) *)

(** A timer is still pending after some others were cancelled and some
    armed. *)
Ltac survive Hin :=
  repeat first
    [ exact Hin
    | apply in_or_app; left
    | apply In_cancel; [solve [assumption | congruence]|] ].

(** Counting the end requests among the requests issued. *)
Ltac count_requests :=
  unfold close_calls; cbn [requests net];
  rewrite ?filter_app, ?length_app; cbn [filter is_end_request List.length];
  rewrite ?Nat.add_0_r; try reflexivity.

(** *** Timers other than the countdown *)

Lemma fire_other_vars (u : Timer) (s : State) :
  cb u <> CbCountdown ->
  timeRemaining (vars (fire u s)) = timeRemaining (vars s) /\
  timerInterval (vars (fire u s)) = timerInterval (vars s) /\
  close_calls (fire u s) = close_calls s.
Proof.
  intros Hcb. destruct_state s. fire_cases u; cbn [cb] in Hcb; try congruence; exec.
  all: script_cases; repeat split; count_requests.
Qed.

Lemma fire_other_keeps (u x : Timer) (s : State) :
  period u = None -> cb u <> CbCountdown ->
  In x (timers (clock s)) -> tid x <> tid u ->
  silenceTimer (vars s) <> Some (tid x) ->
  In x (timers (clock (fire u s))).
Proof.
  intros Hp Hcb Hin Hne Hst. destruct_state s.
  exec in Hin. cbn [silenceTimer vars] in Hst.
  destruct u as [u_id u_due u_cb u_per]. cbn [period] in Hp. subst u_per.
  cbn [cb] in Hcb. cbn [tid] in Hne.
  destruct u_cb; try congruence; exec.
  all: script_cases; survive Hin.
Qed.

Lemma fire_no_new_countdown (u x : Timer) (s : State) :
  In x (timers (clock (fire u s))) -> cb x = CbCountdown ->
  In x (after_due u s).
Proof.
  intros Hin Hcb.
  destruct (fire_timers u s) as [[Hth _] | (_ & kept & Hth & Ht & _)].
  - eapply thins_In; eauto.
  - rewrite Ht in Hin. apply in_app_or in Hin as [Hin|[<-|[]]].
    + eapply thins_In; eauto.
    + discriminate.
Qed.

(** *** Events of the dialogue *)

Lemma handle_dialogue_vars (e : Event) (s : State) :
  keeps_countdown e s = true ->
  timeRemaining (vars (handle e s)) = timeRemaining (vars s) /\
  timerInterval (vars (handle e s)) = timerInterval (vars s) /\
  close_calls (handle e s) = close_calls s /\
  now (clock (handle e s)) = now (clock s).
Proof.
  intros He. destruct e; try discriminate; cbn [handle].
  all: unfold keeps_countdown in He; destruct_state s; exec in He; exec.
  all: script_cases; try discriminate; repeat split; count_requests.
  all: match goal with
       | E : find _ _ = Some _ |- _ => rewrite E in He; discriminate
       end.
Qed.

Lemma handle_dialogue_keeps (e : Event) (x : Timer) (s : State) :
  keeps_countdown e s = true ->
  In x (timers (clock s)) -> silenceTimer (vars s) <> Some (tid x) ->
  In x (timers (clock (handle e s))).
Proof.
  intros He Hin Hst. destruct e; try discriminate; cbn [handle].
  all: unfold keeps_countdown in He; destruct_state s; exec in He; exec in Hin;
    cbn [silenceTimer vars] in Hst; exec.
  all: script_cases; try discriminate; survive Hin.
  all: match goal with
       | E : find _ _ = Some _ |- _ => rewrite E in He; discriminate
       end.
Qed.

(** A pending countdown was pending before: nothing armed since is
    one. *)
Ltac old_timer H Hcb :=
  repeat first
    [ exact H
    | apply filter_In in H as [H _]
    | apply in_app_or in H as [H|[<-|[]]]; [|discriminate Hcb] ].

Lemma handle_dialogue_no_new_countdown (e : Event) (x : Timer) (s : State) :
  keeps_countdown e s = true ->
  In x (timers (clock (handle e s))) -> cb x = CbCountdown ->
  In x (timers (clock s)).
Proof.
  intros He Hin Hcb. destruct e; try discriminate; cbn [handle] in Hin.
  all: unfold keeps_countdown in He; destruct_state s; exec in He; exec in Hin;
    exec.
  all: revert Hin; script_cases; intros Hin; try discriminate;
    unfold cancel_timer in Hin; old_timer Hin Hcb.
  all: match goal with
       | E : find _ _ = Some _ |- _ => rewrite E in He; discriminate
       end.
Qed.

(** *** One step on schedule *)

Lemma other_period (u : Timer) (s : State) :
  deadline_inv s -> In u (timers (clock s)) -> cb u <> CbCountdown ->
  period u = None.
Proof.
  intros [_ Hok] Hin Hcb. rewrite Forall_forall in Hok.
  destruct (Hok u Hin) as (_ & [Hp|[_ Hc]] & _); [exact Hp|contradiction].
Qed.

Lemma sole_not_silence (t : Timer) (s : State) :
  handles_inv s -> In t (timers (clock s)) -> cb t = CbCountdown ->
  silenceTimer (vars s) <> Some (tid t).
Proof.
  intros (_ & _ & Hall) Hin Hcb E. rewrite Forall_forall in Hall.
  destruct (Hall t Hin) as [_ [Hs _]]. rewrite (Hs E) in Hcb. discriminate.
Qed.

Lemma counting_fire_other (T : N) (c : nat) (u : Timer) (s : State) :
  counting T c s -> earliest (timers (clock s)) = Some u ->
  cb u <> CbCountdown -> counting T c (fire u s).
Proof.
  intros (Hd & Hh & Hc & t & (Hin & Hcb & Hper & Hti & Hsole) & Hpos & Hnow & HT)
         He Hu.
  pose proof (earliest_In _ _ He) as Hu_in.
  pose proof (earliest_le _ _ He t Hin) as Hle.
  pose proof (other_period u s Hd Hu_in Hu) as Hp.
  destruct (fire_other_vars u s Hu) as (Etr & Eti & Ecc).
  assert (Hne : tid t <> tid u).
  { intros E. apply Hu. rewrite <- Hcb. f_equal.
    apply (unique_handle (timers (clock s))); auto. apply Hd. }
  split; [now apply fire_deadline_inv|].
  split; [now apply fire_handles_inv|].
  split; [congruence|].
  exists t. split; [|rewrite Etr, fire_now; repeat split; [lia|lia|exact HT]].
  split.
  { apply fire_other_keeps; auto. now apply sole_not_silence. }
  split; [exact Hcb|]. split; [exact Hper|]. split; [congruence|].
  intros x Hx Hxc. apply Hsole; [|exact Hxc].
  pose proof (fire_no_new_countdown u x s Hx Hxc) as H.
  unfold after_due in H. rewrite Hp in H. apply filter_In in H. tauto.
Qed.

Lemma rearmed_In (t x : Timer) (at_ p : N) (ts : list Timer) :
  In x (map (fun y => if tid y =? tid t
                      then {| tid := tid y; due := at_ + p; cb := cb y;
                              period := period y |}
                      else y) ts) ->
  exists y, In y ts /\ tid x = tid y /\ cb x = cb y /\ period x = period y /\
            (tid y = tid t -> due x = (at_ + p)%N) /\
            (tid y <> tid t -> x = y).
Proof.
  intros H. apply in_map_iff in H as (y & E & Hy). exists y.
  split; [exact Hy|]. destruct (tid y =? tid t) eqn:Et; subst x; simpl.
  - apply Nat.eqb_eq in Et. repeat split; auto. intros Hn. contradiction.
  - apply Nat.eqb_neq in Et. repeat split; auto. intros Hn. contradiction.
Qed.

Lemma fire_countdown_tick (t : Timer) (s : State) :
  cb t = CbCountdown -> (1 < timeRemaining (vars s))%Z ->
  vars (fire t s) = set_timeRemaining (timeRemaining (vars s) - 1) (vars s) /\
  net (fire t s) = net s /\
  timers (clock (fire t s)) = after_due t s.
Proof.
  intros Hc Hk. destruct_state s. unfold after_due.
  destruct t as [t_id t_due t_cb t_per]. exec in Hc. exec in Hk. subst t_cb.
  destruct t_per; exec.
  all: destruct (v_tr - 1 <=? 0)%Z eqn:E; [lia|]; exec; repeat split.
Qed.

Lemma fire_countdown_last (t : Timer) (s : State) :
  cb t = CbCountdown -> (timeRemaining (vars s) <= 1)%Z ->
  timeRemaining (vars (fire t s)) = (timeRemaining (vars s) - 1)%Z /\
  requests (net (fire t s)) =
    requests (net s) ++ [ReqEnd (conversationId (vars s))] /\
  timers (clock (fire t s)) =
    (if recognition (vars s)
     then clear_handle (silenceTimer (vars s))
     else fun ts => ts)
      (clear_handle (timerInterval (vars s)) (after_due t s)).
Proof.
  intros Hc Hk. destruct_state s. unfold after_due, clear_handle.
  destruct t as [t_id t_due t_cb t_per]. exec in Hc. exec in Hk. subst t_cb.
  destruct t_per; exec.
  all: destruct (v_tr - 1 <=? 0)%Z eqn:E; [|lia]; exec.
  all: destruct v_ti, v_rec, v_st; exec; repeat split.
Qed.

Lemma counting_fire_tick (T : N) (c : nat) (t : Timer) (s : State) :
  counting T c s -> In t (timers (clock s)) -> cb t = CbCountdown ->
  (1 < timeRemaining (vars s))%Z -> counting T c (fire t s).
Proof.
  intros (Hd & Hh & Hc & t0 & (Hin0 & Hcb0 & Hper0 & Hti & Hsole) & Hpos & Hnow & HT)
         Hin Hcb Hk.
  assert (t0 = t) by (symmetry; now apply Hsole). subst t0.
  destruct (fire_countdown_tick t s Hcb Hk) as (Ev & En & Ets).
  assert (Etr : timeRemaining (vars (fire t s)) = (timeRemaining (vars s) - 1)%Z)
    by (rewrite Ev; reflexivity).
  unfold after_due in Ets. rewrite Hper0 in Ets.
  set (t' := {| tid := tid t; due := N.max (now (clock s)) (due t) + 1000;
                cb := cb t; period := period t |}).
  assert (Hin' : In t' (timers (clock (fire t s)))).
  { rewrite Ets. apply in_map_iff. exists t. split; [|exact Hin].
    now rewrite Nat.eqb_refl. }
  split; [now apply fire_deadline_inv|].
  split; [now apply fire_handles_inv|].
  split; [unfold close_calls in *; now rewrite En|].
  exists t'. split.
  - split; [exact Hin'|]. split; [exact Hcb|]. split; [exact Hper0|].
    split; [rewrite Ev; exact Hti|].
    intros x Hx Hxc. rewrite Ets in Hx.
    apply rearmed_In in Hx as (y & Hy & E1 & E2 & E3 & E4 & E5).
    assert (y = t) by (apply Hsole; congruence). subst y.
    destruct x as [x_id x_due x_cb x_per]. simpl in *. unfold t'.
    rewrite E4 by reflexivity. congruence.
  - rewrite Etr, fire_now. unfold t'. cbn [due].
    split; [lia|]. split; lia.
Qed.

Lemma counting_fire_last (T : N) (c : nat) (t : Timer) (s : State) :
  counting T c s -> In t (timers (clock s)) -> cb t = CbCountdown ->
  timeRemaining (vars s) = 1%Z -> ended_by_countdown T c (fire t s).
Proof.
  intros (Hd & Hh & Hc & t0 & (Hin0 & Hcb0 & Hper0 & Hti & Hsole) & Hpos & Hnow & HT)
         Hin Hcb Hk.
  assert (t0 = t) by (symmetry; now apply Hsole). subst t0.
  destruct (fire_countdown_last t s Hcb) as (Etr & Er & Ets); [lia|].
  rewrite Hk in Etr.
  split; [now apply fire_deadline_inv|].
  split; [exact Etr|].
  split.
  { unfold close_calls in *. rewrite Er, filter_app, length_app. simpl. lia. }
  split.
  - intros x Hx Hxc. rewrite Ets, Hti in Hx.
    assert (Hx' : In x (cancel_timer (tid t) (after_due t s))).
    { destruct (recognition (vars s)); [|exact Hx].
      destruct (silenceTimer (vars s)); simpl in Hx; [|exact Hx].
      apply filter_In in Hx. tauto. }
    apply filter_In in Hx' as [Hx' Hne].
    unfold after_due in Hx'. rewrite Hper0 in Hx'.
    apply rearmed_In in Hx' as (y & Hy & E1 & E2 & _).
    assert (y = t) by (apply Hsole; congruence). subst y.
    rewrite E1, Nat.eqb_refl in Hne. discriminate.
  - rewrite fire_now. lia.
Qed.

Lemma ended_fire (T : N) (c : nat) (u : Timer) (s : State) :
  ended_by_countdown T c s -> In u (timers (clock s)) ->
  ended_by_countdown T c (fire u s).
Proof.
  intros (Hd & Htr & Hc & Hnone & Hnow) Hin.
  pose proof (Hnone u Hin) as Hu.
  destruct (fire_other_vars u s Hu) as (Etr & _ & Ecc).
  split; [now apply fire_deadline_inv|].
  split; [congruence|]. split; [congruence|]. split.
  - intros x Hx Hxc.
    pose proof (fire_no_new_countdown u x s Hx Hxc) as H.
    unfold after_due in H. rewrite (other_period u s Hd Hin Hu) in H.
    apply filter_In in H as [H _]. exact (Hnone x H Hxc).
  - rewrite fire_now. lia.
Qed.

Lemma counting_handle (T : N) (c : nat) (e : Event) (s : State) :
  counting T c s -> keeps_countdown e s = true -> counting T c (handle e s).
Proof.
  intros (Hd & Hh & Hc & t & (Hin & Hcb & Hper & Hti & Hsole) & Hpos & Hnow & HT) He.
  destruct (handle_dialogue_vars e s He) as (Etr & Eti & Ecc & Enow).
  split; [now apply handle_deadline_inv|].
  split; [now apply handle_handles_inv|].
  split; [congruence|].
  exists t. split; [|rewrite Etr, Enow; auto].
  split.
  { apply handle_dialogue_keeps; auto. now apply sole_not_silence. }
  split; [exact Hcb|]. split; [exact Hper|]. split; [congruence|].
  intros x Hx Hxc. apply Hsole; [|exact Hxc].
  now apply (handle_dialogue_no_new_countdown e x s).
Qed.

Lemma ended_handle (T : N) (c : nat) (e : Event) (s : State) :
  ended_by_countdown T c s -> keeps_countdown e s = true ->
  ended_by_countdown T c (handle e s).
Proof.
  intros (Hd & Htr & Hc & Hnone & Hnow) He.
  destruct (handle_dialogue_vars e s He) as (Etr & Eti & Ecc & Enow).
  split; [now apply handle_deadline_inv|].
  split; [congruence|]. split; [congruence|]. split; [|now rewrite Enow].
  intros x Hx Hxc.
  exact (Hnone x (handle_dialogue_no_new_countdown e x s He Hx Hxc) Hxc).
Qed.

(** *** The clock running *)

Lemma ended_advance (T : N) (c : nat) (fuel : nat) (target : N) (s s' : State) :
  ended_by_countdown T c s -> advance_to fuel target s = Some s' ->
  ended_by_countdown T c s'.
Proof.
  revert s. induction fuel as [|f IH]; intros s Hs H; simpl in H.
  - destruct (earliest (timers (clock s))) as [t|];
      [destruct (due t <=? target)%N; [discriminate|]|];
      injection H as <-; destruct_state s;
      destruct Hs as (Hd & Htr & Hc & Hnone & Hnow);
      (split; [exact Hd|]; split; [exact Htr|]; split; [exact Hc|];
       split; [exact Hnone|]; cbn in *; lia).
  - destruct (earliest (timers (clock s))) as [t|] eqn:E;
      [destruct (due t <=? target)%N|].
    + eapply IH; [|exact H]. apply ended_fire; [exact Hs|].
      now apply earliest_In.
    + injection H as <-. destruct_state s.
      destruct Hs as (Hd & Htr & Hc & Hnone & Hnow).
      split; [exact Hd|]. split; [exact Htr|]. split; [exact Hc|].
      split; [exact Hnone|]. cbn in *. lia.
    + injection H as <-. destruct_state s.
      destruct Hs as (Hd & Htr & Hc & Hnone & Hnow).
      split; [exact Hd|]. split; [exact Htr|]. split; [exact Hc|].
      split; [exact Hnone|]. cbn in *. lia.
Qed.

Lemma counting_later (T : N) (c : nat) (target : N) (s : State) :
  counting T c s ->
  (forall x, In x (timers (clock s)) -> (target < due x)%N) ->
  counting T c (upd_clock (set_now (N.max (now (clock s)) target)) s) /\
  (target < T)%N.
Proof.
  intros (Hd & Hh & Hc & t & (Hin & Hcb & Hper & Hti & Hsole) & Hpos & Hnow & HT)
         Hlate.
  pose proof (Hlate t Hin) as Ht.
  split; [|lia].
  destruct_state s.
  split; [exact Hd|]. split; [exact Hh|]. split; [exact Hc|].
  exists t. split; [repeat split; assumption|].
  cbn in *. repeat split; lia.
Qed.

Lemma counting_advance (T : N) (c : nat) (fuel : nat) (target : N)
    (s s' : State) :
  counting T c s -> advance_to fuel target s = Some s' ->
  ((target < T)%N -> counting T c s') /\
  ((T <= target)%N -> ended_by_countdown T c s').
Proof.
  revert s. induction fuel as [|f IH]; intros s Hs H; simpl in H.
  - destruct (earliest (timers (clock s))) as [u|] eqn:E.
    + destruct (due u <=? target)%N eqn:Hdue; [discriminate|].
      apply N.leb_gt in Hdue. injection H as <-.
      destruct (counting_later T c target s Hs) as [H1 H2].
      { intros x Hx. pose proof (earliest_le _ _ E x Hx). lia. }
      split; [auto|lia].
    + exfalso. apply earliest_None in E.
      destruct Hs as (_ & _ & _ & t & (Hin & _) & _). rewrite E in Hin.
      destruct Hin.
  - destruct (earliest (timers (clock s))) as [u|] eqn:E.
    + destruct (due u <=? target)%N eqn:Hdue.
      * apply N.leb_le in Hdue.
        pose proof (earliest_In _ _ E) as Hu.
        destruct u as [u_id u_due u_cb u_per] eqn:Eu.
        assert (Hcases : u_cb = CbCountdown \/ u_cb <> CbCountdown)
          by (destruct u_cb; auto; right; discriminate).
        rewrite <- Eu in *.
        destruct Hcases as [Hc|Hc].
        -- assert (Hcb : cb u = CbCountdown) by (rewrite Eu; exact Hc).
           assert (Hk : (timeRemaining (vars s) = 1 \/ 1 < timeRemaining (vars s))%Z).
           { destruct Hs as (_ & _ & _ & t & _ & Hpos & _). lia. }
           destruct Hk as [Hk|Hk].
           ++ pose proof (counting_fire_last T c u s Hs Hu Hcb Hk) as He.
              pose proof (ended_advance T c f target _ s' He H) as He'.
              split; [|auto]. intros Hlt. exfalso.
              destruct Hs as (_ & _ & _ & t & (Hin & Hcbt & _ & _ & Hsole)
                              & _ & _ & HT).
              assert (t = u) by (symmetry; now apply Hsole). subst t. lia.
           ++ apply (IH (fire u s)); [|exact H].
              now apply counting_fire_tick.
        -- apply (IH (fire u s)); [|exact H].
           apply counting_fire_other; auto. rewrite Eu. exact Hc.
      * apply N.leb_gt in Hdue. injection H as <-.
        destruct (counting_later T c target s Hs) as [H1 H2].
        { intros x Hx. pose proof (earliest_le _ _ E x Hx). lia. }
        split; [auto|lia].
    + exfalso. apply earliest_None in E.
      destruct Hs as (_ & _ & _ & t & (Hin & _) & _). rewrite E in Hin.
      destruct Hin.
Qed.

(** *** From the start reply on *)

Lemma start_reply_timers (id : nat) (r : FetchResult) (s : State) :
  find_pending id s = Some KStart -> start_fails r = false ->
  let s' := handle (FetchSettled id r) s in
  In (countdown_timer s) (timers (clock s')) /\
  timerInterval (vars s') = Some (nextTid (clock s)) /\
  timeRemaining (vars s') = timeRemaining (vars s) /\
  close_calls s' = close_calls s /\
  now (clock s') = now (clock s) /\
  (forall x, In x (timers (clock s')) ->
     x = countdown_timer s \/ In x (timers (clock s))).
Proof.
  intros Hp Hr. cbn [handle]. rewrite Hp. unfold countdown_timer.
  destruct_state s. destruct r as [|[|] [| |fields]]; try discriminate. exec.
  destruct (truthy (lookup "greeting" fields)), v_rec, v_st; exec.
  all: repeat split; try count_requests.
  all: try (apply in_or_app; right; left; reflexivity).
  all: intros x Hx; apply in_app_or in Hx as [Hx|[<-|[]]]; auto; right.
  all: try (apply filter_In in Hx as [Hx _]); exact Hx.
Qed.

Lemma start_counting (supported : bool) (id : nat) (r : FetchResult)
    (s : State) :
  reachable supported s ->
  (forall x, In x (timers (clock s)) -> cb x <> CbCountdown) ->
  find_pending id s = Some KStart -> start_fails r = false ->
  (0 < timeRemaining (vars s))%Z ->
  counting (now (clock s) + 1000 * Z.to_N (timeRemaining (vars s)))
           (close_calls s) (handle (FetchSettled id r) s).
Proof.
  intros Hreach Hnone Hp Hr Hpos.
  destruct (start_reply_timers id r s Hp Hr) as (Hin & Hti & Htr & Hcc & Hnow & Hold).
  split; [apply handle_deadline_inv; eapply reachable_deadline_inv; eauto|].
  split; [apply handle_handles_inv; eapply reachable_handles_inv; eauto|].
  split; [exact Hcc|].
  exists (countdown_timer s). split.
  - split; [exact Hin|]. split; [reflexivity|]. split; [reflexivity|].
    split; [exact Hti|].
    intros x Hx Hxc. destruct (Hold x Hx) as [->|Hx']; [reflexivity|].
    destruct (Hnone x Hx' Hxc).
  - rewrite Htr, Hnow. cbn [countdown_timer due]. split; [exact Hpos|].
    split; lia.
Qed.

Lemma dialogue_phase (T : N) (c : nat) (s s' : State) :
  counting T c s -> dialogue s s' ->
  counting T c s' \/ ended_by_countdown T c s'.
Proof.
  intros Hs H. induction H as [s|e s s' _ IH He|fuel target s s' s'' _ IH E].
  - now left.
  - unfold dispatch. destruct (enabled e s'); [|auto].
    destruct (IH Hs) as [H|H].
    + left. now apply counting_handle.
    + right. now apply ended_handle.
  - destruct (IH Hs) as [H|H].
    + destruct (counting_advance T c fuel target s' s'' H E) as [H1 H2].
      destruct (N.ltb_spec target T); [left|right]; auto.
    + right. eapply ended_advance; eauto.
Qed.

(** X21.  The countdown ends the session on time.  Take a reachable state
    with no countdown pending and time remaining, and let a start reply be
    accepted there; let T be that moment plus one second for each second
    remaining.  However the events of the dialogue (recognition and
    utterance events, replies to messages, typing, the send and start
    buttons, visibility changes) and the passing of time interleave from
    then on: while the clock is before T no end request has been issued
    and time remains; once the clock is past T exactly one end request has
    been issued and the time remaining is 0.  And the clock can always be
    advanced to T, where the session has been ended. *)
Theorem countdown_ends_session (supported : bool) (id : nat)
    (r : FetchResult) (s0 s' : State) :
  reachable supported s0 ->
  (forall x, In x (timers (clock s0)) -> cb x <> CbCountdown) ->
  find_pending id s0 = Some KStart -> start_fails r = false ->
  (0 < timeRemaining (vars s0))%Z ->
  let T := (now (clock s0) + 1000 * Z.to_N (timeRemaining (vars s0)))%N in
  dialogue (handle (FetchSettled id r) s0) s' ->
  ((now (clock s') < T)%N ->
   close_calls s' = close_calls s0 /\ (0 < timeRemaining (vars s'))%Z) /\
  ((T < now (clock s'))%N ->
   close_calls s' = S (close_calls s0) /\ timeRemaining (vars s') = 0%Z) /\
  exists s'', advance_to (firings_bound T s') T s' = Some s'' /\
    close_calls s'' = S (close_calls s0) /\ timeRemaining (vars s'') = 0%Z.
Proof.
  intros Hreach Hnone Hp Hr Hpos T Hd.
  pose proof (start_counting supported id r s0 Hreach Hnone Hp Hr Hpos) as Hs.
  fold T in Hs.
  destruct (dialogue_phase T _ _ s' Hs Hd) as [H|H].
  - assert (Hinv : deadline_inv s') by apply H.
    destruct (advance_total (firings_bound T s') T s' Hinv (le_n _)) as [s'' E].
    destruct (counting_advance T _ _ T s' s'' H E) as [_ He].
    specialize (He (N.le_refl _)).
    destruct H as (_ & _ & Hc & t & _ & Hk & Hnow & HT).
    split; [intros _; auto|]. split; [intros Hlt; lia|].
    exists s''. split; [exact E|]. split; apply He.
  - assert (Hinv : deadline_inv s') by apply H.
    destruct (advance_total (firings_bound T s') T s' Hinv (le_n _)) as [s'' E].
    pose proof (ended_advance T _ _ T s' s'' H E) as He.
    destruct H as (_ & Htr & Hc & _ & Hnow).
    split; [intros Hlt; lia|]. split; [intros _; auto|].
    exists s''. split; [exact E|]. split; apply He.
Qed.

Lemma countdown_ends_session_witness :
  let s0 := dispatch ClickStart (loaded true) in
  let s := handle (FetchSettled 0 (start_reply (VStr (lit "Hi")))) s0 in
  (forall s1, advance_to 300 299999 s = Some s1 ->
     close_calls s1 = 0 /\ (0 < timeRemaining (vars s1))%Z) /\
  (exists s1, advance_to 300 299999 s = Some s1) /\
  exists s2, advance_to (firings_bound 300000 s) 300000 s = Some s2 /\
    close_calls s2 = 1 /\ timeRemaining (vars s2) = 0%Z.
Proof.
  intros s0 s.
  assert (Hreach : reachable true s0) by apply reach_event, reach_loaded.
  assert (Hnone : forall x, In x (timers (clock s0)) -> cb x <> CbCountdown)
    by (intros x Hx; destruct Hx).
  split; [|split].
  - intros s1 E.
    destruct (countdown_ends_session true 0 (start_reply (VStr (lit "Hi")))
                s0 s1 Hreach Hnone eq_refl eq_refl eq_refl) as (H & _).
    + eapply dialogue_time; [apply dialogue_refl|exact E].
    + apply H.
      assert (En : now (clock s1) = 299999%N).
      { revert E. vm_compute. intros E. injection E as <-. reflexivity. }
      rewrite En. reflexivity.
  - eexists. vm_compute. reflexivity.
  - destruct (countdown_ends_session true 0 (start_reply (VStr (lit "Hi")))
                s0 s Hreach Hnone eq_refl eq_refl eq_refl) as (_ & _ & H).
    + apply dialogue_refl.
    + exact H.
Defined.

(* ================================================================== *)
(** ** The reply to the end request (lines 369-387) *)



(* ================================================================== *)
(** ** Where capture starts (lines 187-218, 250, 356) *)

Ltac count_attempts :=
  unfold attempts; cbn [recCalls recog];
  rewrite ?filter_app, ?length_app; cbn [filter is_start List.length];
  rewrite ?Nat.add_0_r; try reflexivity; try lia.

Lemma handle_attempts (e : Event) (s : State) :
  (forall id, e <> TimerFire id) -> attempts (handle e s) = attempts s.
Proof.
  intros He. destruct e; cbn [handle]; try (now destruct (He id)).
  all: destruct_state s; exec.
  all: script_cases; count_attempts.
Qed.

Lemma fire_attempts (t : Timer) (s : State) :
  attempts (fire t s) = attempts s \/
  (recognition (vars s) = true /\ isListening (vars s) = false /\
   resumes_capture (cb t) = true /\ attempts (fire t s) = S (attempts s)).
Proof.
  destruct_state s. fire_cases t; exec.
  all: script_cases; try (left; count_attempts; fail).
  all: right; repeat split; count_attempts.
Qed.

(** X23.  [recognition.start()] is called from timer closures only, and
    never while [isListening] is set: an event that issues a capture
    attempt is the firing of a timer armed by the end of an utterance, by
    silence with nothing said or by a failed send, in a state with a
    recognition object and [isListening] off, and it issues exactly one. *)
Theorem capture_starts_only_from_resume_timers (e : Event) (s : State) :
  attempts (dispatch e s) <> attempts s ->
  recognition (vars s) = true /\ isListening (vars s) = false /\
  attempts (dispatch e s) = S (attempts s) /\
  exists id t, e = TimerFire id /\ find_timer id s = Some t /\
               resumes_capture (cb t) = true.
Proof.
  unfold dispatch. destruct (enabled e s); [|congruence].
  destruct e; try (intros H; exfalso; apply H; apply handle_attempts;
                   intros; discriminate).
  cbn [handle]. destruct (find_timer id s) as [t|] eqn:E; [|congruence].
  intros H. destruct (fire_attempts t s) as [H'|(H1 & H2 & H3 & H4)];
    [contradiction|].
  repeat split; auto. now exists id, t.
Qed.

Lemma capture_starts_only_from_resume_timers_witness :
  isListening (vars session_greeted) = false /\
  attempts (dispatch (TimerFire 2) session_greeted) = 1.
Proof.
  destruct (capture_starts_only_from_resume_timers (TimerFire 2) session_greeted)
    as (_ & H1 & H2 & _).
  - vm_compute. discriminate.
  - split; [exact H1|]. rewrite H2. reflexivity.
Defined.

(* ================================================================== *)
(** ** One turn of the dialogue (lines 73-99, 167-252, 334-352) *)

Lemma fresh_filter (n : nat) (g : nat * Continuation -> bool)
    (l : list (nat * Continuation)) :
  Forall (fun p => fst p < n) l -> Forall (fun p => fst p < n) (filter g l).
Proof.
  intros H. apply Forall_forall. intros x Hx. apply filter_In in Hx.
  rewrite Forall_forall in H. apply H. tauto.
Qed.

Lemma fresh_push (n : nat) (k : Continuation) (l : list (nat * Continuation)) :
  Forall (fun p => fst p < n) l ->
  Forall (fun p => fst p < S n) (l ++ [(n, k)]).
Proof.
  intros H. apply Forall_app. split.
  - revert H. apply Forall_impl. intros; lia.
  - constructor; [simpl; lia|constructor].
Qed.

Ltac fresh_tac H :=
  repeat first [ exact H | apply fresh_push | apply fresh_filter ].

Lemma fire_pending_fresh (t : Timer) (s : State) :
  pending_fresh s -> pending_fresh (fire t s).
Proof.
  intros H. unfold pending_fresh in *. destruct_state s. exec in H.
  fire_cases t; exec.
  all: script_cases; fresh_tac H.
Qed.

Lemma handle_pending_fresh (e : Event) (s : State) :
  pending_fresh s -> pending_fresh (handle e s).
Proof.
  intros H. destruct e; cbn [handle];
    try (destruct (find_timer id s); [now apply fire_pending_fresh|exact H]).
  all: unfold pending_fresh in *; destruct_state s; exec in H; exec.
  all: script_cases; fresh_tac H.
Qed.

Lemma reachable_pending_fresh (supported : bool) (s : State) :
  reachable supported s -> pending_fresh s.
Proof.
  apply (reachable_invariant pending_fresh).
  - intros e s0 H _. now apply handle_pending_fresh.
  - intros t s0 H. now apply fire_pending_fresh.
  - intros x s0 H. exact H.
  - destruct supported; constructor.
Qed.

Lemma find_pending_new (q : nat) (k : Continuation)
    (l : list (nat * Continuation)) :
  Forall (fun p => fst p < q) l ->
  find (fun p => fst p =? q) (l ++ [(q, k)]) = Some (q, k).
Proof.
  induction l as [|x l IH]; simpl; intros H.
  - now rewrite Nat.eqb_refl.
  - inversion H as [|? ? Hx Hl]; subst.
    destruct (fst x =? q) eqn:E; [apply Nat.eqb_eq in E; lia|]. now apply IH.
Qed.

Lemma filter_pending_new (q : nat) (k : Continuation)
    (l : list (nat * Continuation)) :
  Forall (fun p => fst p < q) l ->
  filter (fun p : nat * Continuation =>
            if (let (x, _) := p in x) =? q then false else true)
         (l ++ [(q, k)]) = l.
Proof.
  intros H. rewrite filter_app. simpl. rewrite Nat.eqb_refl. simpl.
  rewrite app_nil_r. induction l as [|x l IH]; simpl; [reflexivity|].
  inversion H as [|? ? Hx Hl]; subst. destruct x as [i c]. simpl in *.
  destruct (i =? q) eqn:E; [apply Nat.eqb_eq in E; lia|].
  now rewrite IH.
Qed.

(** *** Calm timers as time passes *)

Lemma retime_self (s : State) :
  s = retime (timeRemaining (vars s)) (now (clock s)) (timers (clock s)) s.
Proof. now destruct_state s. Qed.

Lemma retime_retime (a a' : Z) (n n' : N) (l l' : list Timer) (s : State) :
  retime a n l (retime a' n' l' s) = retime a n l s.
Proof. now destruct_state s. Qed.

Lemma fire_calm_retime (t : Timer) (s : State) :
  calm t -> (cb t = CbCountdown -> (1 < timeRemaining (vars s))%Z) ->
  exists tr,
    fire t s = retime tr (N.max (now (clock s)) (due t)) (after_due t s) s.
Proof.
  unfold calm, is_silence, retime, after_due. destruct_state s.
  fire_cases t; exec; intros [H1 H2] H3; try discriminate.
  all: script_cases; try (eexists; reflexivity).
  all: specialize (H3 eq_refl); lia.
Qed.

Lemma fire_budget (k : Z) (H : N) (t : Timer) (s : State) :
  deadline_inv s -> In t (timers (clock s)) -> (due t <= H)%N ->
  budget k H s -> budget k H (fire t s).
Proof.
  unfold budget. intros Hinv Hin Hd Hb.
  pose proof (fire_bound_decreases H t s Hinv Hin Hd).
  pose proof (fire_timeRemaining t s). lia.
Qed.

Lemma budget_tick (k : Z) (H : N) (t : Timer) (s : State) :
  (0 <= k)%Z ->
  In t (timers (clock s)) -> (due t <= H)%N -> budget k H s ->
  (1 < timeRemaining (vars s))%Z.
Proof.
  unfold budget, firings_bound. intros Hk Hin Hd Hb.
  pose proof (weight_In H t _ Hin) as Hw.
  assert (1 <= weight H t).
  { unfold weight. destruct (period t).
    - apply N.leb_le in Hd. rewrite Hd. apply le_n_S, Nat.le_0_l.
    - destruct (is_silence t); lia. }
  lia.
Qed.

Lemma advance_calm (k : Z) (H : N) (fuel : nat) (target : N) (s s' : State) :
  (0 <= k)%Z ->
  deadline_inv s -> Forall calm (timers (clock s)) ->
  (target <= H)%N -> budget k H s ->
  advance_to fuel target s = Some s' ->
  exists tr ts,
    s' = retime tr (N.max (now (clock s)) target) ts s /\
    deadline_inv s' /\ Forall calm ts /\ budget k H s'.
Proof.
  intros Hk Hinv Hcalm HH Hb Hadv. revert s Hinv Hcalm Hb Hadv.
  induction fuel as [|f IH]; intros s Hinv Hcalm Hb H0; simpl in H0.
  - destruct (earliest (timers (clock s))) as [t|];
      [destruct (due t <=? target)%N; [discriminate|]|];
      injection H0 as <-; exists (timeRemaining (vars s)), (timers (clock s));
      destruct_state s;
      (split; [reflexivity|split; [exact Hinv|split; [exact Hcalm|exact Hb]]]).
  - destruct (earliest (timers (clock s))) as [t|] eqn:E;
      [destruct (due t <=? target)%N eqn:Hd|];
      try (injection H0 as <-; exists (timeRemaining (vars s)), (timers (clock s));
           destruct_state s;
      (split; [reflexivity|split; [exact Hinv|split; [exact Hcalm|exact Hb]]])).
    apply N.leb_le in Hd.
    pose proof (earliest_In _ _ E) as Hin.
    assert (Ht : calm t) by (rewrite Forall_forall in Hcalm; auto).
    assert (Hd' : (due t <= H)%N) by lia.
    pose proof (budget_tick k H t s Hk Hin Hd' Hb) as Htick.
    destruct (fire_calm_retime t s Ht (fun _ => Htick)) as [tr1 E1].
    assert (Hts1 : timers (clock (fire t s)) = after_due t s)
      by (rewrite E1; now destruct_state s).
    assert (Hn1 : now (clock (fire t s)) = N.max (now (clock s)) (due t))
      by apply fire_now.
    destruct (IH (fire t s)) as (tr & ts & E2 & Hinv' & Hcalm' & Hb').
    + now apply fire_deadline_inv.
    + rewrite Hts1. now apply after_due_calm.
    + now apply fire_budget.
    + exact H0.
    + exists tr, ts. split; [|split; [|split]; assumption].
      rewrite E2, Hn1. rewrite E1 at 1. rewrite retime_retime.
      f_equal. lia.
Qed.

Lemma after_due_calm_but (T t : Timer) (s : State) :
  Forall (calm_but T) (timers (clock s)) -> Forall (calm_but T) (after_due t s).
Proof.
  intros H. unfold after_due. destruct (period t).
  - apply Forall_forall. intros x Hx. apply in_map_iff in Hx as (y & <- & Hy).
    rewrite Forall_forall in H. specialize (H y Hy).
    destruct (tid y =? tid t); [|exact H].
    exact H.
  - eapply thins_Forall; [|exact H]. apply thins_cancel, thins_refl.
Qed.

Lemma after_due_In (T t : Timer) (s : State) :
  In T (timers (clock s)) -> tid t <> tid T -> In T (after_due t s).
Proof.
  intros Hin Hne. unfold after_due. destruct (period t).
  - apply in_map_iff. exists T. split; [|exact Hin].
    destruct (tid T =? tid t) eqn:E; [|reflexivity].
    apply Nat.eqb_eq in E. congruence.
  - unfold cancel_timer. apply filter_In. split; [exact Hin|].
    destruct (tid T =? tid t) eqn:E; [|reflexivity].
    apply Nat.eqb_eq in E. congruence.
Qed.

Lemma advance_special (k : Z) (H : N) (T : Timer) (fuel : nat) (target : N)
    (s s' : State) :
  (0 <= k)%Z ->
  deadline_inv s -> In T (timers (clock s)) ->
  Forall (calm_but T) (timers (clock s)) ->
  (now (clock s) <= due T)%N -> (due T <= target)%N -> (target <= H)%N ->
  budget k H s ->
  advance_to fuel target s = Some s' ->
  exists tr n ts fuel',
    (n <= due T)%N /\
    deadline_inv (retime tr n ts s) /\ In T ts /\ Forall (calm_but T) ts /\
    budget k H (retime tr n ts s) /\
    advance_to fuel' target (fire T (retime tr n ts s)) = Some s'.
Proof.
  intros Hk Hinv Hin Hcalm Hnow HT HH Hb Hadv.
  revert s Hinv Hin Hcalm Hnow Hb Hadv.
  induction fuel as [|f IH]; intros s Hinv Hin Hcalm Hnow Hb H0; simpl in H0.
  - destruct (earliest (timers (clock s))) as [t|] eqn:E.
    + pose proof (earliest_le _ _ E T Hin) as Hle.
      assert (Hd : (due t <=? target)%N = true) by (apply N.leb_le; lia).
      rewrite Hd in H0. discriminate.
    + apply earliest_None in E. rewrite E in Hin. destruct Hin.
  - destruct (earliest (timers (clock s))) as [t|] eqn:E.
    2:{ apply earliest_None in E. rewrite E in Hin. destruct Hin. }
    pose proof (earliest_le _ _ E T Hin) as Hle.
    pose proof (earliest_In _ _ E) as Hint.
    assert (Hd : (due t <=? target)%N = true) by (apply N.leb_le; lia).
    rewrite Hd in H0.
    destruct (Nat.eq_dec (tid t) (tid T)) as [Heq|Hne].
    + assert (t = T) by (eapply unique_handle; eauto; apply Hinv). subst t.
      exists (timeRemaining (vars s)), (now (clock s)), (timers (clock s)), f.
      rewrite <- retime_self.
      split; [exact Hnow|]. split; [exact Hinv|]. split; [exact Hin|].
      split; [exact Hcalm|]. split; [exact Hb|exact H0].
    + assert (Ht : calm t).
      { rewrite Forall_forall in Hcalm.
        destruct (Hcalm t Hint); [assumption|contradiction]. }
      assert (Hd' : (due t <= H)%N) by lia.
      pose proof (budget_tick k H t s Hk Hint Hd' Hb) as Htick.
      destruct (fire_calm_retime t s Ht (fun _ => Htick)) as [tr1 E1].
      assert (Hts1 : timers (clock (fire t s)) = after_due t s)
        by (rewrite E1; now destruct_state s).
      assert (Hn1 : now (clock (fire t s)) = N.max (now (clock s)) (due t))
        by apply fire_now.
      destruct (IH (fire t s))
        as (tr & n & ts & fuel' & Hn & Hinv' & Hin' & Hc' & Hb' & Hadv').
      * now apply fire_deadline_inv.
      * rewrite Hts1. now apply after_due_In.
      * rewrite Hts1. now apply after_due_calm_but.
      * rewrite Hn1. lia.
      * now apply fire_budget.
      * exact H0.
      * exists tr, n, ts, fuel'. rewrite E1, retime_retime in Hinv', Hb', Hadv'.
        split; [exact Hn|]. split; [exact Hinv'|]. split; [exact Hin'|].
        split; [exact Hc'|]. split; [exact Hb'|exact Hadv'].
Qed.

Lemma calm_but_cancel (T : Timer) (ts : list Timer) :
  Forall (calm_but T) ts -> Forall calm (cancel_timer (tid T) ts).
Proof.
  intros H. apply Forall_forall. intros x Hx.
  apply filter_In in Hx as [Hx Hne].
  rewrite Forall_forall in H. destruct (H x Hx) as [Hc|Heq]; [exact Hc|].
  rewrite Heq, Nat.eqb_refl in Hne. discriminate.
Qed.

(** *** Playing a timed trace *)

Lemma play_mono (f f' : nat) (steps : list Step) (s s' : State) :
  play f steps s = Some s' -> f <= f' -> play f' steps s = Some s'.
Proof.
  intros H Hle. revert s H.
  induction steps as [|[e|dt] rest IH]; intros s H; simpl in *.
  - exact H.
  - destruct (enabled e s); [now apply IH|discriminate].
  - unfold wait in *. destruct (unloaded (page s)); [now apply IH|].
    destruct (advance_to f (now (clock s) + dt) s) as [x|] eqn:E;
      [|discriminate].
    rewrite (advance_to_mono _ _ _ _ _ E Hle). now apply IH.
Qed.

Lemma play_deliver_ex (P : State -> Prop) (e : Event) (rest : list Step)
    (s : State) :
  enabled e s = true ->
  (exists f s', play f rest (handle e s) = Some s' /\ P s') ->
  exists f s', play f (Deliver e :: rest) s = Some s' /\ P s'.
Proof.
  intros He (f & s' & H & HP). exists f, s'. simpl. rewrite He. now split.
Qed.

Lemma play_elapse_ex (P : State -> Prop) (dt : N) (rest : list Step)
    (f0 : nat) (s x : State) :
  unloaded (page s) = false ->
  advance_to f0 (now (clock s) + dt) s = Some x ->
  (exists f s', play f rest x = Some s' /\ P s') ->
  exists f s', play f (Elapse dt :: rest) s = Some s' /\ P s'.
Proof.
  intros Hu Hadv (f & s' & H & HP). exists (Nat.max f0 f), s'.
  split; [|exact HP]. simpl. unfold wait. rewrite Hu.
  rewrite (advance_to_mono f0 (Nat.max f0 f) _ _ _ Hadv) by lia.
  apply (play_mono f); [exact H|lia].
Qed.

Lemma play_unique (f1 f2 : nat) (steps : list Step) (s a b : State) :
  play f1 steps s = Some a -> play f2 steps s = Some b -> a = b.
Proof.
  intros H1 H2.
  apply (play_mono f1 (Nat.max f1 f2)) in H1; [|lia].
  apply (play_mono f2 (Nat.max f1 f2)) in H2; [|lia].
  congruence.
Qed.

(** *** The turn, step by step *)

Lemma Nmax_add (a d : N) : N.max a (a + d) = (a + d)%N.
Proof. lia. Qed.

Lemma budget_weaken (k k' : Z) (H : N) (s s' : State) :
  budget k H s -> timeRemaining (vars s') = timeRemaining (vars s) ->
  (Z.of_nat (firings_bound H s') + k' <= Z.of_nat (firings_bound H s) + k)%Z ->
  budget k' H s'.
Proof. unfold budget. intros Hb E Hle. rewrite E. lia. Qed.

Lemma bound_cancel (H : N) (a : nat) (ts : list Timer) :
  list_sum (map (weight H) (cancel_timer a ts)) <= list_sum (map (weight H) ts).
Proof. apply weight_filter. Qed.

Lemma bound_clear (H : N) (h : option nat) (ts : list Timer) :
  list_sum (map (weight H) (clear_handle h ts)) <= list_sum (map (weight H) ts).
Proof. destruct h; [apply bound_cancel|apply le_n]. Qed.

Lemma bound_push (H : N) (x : Timer) (ts : list Timer) :
  list_sum (map (weight H) (ts ++ [x])) =
  list_sum (map (weight H) ts) + weight H x.
Proof. rewrite map_app, list_sum_app. simpl. lia. Qed.

(** Let [d] ms pass in state [x], whose pending timers are all calm. *)
Tactic Notation "elapse_calm" constr(k) constr(finish) constr(x)
    constr(E) constr(Hinv) constr(Hc) constr(Hb)
    "as" ident(x') ident(tr) ident(ts) ident(E') ident(Hinv') ident(Hc')
    ident(Hb') :=
  match goal with
  | |- context [play _ (Elapse ?d :: _) x] =>
      let Hadv := fresh "Hadv" in
      destruct (advance_total (firings_bound (now (clock x) + d) x)
                  (now (clock x) + d) x Hinv (le_n _)) as [x' Hadv];
      eapply play_elapse_ex; [rewrite E; reflexivity|exact Hadv|];
      destruct (advance_calm k finish (firings_bound (now (clock x) + d) x)
                  (now (clock x) + d) x x') as
        (tr & ts & E' & Hinv' & Hc' & Hb');
      [lia|exact Hinv|exact Hc|rewrite E; cbn [now clock]; lia|exact Hb|
       exact Hadv|];
      clear Hadv;
      rewrite E in E'; unfold retime in E'; exec in E';
      rewrite ?Nmax_add, ?N.max_id in E'
  end.

(** Deliver an event in state [x] that leaves the timers calm. *)
Tactic Notation "deliver_calm" constr(k) constr(k') constr(finish) constr(x)
    constr(E) constr(Hinv) constr(Hb)
    "as" ident(x') ident(E') ident(Hinv') ident(Hb')
    "[" tactic3(en) "|" tactic3(st) "|" tactic3(bd) "]" :=
  match goal with
  | |- context [play _ (Deliver ?e :: _) x] =>
      apply play_deliver_ex; [rewrite E; en|];
      set (x' := handle e x);
      assert (Hinv' : deadline_inv x') by apply handle_deadline_inv, Hinv;
      eassert (E' : x' = _) by (subst x'; rewrite E; st);
      assert (Hb' : budget k' finish x')
        by (apply (budget_weaken k k' finish x x' Hb);
            [rewrite E', E; reflexivity|
             unfold firings_bound; rewrite E', E; cbn [timers clock]; bd]);
      clearbody x'
  end.

Lemma turn_after_result (ok : bool) (fields : list (string * Value))
    (d_end d_reply d_speech d_start : N) (k : nat) (ts0 : list Timer)
    (s : State) :
  let T := {| tid := k; due := now (clock s) + 5000; cb := CbSilence;
              period := None |} in
  let message := trim (finalTranscript (vars s)) in
  let finish :=
    (now (clock s) + 5000 + d_end + d_reply + d_speech + 500 + d_start)%N in
  deadline_inv s -> pending_fresh s ->
  unloaded (page s) = false ->
  recognition (vars s) = true -> isListening (vars s) = true ->
  recState (recog s) = RecRunning ->
  truthy (conversationId (vars s)) = true ->
  message <> [] ->
  truthy (lookup "response" fields) = true ->
  silenceTimer (vars s) = Some k ->
  timers (clock s) = ts0 ++ [T] -> Forall calm ts0 ->
  budget 1 finish s ->
  exists fuel s',
    play fuel (heard_trace (Response ok (JObject fields))
                 d_end d_reply d_speech d_start s) s = Some s' /\
    isListening (vars s') = true /\ recState (recog s') = RecRunning /\
    finalTranscript (vars s') = [] /\ interimTranscript (vars s') = [] /\
    attempts s' = S (attempts s) /\
    requests (net s') =
      requests (net s) ++ [ReqSend (conversationId (vars s)) message] /\
    pending (net s') = pending (net s) /\
    chat (page s') =
      chat (page s) ++ [(VStr message, true); (lookup "response" fields, false)] /\
    queue (synth s') = [] /\
    now (clock s') = finish /\
    Forall calm (timers (clock s')) /\
    (0 < timeRemaining (vars s'))%Z.
Proof.
  intros T message finish Hinv Hfresh Hunl Hrec Hlis Hrun Hcid Hmsg Hresp
    Hst Hts Hcalm Hb.
  unfold pending_fresh in Hfresh.
  unfold attempts, heard_trace in *.
  destruct_state s.
  exec in Hunl. exec in Hrec. exec in Hlis. exec in Hrun. exec in Hcid.
  exec in Hst. exec in Hts.
  cbn [finalTranscript vars] in message.
  cbn [nextReq net pending fst] in Hfresh.
  cbn [now clock] in T, finish.
  assert (Hfin : finish =
            (k_now + 5000 + d_end + d_reply + d_speech + 500 + d_start)%N)
    by reflexivity.
  clearbody finish.
  subst p_unl v_rec v_lis r_st v_st k_ts.
  assert (Hne : is_empty (trim v_ft) = false).
  { subst message. destruct (trim v_ft); [congruence|reflexivity]. }
  cbn [nextTid nextReq nextUid clock net synth now vars recog page
       finalTranscript conversationId recCalls requests pending chat].
  match goal with |- context [play _ _ ?x] => set (x0 := x) in * end.
  (* five seconds of silence *)
  destruct (advance_total (firings_bound (k_now + 5000) x0) (k_now + 5000) x0
              Hinv (le_n _)) as [x1 Hadv1].
  eapply play_elapse_ex; [reflexivity|exact Hadv1|].
  destruct (advance_special 1 finish T (firings_bound (k_now + 5000) x0)
              (k_now + 5000) x0 x1) as
    (tr1 & n1 & ts1 & f1 & Hn1 & Hinv1 & Hin1 & Hc1 & Hb1 & Hadv1');
    [lia|exact Hinv|subst x0; cbn [timers clock]; apply in_or_app; right; left;
     reflexivity| | | | |exact Hb|exact Hadv1|].
  { subst x0. cbn [timers clock]. apply Forall_app. split.
    - eapply Forall_impl; [|exact Hcalm]. intros a Ha. now left.
    - constructor; [right; reflexivity|constructor]. }
  { subst x0 T. cbn [now clock due]. lia. }
  { subst T. cbn [due]. lia. }
  { lia. }
  set (xf := fire T (retime tr1 n1 ts1 x0)) in *.
  assert (Hinvf : deadline_inv xf) by (apply fire_deadline_inv, Hinv1).
  assert (Hbf : budget 1 finish xf).
  { apply fire_budget; [exact Hinv1|exact Hin1|subst T; cbn [due]; lia|
      exact Hb1]. }
  cbn [due T] in Hn1.
  eassert (Ef : xf = _)
    by (subst xf x0 T; unfold retime; exec;
        rewrite (N.max_r n1 (k_now + 5000)) by exact Hn1;
        rewrite Hne; exec; rewrite Hcid; exec; reflexivity).
  assert (Hcf : Forall calm (timers (clock xf))).
  { rewrite Ef. cbn [timers clock]. apply calm_cancel.
    exact (calm_but_cancel T ts1 Hc1). }
  destruct (advance_calm 1 finish f1 (k_now + 5000) xf x1) as
    (tr2 & ts2 & E1 & Hinvx1 & Hcx1 & Hbx1);
    [lia|exact Hinvf|exact Hcf|lia|exact Hbf|exact Hadv1'|].
  rewrite Ef in E1. unfold retime in E1. exec in E1.
  rewrite ?Nmax_add, ?N.max_id in E1.
  clear Hadv1 Hadv1' Hcf Hbf Hinvf Ef xf Hb1 Hc1 Hin1 Hinv1 Hn1 Hb Hinv.
  assert (Hc1 : Forall calm (timers (clock x1))) by (rewrite E1; exact Hcx1).
  (* the engine takes its time to end *)
  elapse_calm 1%Z finish x1 E1 Hinvx1 Hc1 Hbx1 as x2 tr3 ts3 E2 Hinv2 Hc2 Hb2.
  clear E1 Hinvx1 Hcx1 Hbx1 Hc1 x1 tr2 ts2.
  (* the engine reports its end *)
  deliver_calm 1%Z 1%Z finish x2 E2 Hinv2 Hb2 as x3 E3 Hinv3 Hb3
    [reflexivity | (exec; reflexivity) | lia].
  assert (Hc3 : Forall calm (timers (clock x3))) by (rewrite E3; exact Hc2).
  clear E2 Hinv2 Hb2 Hc2 x2.
  (* the reply takes its time *)
  elapse_calm 1%Z finish x3 E3 Hinv3 Hc3 Hb3 as x4 tr4 ts4 E4 Hinv4 Hc4 Hb4.
  clear E3 Hinv3 Hc3 Hb3 x3 tr3 ts3.
  (* the reply arrives and is queued for speech *)
  deliver_calm 1%Z 1%Z finish x4 E4 Hinv4 Hb4 as x5 E5 Hinv5 Hb5
    [ (exec; rewrite find_pending_new by exact Hfresh; reflexivity)
    | (exec; rewrite find_pending_new by exact Hfresh; exec; rewrite Hresp;
       exec; rewrite filter_pending_new by exact Hfresh; reflexivity)
    | (pose proof (bound_cancel finish k ts4); lia) ].
  assert (Hc5 : Forall calm (timers (clock x5)))
    by (rewrite E5; cbn [timers clock]; apply calm_cancel, Hc4).
  clear E4 Hinv4 Hb4 Hc4 x4.
  (* the reply is being spoken *)
  elapse_calm 1%Z finish x5 E5 Hinv5 Hc5 Hb5 as x6 tr6 ts6 E6 Hinv6 Hc6 Hb6.
  clear E5 Hinv5 Hc5 Hb5 x5 tr4 ts4.
  (* the utterance ends *)
  deliver_calm 1%Z 0%Z finish x6 E6 Hinv6 Hb6 as x7 E7 Hinv7 Hb7
    [ (exec; reflexivity) | (exec; reflexivity)
    | (rewrite bound_push; cbn [weight period is_silence cb]; lia) ].
  clear E6 Hinv6 Hb6 x6.
  (* half a second later *)
  set (Tc := {| tid := k_nt;
                due := k_now + 5000 + d_end + d_reply + d_speech + 500;
                cb := CbSpeakEnd None; period := None |}) in *.
  set (target := (k_now + 5000 + d_end + d_reply + d_speech + 500)%N).
  assert (Hn7 : (now (clock x7) + 500)%N = target) by (rewrite E7; reflexivity).
  destruct (advance_total (firings_bound target x7) target x7 Hinv7 (le_n _))
    as [x8 Hadv8].
  eapply play_elapse_ex; [rewrite E7; reflexivity|rewrite Hn7; exact Hadv8|].
  destruct (advance_special 0 finish Tc (firings_bound target x7) target x7 x8)
    as (tr8 & n8 & ts8 & f8 & Hn8 & Hinv8 & Hin8 & Hc8 & Hb8 & Hadv8');
    [lia|exact Hinv7|rewrite E7; cbn [timers clock]; apply in_or_app; right;
     left; reflexivity| | | | |exact Hb7|exact Hadv8|].
  { rewrite E7. cbn [timers clock]. apply Forall_app. split.
    - eapply Forall_impl; [|exact Hc6]. intros a Ha. now left.
    - constructor; [right; reflexivity|constructor]. }
  { rewrite E7. subst Tc. cbn [now clock due]. lia. }
  { subst Tc target. cbn [due]. lia. }
  { subst target. lia. }
  set (xg := fire Tc (retime tr8 n8 ts8 x7)) in *.
  assert (Hinvg : deadline_inv xg) by (apply fire_deadline_inv, Hinv8).
  assert (Hbg : budget 0 finish xg).
  { apply fire_budget; [exact Hinv8|exact Hin8|subst Tc; cbn [due]; lia|
      exact Hb8]. }
  cbn [due Tc] in Hn8.
  eassert (Eg : xg = _)
    by (subst xg Tc; rewrite E7; unfold retime; exec;
        rewrite (N.max_r n8 _) by exact Hn8; reflexivity).
  assert (Hcg : Forall calm (timers (clock xg))).
  { rewrite Eg. cbn [timers clock]. exact (calm_but_cancel Tc ts8 Hc8). }
  destruct (advance_calm 0 finish f8 target xg x8) as
    (tr9 & ts9 & E8 & Hinvx8 & Hcx8 & Hbx8);
    [lia|exact Hinvg|exact Hcg|subst target; lia|exact Hbg|exact Hadv8'|].
  rewrite Eg in E8. unfold retime in E8. exec in E8. subst target.
  rewrite ?Nmax_add, ?N.max_id in E8.
  clear Hadv8 Hadv8' Hcg Hbg Hinvg Eg xg Hb8 Hc8 Hin8 Hinv8 Hn8 Hb7 Hinv7 E7 Hn7.
  assert (Hc8 : Forall calm (timers (clock x8))) by (rewrite E8; exact Hcx8).
  (* the engine takes its time to start *)
  elapse_calm 0%Z finish x8 E8 Hinvx8 Hc8 Hbx8 as x9 tr10 ts10 E9 Hinv9 Hc9 Hb9.
  clear E8 Hinvx8 Hc8 Hbx8 Hcx8 x8.
  (* the engine reports its start *)
  deliver_calm 0%Z 0%Z finish x9 E9 Hinv9 Hb9 as x10 E10 Hinv10 Hb10
    [ reflexivity | (exec; reflexivity) | lia ].
  exists 0, x10. split; [reflexivity|].
  unfold budget in Hb10. rewrite E10 in Hb10 |- *.
  cbn [vars recog synth clock net page isListening recState finalTranscript
       interimTranscript recCalls requests pending chat queue timers now
       timeRemaining] in *.
  rewrite !filter_app, !length_app. cbn [filter is_start List.length].
  rewrite <- !app_assoc. cbn [app].
  subst message.
  repeat split; try reflexivity; try lia; try exact Hc9.
Qed.

Lemma onresult_frame (event : ResultEvent) (s : State) :
  let s' := handle (RecOnResult event) s in
  conversationId (vars s') = conversationId (vars s) /\
  isListening (vars s') = isListening (vars s) /\
  recog s' = recog s /\ synth s' = synth s /\ net s' = net s /\
  page s' = page s.
Proof.
  destruct_state s. exec. destruct v_st; exec; try rewrite accumulate_spec;
    exec; repeat split.
Qed.

Lemma turn_plays (supported ok : bool) (event : ResultEvent)
    (fields : list (string * Value)) (d_end d_reply d_speech d_start : N)
    (s : State) :
  reachable supported s ->
  unloaded (page s) = false ->
  recognition (vars s) = true -> isListening (vars s) = true ->
  recState (recog s) = RecRunning ->
  truthy (conversationId (vars s)) = true ->
  trim (finalTranscript (vars s) ++ finalized_delta event) <> [] ->
  truthy (lookup "response" fields) = true ->
  Forall (fun x => resumes_capture (cb x) = false) (timers (clock s)) ->
  let message := trim (finalTranscript (vars s) ++ finalized_delta event) in
  let finish :=
    (now (clock s) + 5000 + d_end + d_reply + d_speech + 500 + d_start)%N in
  budget 3 finish s ->
  exists fuel s',
    play fuel (turn_trace event (Response ok (JObject fields))
                 d_end d_reply d_speech d_start s) s = Some s' /\
    isListening (vars s') = true /\ recState (recog s') = RecRunning /\
    finalTranscript (vars s') = [] /\ interimTranscript (vars s') = [] /\
    attempts s' = S (attempts s) /\
    requests (net s') =
      requests (net s) ++ [ReqSend (conversationId (vars s)) message] /\
    pending (net s') = pending (net s) /\
    chat (page s') =
      chat (page s) ++ [(VStr message, true); (lookup "response" fields, false)] /\
    queue (synth s') = [] /\
    now (clock s') = finish /\
    Forall calm (timers (clock s')) /\
    (0 < timeRemaining (vars s'))%Z.
Proof.
  intros Hreach Hunl Hrec Hlis Hrun Hcid Hmsg Hresp Hno message finish Hbud.
  pose proof (reachable_deadline_inv _ _ Hreach) as Hinv.
  pose proof (reachable_pending_fresh _ _ Hreach) as Hfresh.
  assert (Hcl : Forall calm
            (clear_handle (silenceTimer (vars s)) (timers (clock s)))).
  { pose proof (queue_silence_cleared _ _ _ Hinv) as Hnil.
    apply filter_nil_Forall in Hnil.
    assert (H2 : Forall (fun x => resumes_capture (cb x) = false)
                 (clear_handle (silenceTimer (vars s)) (timers (clock s)))).
    { unfold clear_handle. destruct (silenceTimer (vars s)); [|exact Hno].
      eapply thins_Forall; [|exact Hno]. apply thins_cancel, thins_refl. }
    rewrite Forall_forall in *. intros x Hx. split; auto. }
  set (s1 := handle (RecOnResult event) s).
  destruct (onresult_effect event s) as (Ets & Est & Enow & _ & Etr & Erec).
  destruct (recognition_onresult_buffer event s) as (Eft & _ & Eat).
  destruct (onresult_frame event s) as (Ecid & Elis & Erg & Esy & Enet & Epg).
  fold s1 in Ets, Est, Enow, Etr, Erec, Ecid, Elis, Erg, Esy, Enet, Epg.
  change (final_state (recognition_onresult event s)) with s1 in Eft, Eat.
  destruct (turn_after_result ok fields d_end d_reply d_speech d_start
              (nextTid (clock s))
              (clear_handle (silenceTimer (vars s)) (timers (clock s))) s1)
    as (fuel & s' & Hplay & H1 & H2 & H3 & H4 & H5 & H6 & H7 & H8 & H9 & H10 &
        H11 & H12).
  - apply handle_deadline_inv, Hinv.
  - apply handle_pending_fresh, Hfresh.
  - now rewrite Epg.
  - now rewrite Erec.
  - now rewrite Elis.
  - now rewrite Erg.
  - now rewrite Ecid.
  - rewrite Eft. exact Hmsg.
  - exact Hresp.
  - exact Est.
  - rewrite Ets, Enow. reflexivity.
  - exact Hcl.
  - unfold budget, firings_bound. rewrite Ets, Etr, Enow, bound_push.
    pose proof (bound_clear finish (silenceTimer (vars s)) (timers (clock s))).
    unfold budget, firings_bound in Hbud. subst finish.
    cbn [weight period armed is_silence cb]. lia.
  - exists fuel, s'. split.
    + unfold turn_trace. cbn [play].
      assert (He : enabled (RecOnResult event) s = true).
      { unfold enabled. rewrite Hunl, Hrec. unfold rec_is. rewrite Hrun.
        reflexivity. }
      rewrite He. fold s1.
      unfold heard_trace in *. rewrite Enet, Esy in Hplay. exact Hplay.
    + rewrite Eat, Enet, Ecid, Epg, Eft, Enow in *.
      repeat (split; [assumption|]). assumption.
Qed.



(* ================================================================== *)
(** ** Waiting while the flag is set (lines 121-133, 208-218) *)

Lemma fire_flag_set (t : Timer) (s : State) :
  isListening (vars s) = true -> is_silence t = false ->
  (cb t = CbCountdown -> (1 < timeRemaining (vars s))%Z) ->
  recognition (vars (fire t s)) = recognition (vars s) /\
  isListening (vars (fire t s)) = true /\
  attempts (fire t s) = attempts s /\
  recState (recog (fire t s)) = recState (recog s).
Proof.
  unfold is_silence. destruct_state s. intros Hl. exec in Hl. subst v_lis.
  fire_cases t; exec; intros H1 H2; try discriminate.
  all: script_cases; try (repeat split; fail).
  all: specialize (H2 eq_refl); lia.
Qed.

Lemma advance_in_vain (a : nat) (st : RecState) (fuel : nat) (target : N)
    (s s' : State) :
  deadline_inv s -> waiting_in_vain a st s ->
  (Z.of_nat (firings_bound target s) < timeRemaining (vars s))%Z ->
  advance_to fuel target s = Some s' ->
  waiting_in_vain a st s'.
Proof.
  revert s. induction fuel as [|f IH]; intros s Hinv Hw Hb H; simpl in H.
  - destruct (earliest (timers (clock s))) as [t|];
      [destruct (due t <=? target)%N; [discriminate|]|];
      injection H as <-; destruct_state s; exact Hw.
  - destruct (earliest (timers (clock s))) as [t|] eqn:E;
      [destruct (due t <=? target)%N eqn:Hd|];
      try (injection H as <-; destruct_state s; exact Hw).
    apply N.leb_le in Hd.
    pose proof (earliest_In _ _ E) as Hin.
    destruct Hw as (Hr & Hl & Hs & Ha & Hst).
    assert (Hsil : is_silence t = false).
    { destruct (is_silence t) eqn:Hx; [|reflexivity].
      assert (Hp : In t (silence_pending s))
        by (apply filter_In; split; assumption).
      rewrite Hs in Hp. destruct Hp. }
    pose proof (fire_bound_decreases target t s Hinv Hin Hd) as Hdec.
    pose proof (fire_timeRemaining t s) as Htr.
    assert (Hk : cb t = CbCountdown -> (1 < timeRemaining (vars s))%Z) by lia.
    destruct (fire_flag_set t s Hl Hsil Hk) as (H1 & H2 & H3 & H4).
    destruct (fire_timers_calm t s Hsil Hk) as [Hts _].
    apply (IH (fire t s)); [now apply fire_deadline_inv| |lia|exact H].
    split; [congruence|]. split; [exact H2|]. split; [|split; congruence].
    unfold silence_pending in *. rewrite Hts.
    rewrite (silence_after_due_other t s (proj1 Hinv) Hin Hsil). exact Hs.
Qed.

(** X25.  While [isListening] is set, waiting does not bring capture
    back.  In a reachable state with a recognition object, [isListening]
    set and no silence deadline pending (as after the engine has ended by
    itself before anything was heard), let the clock run to any time the
    countdown does not run out by: the clock gets there, and whatever
    timers fire on the way, [isListening] is still set, no capture attempt
    has been made and the engine is in the state it was in. *)
Theorem deaf_while_flag_set (supported : bool) (target : N) (s : State) :
  reachable supported s ->
  recognition (vars s) = true -> isListening (vars s) = true ->
  silence_pending s = [] ->
  (Z.of_nat (firings_bound target s) < timeRemaining (vars s))%Z ->
  (exists s', advance_to (firings_bound target s) target s = Some s') /\
  (forall fuel s', advance_to fuel target s = Some s' ->
     isListening (vars s') = true /\ attempts s' = attempts s /\
     recState (recog s') = recState (recog s)).
Proof.
  intros Hreach Hr Hl Hs Hb.
  pose proof (reachable_deadline_inv _ _ Hreach) as Hinv.
  split; [now apply advance_total|].
  intros fuel s' H.
  destruct (advance_in_vain (attempts s) (recState (recog s)) fuel target s s'
              Hinv) as (_ & H1 & _ & H2 & H3); auto.
  repeat split; auto.
Qed.

Lemma deaf_while_flag_set_witness :
  let s := dispatch RecOnEnd session_listening in
  recState (recog s) = RecIdle /\
  exists s', advance_to 100 60000 s = Some s' /\
    isListening (vars s') = true /\ attempts s' = 1.
Proof.
  intros s. split; [reflexivity|].
  destruct (advance_to 100 60000 s) as [s'|] eqn:E;
    [|vm_compute in E; discriminate].
  exists s'. split; [reflexivity|].
  destruct (deaf_while_flag_set true 60000 s) as [_ H].
  - apply reach_event, reachable_run, reach_loaded.
  - reflexivity.
  - reflexivity.
  - reflexivity.
  - vm_compute. reflexivity.
  - destruct (H 100%nat s' E) as (H1 & H2 & _). split; [exact H1|exact H2].
Defined.

(* ================================================================== *)
(** ** Alerts (lines 135, 330, 386) *)

Lemma fire_alerts (t : Timer) (s : State) :
  alerts (page (fire t s)) = alerts (page s).
Proof.
  destruct_state s. fire_cases t; exec.
  all: script_cases; reflexivity.
Qed.

Lemma handle_alerts (e : Event) (s : State) :
  is_service_reply e s = false ->
  alerts (page (handle e s)) = alerts (page s).
Proof.
  intros He. destruct e; cbn [handle];
    try (destruct (find_timer id s); [apply fire_alerts|reflexivity]).
  all: unfold is_service_reply in He; destruct_state s; exec in He; exec.
  all: script_cases; try reflexivity; try discriminate.
  all: match goal with
       | E : find _ _ = Some _ |- _ => rewrite E in He; discriminate
       end.
Qed.

(** X26.  The page raises an alert only when the reply to a start or an
    end request arrives.  No other event the platform delivers, and no
    timer that fires as time passes, adds an alert: recognition errors,
    synthesis errors and failed sends are not shown to the user. *)
Theorem alerts_only_from_start_and_end_replies (s : State) :
  (forall e, is_service_reply e s = false ->
     alerts (page (dispatch e s)) = alerts (page s)) /\
  (forall fuel target s', advance_to fuel target s = Some s' ->
     alerts (page s') = alerts (page s)).
Proof.
  split.
  - intros e He. unfold dispatch. destruct (enabled e s); [|reflexivity].
    now apply handle_alerts.
  - intros fuel target s' H.
    apply (advance_to_invariant
             (fun x => alerts (page x) = alerts (page s)))
      with (fuel := fuel) (target := target) (s := s); auto.
    intros t x Hx. now rewrite fire_alerts.
Qed.

Lemma alerts_only_from_start_and_end_replies_witness :
  let s := run [RecOnResult hello_final; TimerFire 3] session_listening in
  find_pending 1 s = Some KSend /\
  alerts (page (dispatch (FetchSettled 1 NetworkFailure) s)) = [].
Proof.
  intros s. split; [reflexivity|].
  destruct (alerts_only_from_start_and_end_replies s) as [H _].
  rewrite H by reflexivity. reflexivity.
Defined.
